(** * cat-ccnotify-hook: environment-adaptive notification dispatch

    A shallow embedding of the decision procedures of the notification hook
    (shell-executor.js, environment-detector.js, simple-parent-detector.js,
    adaptive-notifier.js and notification-hook.js), of the stop hook
    (stop-hook.cjs) and of what they share (error-handler.js,
    notification-sender.js), together with the properties established
    about them. *)

From Stdlib Require Import Ascii String.
From stdpp Require Import gmap strings list.

Local Open Scope N_scope.

(** ** JavaScript strings

    A JavaScript string is a sequence of UTF-16 code units; [length],
    [substring], [includes] and regular expressions without the [u] flag all
    work on code units, so that is the representation used here. *)

Module JsString.

Abbreviation jsstring := (list N).

(** Code units of an ASCII literal. *)
Fixpoint js (s : string) : jsstring :=
  match s with
  | EmptyString => []
  | String a r => N_of_ascii a :: js r
  end.

(** The values a dynamically typed argument can take, as far as the
    [typeof] guards of the program distinguish them. *)
Inductive jsvalue :=
| JString (s : jsstring)
| JNumber (z : Z)
| JBool (b : bool)
| JNull
| JUndefined.

(** [Boolean(s)] for a string: only the empty string is falsy. *)
Definition truthy (s : jsstring) : bool :=
  match s with [] => false | _ :: _ => true end.

(** [Boolean(v)] for an optional string ([undefined] when absent). *)
Definition truthyOpt (v : option jsstring) : bool :=
  match v with Some s => truthy s | None => false end.

Definition unitEqb (a b : N) : bool := N.eqb a b.

(** [p] is a prefix of [s], code unit by code unit. *)
Fixpoint startsWith (p s : jsstring) : bool :=
  match p, s with
  | [], _ => true
  | _ :: _, [] => false
  | a :: p', b :: s' => unitEqb a b && startsWith p' s'
  end.

(** [s.includes(p)]. *)
Fixpoint includes (p s : jsstring) : bool :=
  startsWith p s ||
  match s with
  | [] => false
  | _ :: s' => includes p s'
  end.

(** [s.substring(0, n)] for [0 <= n]. *)
Definition substring0 (n : nat) (s : jsstring) : jsstring := take n s.

(** A JavaScript number holding an integer; [None] is [NaN].  Integers are
    exact below 2^53, which is all the program meets (process ids). *)
Abbreviation jsnumber := (option Z).

(** White space and line terminators: the class [\s], which is also what
    [trim] removes. *)
Definition isWhiteSpace (c : N) : bool :=
  ((0x09 <=? c) && (c <=? 0x0D)) || (c =? 0x20) || (c =? 0xA0)
  || (c =? 0x1680) || ((0x2000 <=? c) && (c <=? 0x200A))
  || (c =? 0x2028) || (c =? 0x2029) || (c =? 0x202F) || (c =? 0x205F)
  || (c =? 0x3000) || (c =? 0xFEFF).

Fixpoint trimStart (s : jsstring) : jsstring :=
  match s with
  | [] => []
  | c :: r => if isWhiteSpace c then trimStart r else s
  end.

Definition trimEnd (s : jsstring) : jsstring :=
  reverse (trimStart (reverse s)).

Definition trim (s : jsstring) : jsstring := trimEnd (trimStart s).

(** [s.split(sep)] for a separator of one code unit. *)
Fixpoint split (sep : N) (s : jsstring) : list jsstring :=
  match s with
  | [] => [[]]
  | c :: r =>
      if c =? sep then [] :: split sep r
      else match split sep r with
           | h :: t => (c :: h) :: t
           | [] => [[c]]
           end
  end.

(** [s.split(/\s+/)]: a run of white space is one separator. *)
Fixpoint splitWhiteSpace (s : jsstring) : list jsstring :=
  match s with
  | [] => [[]]
  | c :: r =>
      if isWhiteSpace c then
        match r with
        | c' :: _ =>
            if isWhiteSpace c' then splitWhiteSpace r
            else [] :: splitWhiteSpace r
        | [] => [] :: splitWhiteSpace r
        end
      else match splitWhiteSpace r with
           | h :: t => (c :: h) :: t
           | [] => [[c]]
           end
  end.

(** [parts.join(sep)]. *)
Fixpoint join (sep : jsstring) (parts : list jsstring) : jsstring :=
  match parts with
  | [] => []
  | [x] => x
  | x :: rest => x ++ sep ++ join sep rest
  end.

(** [s.replace(pat, repl)] for a string pattern: the first occurrence. *)
Fixpoint replaceFirst (pat repl s : jsstring) : jsstring :=
  if startsWith pat s then repl ++ drop (length pat) s
  else match s with
       | [] => []
       | c :: r => c :: replaceFirst pat repl r
       end.

Definition digitValue (c : N) : option Z :=
  if (0x30 <=? c) && (c <=? 0x39) then Some (Z.of_N c - 0x30)%Z
  else if (0x61 <=? c) && (c <=? 0x7A) then Some (Z.of_N c - 0x61 + 10)%Z
  else if (0x41 <=? c) && (c <=? 0x5A) then Some (Z.of_N c - 0x41 + 10)%Z
  else None.

(** The value of the longest prefix of [s] made of digits of the radix,
    continuing from [acc]; [None] when there is no digit at all. *)
Fixpoint digitsPrefix (radix : Z) (acc : option Z) (s : jsstring)
  : option Z :=
  match s with
  | [] => acc
  | c :: r =>
      match digitValue c with
      | Some d =>
          if (d <? radix)%Z
          then digitsPrefix radix (Some (radix * default 0 acc + d)%Z) r
          else acc
      | None => acc
      end
  end.

(** [parseInt(s)] without a radix argument. *)
Definition parseInt (s : jsstring) : jsnumber :=
  let s1 := trimStart s in
  let '(negative, s2) :=
    match s1 with
    | c :: r =>
        if c =? 0x2D then (true, r)
        else if c =? 0x2B then (false, r) else (false, s1)
    | [] => (false, s1)
    end in
  let '(radix, s3) :=
    match s2 with
    | z :: x :: r =>
        if (z =? 0x30) && ((x =? 0x78) || (x =? 0x58)) then (16%Z, r)
        else (10%Z, s2)
    | _ => (10%Z, s2)
    end in
  match digitsPrefix radix None s3 with
  | Some v => Some (if negative : bool then (- v)%Z else v)
  | None => None
  end.

(** [parseInt(x)] where [x] may be [undefined] (an index out of range):
    the argument is first turned into the string "undefined". *)
Definition parseIntOpt (x : option jsstring) : jsnumber :=
  match x with
  | Some s => parseInt s
  | None => None
  end.

End JsString.

Import JsString.

(** ** lib/shell-executor.js *)

Module ShellExecutor.

(** The character class [[\x00-\x08\x0B\x0C\x0E-\x1F\x7F]]. *)
Definition isControlUnit (c : N) : bool :=
  (c <=? 0x08) || (c =? 0x0B) || (c =? 0x0C)
  || ((0x0E <=? c) && (c <=? 0x1F)) || (c =? 0x7F).

(** [content.replace(/[...]/g, '')]. *)
Definition stripControl (s : jsstring) : jsstring :=
  List.filter (fun c => negb (isControlUnit c)) s.

Definition maxLength : nat := 1000.

Definition sanitizeNotificationContent (content : jsvalue) : jsstring :=
  match content with
  | JString s =>
      let sanitized := stripControl s in
      if (maxLength <? length sanitized)%nat
      then substring0 maxLength sanitized ++ js "..."
      else sanitized
  | _ => []
  end.

End ShellExecutor.

(** ** Effects

    The program reads the process state ([process.env], the [isTTY] flags,
    the platform) and runs external commands.  Both are threaded through one
    monad: a computation yields a value or throws, and leaves the list of
    reads and external calls it made, oldest first.  Diagnostic
    [console.log] lines are not part of the model. *)

Module Effects.

Inductive capability :=
| HasOsascript | HasTerminalNotifier | HasAlerter | HasNotifySend
| HasAfplay | HasSay | HasEspeak.

Inductive event :=
| ReadEnv (k : string)
| ReadStdoutIsTTY
| ReadStdinIsTTY
| ReadPlatform
| ReadCapability (c : capability)
| ExecCommandV (cmd : jsstring)
| ExecPs (pid : Z)
| ExecMdls (appPath : jsstring)
| ExecSync (cmd : jsstring)
| SpawnAlerter (args : list jsstring)
| ExistsSync (path : jsstring)
| WriteStdout (text : jsstring).

Inductive outcome (A : Type) :=
| Returns (a : A)
| Throws (msg : jsstring).
Arguments Returns {A} a.
Arguments Throws {A} msg.

Definition io (A : Type) : Type := outcome A * list event.

#[global] Instance io_ret : MRet io := λ A a, (Returns a, []).

#[global] Instance io_bind : MBind io := λ A B f m,
  match m with
  | (Returns a, l) => let r := f a in (r.1, l ++ r.2)
  | (Throws e, l) => (Throws e, l)
  end.

Definition emit (e : event) : io unit := (Returns tt, [e]).

Definition throw {A} (msg : jsstring) : io A := (Throws msg, []).

(** [try { m } catch (error) { h error.message }]. *)
Definition tryCatch {A} (m : io A) (h : jsstring → io A) : io A :=
  match m with
  | (Returns a, l) => (Returns a, l)
  | (Throws e, l) => let r := h e in (r.1, l ++ r.2)
  end.

Definition result {A} (m : io A) : outcome A := m.1.
Definition trace {A} (m : io A) : list event := m.2.

(** What [execSync] does with a command: its standard output, or an
    exception (spawn failure, non-zero exit status, timeout). *)
Inductive execResult :=
| ExecOk (stdout : jsstring)
| ExecError (msg : jsstring).

(** What happens to a spawned child: the call throws, or the child's
    ['close'] event reports an exit code ([null] when a signal ended it)
    after the child wrote [output] to its standard output. *)
Inductive spawnResult :=
| SpawnThrows (msg : jsstring)
| SpawnClosed (code : option Z) (output : jsstring).

(** The operating system the hook runs on, as the program observes it. *)
Record os := {
  (* execSync(`command -v ${cmd}`) / execSync(`where.exe ${cmd}`) *)
  commandV : jsstring → execResult;
  (* execSync(`ps -p ${pid} -o pid,ppid,comm,args`) *)
  ps : Z → execResult;
  (* execSync(`mdls -name kMDItemCFBundleIdentifier -raw "${appPath}"`) *)
  mdls : jsstring → execResult;
  (* execSync(command, { stdio: 'ignore' }) for every other command line *)
  execSync : jsstring → execResult;
  (* spawn('alerter', args); the program fails before it gets there, see
     [AdaptiveNotifier.sendWithAlerter] *)
  spawnAlerter : list jsstring → spawnResult;
  (* existsSync(path) *)
  existsSync : jsstring → bool
}.

Definition runExec (e : event) (r : execResult) : io jsstring :=
  _ ← emit e;
  match r with
  | ExecOk out => mret out
  | ExecError msg => throw msg
  end.

End Effects.

Import Effects.

(** ** lib/environment-detector.js *)

Module EnvironmentDetector.

(** [os.platform()]. *)
Inductive platform := Darwin | Linux | Win32 | OtherPlatform.

Definition platformEqb (a b : platform) : bool :=
  match a, b with
  | Darwin, Darwin | Linux, Linux | Win32, Win32
  | OtherPlatform, OtherPlatform => true
  | _, _ => false
  end.

(** The state of the running process: [process.env], the [isTTY] property
    of the two standard streams ([None] is [undefined]) and the platform. *)
Record process := {
  env : gmap string jsstring;
  stdoutIsTTY : option bool;
  stdinIsTTY : option bool;
  osPlatform : platform;
  ppid : Z
}.

Definition getenv (p : process) (k : string) : io (option jsstring) :=
  _ ← emit (ReadEnv k); mret (env p !! k).

Definition readStdoutIsTTY (p : process) : io (option bool) :=
  _ ← emit ReadStdoutIsTTY; mret (stdoutIsTTY p).

Definition readStdinIsTTY (p : process) : io (option bool) :=
  _ ← emit ReadStdinIsTTY; mret (stdinIsTTY p).

Definition readPlatform (p : process) : io platform :=
  _ ← emit ReadPlatform; mret (osPlatform p).

(** [x === false] for an [isTTY] property. *)
Definition isExplicitlyFalse (v : option bool) : bool :=
  match v with Some false => true | _ => false end.

Record capabilities := {
  hasOsascript : bool;
  hasTerminalNotifier : bool;
  hasAlerter : bool;
  hasNotifySend : bool;
  hasAfplay : bool;
  hasSay : bool;
  hasEspeak : bool
}.

Definition capabilityOf (caps : capabilities) (c : capability) : bool :=
  match c with
  | HasOsascript => hasOsascript caps
  | HasTerminalNotifier => hasTerminalNotifier caps
  | HasAlerter => hasAlerter caps
  | HasNotifySend => hasNotifySend caps
  | HasAfplay => hasAfplay caps
  | HasSay => hasSay caps
  | HasEspeak => hasEspeak caps
  end.

Definition readCapability (caps : capabilities) (c : capability) : io bool :=
  _ ← emit (ReadCapability c); mret (capabilityOf caps c).

(** The tags [getBestNotificationMethod] can return. *)
Inductive method :=
| MAlerter | MTerminalNotifier | MOsascript | MNotifySend | MPowershell
| MConsole.

#[global] Instance method_eq_dec : EqDecision method.
Proof. solve_decision. Defined.

Inductive soundMethod := SAfplay | SSay | SEspeak | SPowershell | SNone.

Definition isSSHConnection (p : process) : io bool :=
  let sshClient : io bool :=
    c ← getenv p "SSH_CLIENT"; mret (truthyOpt c) in
  conn ← getenv p "SSH_CONNECTION";
  if truthyOpt conn then
    display ← getenv p "DISPLAY";
    if negb (truthyOpt display) then mret true
    else
      tty ← getenv p "SSH_TTY";
      if truthyOpt tty then mret true else sshClient
  else sshClient.

Definition ciIndicators : list string :=
  [ "CI"; "CONTINUOUS_INTEGRATION"; "BUILD_NUMBER"; "JENKINS_URL";
    "GITHUB_ACTIONS"; "GITLAB_CI"; "CIRCLECI"; "TRAVIS"; "APPVEYOR";
    "AZURE_PIPELINES"; "TEAMCITY_VERSION" ]%string.

(** [names.some(name => env[name])]: stops at the first truthy value. *)
Fixpoint someEnv (p : process) (names : list string) : io bool :=
  match names with
  | [] => mret false
  | k :: rest =>
      v ← getenv p k;
      if truthyOpt v then mret true else someEnv p rest
  end.

Definition isCIEnvironment (p : process) : io bool :=
  someEnv p ciIndicators.

Definition isNonTTYEnvironment (p : process) : io bool :=
  out ← readStdoutIsTTY p;
  if isExplicitlyFalse out then mret true
  else
    inp ← readStdinIsTTY p;
    if isExplicitlyFalse inp then mret true else mret false.

Definition shouldForceConsole (p : process) : io bool :=
  ssh ← isSSHConnection p;
  if ssh : bool then mret true
  else
    ci ← isCIEnvironment p;
    if ci : bool then mret true
    else
      nontty ← isNonTTYEnvironment p;
      if nontty : bool then mret true else mret false.

Definition getBestNotificationMethod (p : process) (caps : capabilities)
  : io method :=
  let windowsOrConsole : io method :=
    pl ← readPlatform p;
    if platformEqb pl Win32 then mret MPowershell else mret MConsole in
  let linuxOrLater : io method :=
    pl ← readPlatform p;
    if platformEqb pl Linux then
      ns ← readCapability caps HasNotifySend;
      if ns : bool then mret MNotifySend else windowsOrConsole
    else windowsOrConsole in
  force ← getenv p "CAT_CCNOTIFY_FORCE_CONSOLE";
  if bool_decide (force = Some (js "true")) then mret MConsole
  else
    forced ← shouldForceConsole p;
    if forced : bool then mret MConsole
    else
      pl ← readPlatform p;
      if platformEqb pl Darwin then
        a ← readCapability caps HasAlerter;
        if a : bool then mret MAlerter
        else
          tn ← readCapability caps HasTerminalNotifier;
          if tn : bool then mret MTerminalNotifier
          else
            o ← readCapability caps HasOsascript;
            if o : bool then mret MOsascript else linuxOrLater
      else linuxOrLater.

Definition getBestSoundMethod (p : process) (caps : capabilities)
  : soundMethod :=
  let windowsOrNone :=
    if platformEqb (osPlatform p) Win32 then SPowershell else SNone in
  let linuxOrLater :=
    if platformEqb (osPlatform p) Linux then
      if hasEspeak caps then SEspeak else windowsOrNone
    else windowsOrNone in
  if platformEqb (osPlatform p) Darwin then
    if hasAfplay caps then SAfplay
    else if hasSay caps then SSay else linuxOrLater
  else linuxOrLater.

Record terminalInfo := {
  term : jsstring;
  colorTerm : option jsstring;
  termProgram : option jsstring;
  supportsColor : bool;
  isITerm2 : bool;
  isVSCode : bool;
  isWindows : bool;
  isSandbox : bool
}.

(** [detectTerminalEnvironment]; [supportsColor] keeps the truth value of
    the expression, which is all its readers use.  The terminal size
    fields are left out. *)
Definition detectTerminalEnvironment (p : process) : terminalInfo :=
  let e := env p in
  {| term := match e !! "TERM" with
             | Some t => if truthy t then t else js "unknown"
             | None => js "unknown"
             end;
     colorTerm := if truthyOpt (e !! "COLORTERM") then e !! "COLORTERM"
                  else None;
     termProgram := if truthyOpt (e !! "TERM_PROGRAM")
                    then e !! "TERM_PROGRAM" else None;
     supportsColor :=
       negb (truthyOpt (e !! "NO_COLOR"))
       && (truthyOpt (e !! "COLORTERM")
           || match e !! "TERM" with
              | Some t => includes (js "color") t
              | None => false
              end);
     isITerm2 := bool_decide (e !! "TERM_PROGRAM" = Some (js "iTerm.app"));
     isVSCode := bool_decide (e !! "TERM_PROGRAM" = Some (js "vscode"));
     isWindows := platformEqb (osPlatform p) Win32;
     isSandbox := truthyOpt (e !! "SANDBOX") |}.

Definition commandExists (o : os) (cmd : jsstring) : io bool :=
  tryCatch
    (_ ← runExec (ExecCommandV cmd) (commandV o cmd); mret true)
    (λ _, mret false).

Record notificationCapabilities := {
  tools : capabilities;
  bestNotificationMethod : method;
  bestSoundMethod : soundMethod
}.

Definition detectNotificationCapabilities (o : os) (p : process)
  : io notificationCapabilities :=
  osascript ← commandExists o (js "osascript");
  terminalNotifier ← commandExists o (js "terminal-notifier");
  alerter ← commandExists o (js "alerter");
  notifySend ← commandExists o (js "notify-send");
  afplay ← commandExists o (js "afplay");
  say ← commandExists o (js "say");
  espeak ← commandExists o (js "espeak");
  let caps := {| hasOsascript := osascript;
                 hasTerminalNotifier := terminalNotifier;
                 hasAlerter := alerter;
                 hasNotifySend := notifySend;
                 hasAfplay := afplay;
                 hasSay := say;
                 hasEspeak := espeak |} in
  best ← getBestNotificationMethod p caps;
  mret {| tools := caps;
          bestNotificationMethod := best;
          bestSoundMethod := getBestSoundMethod p caps |}.

(** The fields of an [EnvironmentDetector] instance. *)
Record detector := {
  dPlatform : platform;
  dTerminalInfo : terminalInfo;
  dCapabilities : notificationCapabilities
}.

(** [new EnvironmentDetector()]. *)
Definition construct (o : os) (p : process) : io detector :=
  pl ← readPlatform p;
  let ti := detectTerminalEnvironment p in
  nc ← detectNotificationCapabilities o p;
  mret {| dPlatform := pl; dTerminalInfo := ti; dCapabilities := nc |}.

(** The record describing the application the hook runs under. *)
Record parentApp := {
  name : jsstring;
  bundleId : option jsstring;
  kind : jsstring;
  supportsTabFocus : bool
}.

(** One row of [ps -o pid,ppid,comm,args]; [command] is [undefined] when
    the row has fewer than three fields. *)
Record processInfo := {
  pid : jsnumber;
  parentPid : jsnumber;
  command : option jsstring;
  args : jsstring
}.

Definition iTerm2App : parentApp :=
  {| name := js "iTerm2"; bundleId := Some (js "com.googlecode.iterm2");
     kind := js "terminal"; supportsTabFocus := false |}.

Definition vsCodeApp : parentApp :=
  {| name := js "Visual Studio Code";
     bundleId := Some (js "com.microsoft.VSCode");
     kind := js "editor"; supportsTabFocus := true |}.

Definition terminalApp : parentApp :=
  {| name := js "Terminal"; bundleId := Some (js "com.apple.Terminal");
     kind := js "terminal"; supportsTabFocus := false |}.

Definition unknownTerminal : parentApp :=
  {| name := js "Unknown Terminal"; bundleId := None;
     kind := js "unknown"; supportsTabFocus := false |}.

Definition undefinedIncludes : jsstring :=
  js "Cannot read properties of undefined (reading 'includes')".

(** [identifyTerminalApp(info)]; calling [includes] on an [undefined]
    command is a TypeError. *)
Definition identifyTerminalApp (info : processInfo)
  : io (option parentApp) :=
  if includes (js "iTerm.app") (args info) then mret (Some iTerm2App)
  else
    codeMatch ←
      (if includes (js "Code.app") (args info) then mret true
       else match command info with
            | Some c => mret (includes (js "code") c)
            | None => throw undefinedIncludes
            end);
    if codeMatch : bool then mret (Some vsCodeApp)
    else if includes (js "Terminal.app") (args info)
         then mret (Some terminalApp)
         else mret None.

Definition getFallbackApp (ti : terminalInfo) : parentApp :=
  if isITerm2 ti then iTerm2App
  else if isVSCode ti then vsCodeApp
  else unknownTerminal.

Definition maxLevels : nat := 15.

(** The row the walk reads out of the output of [ps], or [None] when the
    output has fewer than two lines. *)
Definition parsePs (output : jsstring) : option processInfo :=
  let lines := split 0x0A (trim output) in
  match lines !! 1%nat with
  | None => None
  | Some row =>
      let parts := splitWhiteSpace (trim row) in
      Some {| pid := parseIntOpt (parts !! 0%nat);
              parentPid := parseIntOpt (parts !! 1%nat);
              command := parts !! 2%nat;
              args := join (js " ") (drop 3 parts) |}
  end.

(** The body of [while (currentPid && currentPid > 1 && level < maxLevels)]
    with [remaining = maxLevels - level]; [Some app] is the [return] inside
    the loop, [None] is leaving the loop. *)
Fixpoint walk (o : os) (remaining : nat) (currentPid : jsnumber)
  : io (option parentApp) :=
  match remaining, currentPid with
  | S n, Some cur =>
      if (1 <? cur)%Z then
        output ← runExec (ExecPs cur) (ps o cur);
        match parsePs output with
        | None => mret None
        | Some info =>
            found ← identifyTerminalApp info;
            match found with
            | Some app => mret (Some app)
            | None => walk o n (parentPid info)
            end
        end
      else mret None
  | _, _ => mret None
  end.

Definition detectParentApp (o : os) (p : process) (d : detector)
  : io parentApp :=
  found ← tryCatch (walk o maxLevels (Some (ppid p))) (λ _, mret None);
  match found with
  | Some app => mret app
  | None => mret (getFallbackApp (dTerminalInfo d))
  end.

End EnvironmentDetector.

(** ** lib/simple-parent-detector.js *)

Module SimpleParentDetector.

Import EnvironmentDetector (process, ppid, processInfo, parsePs,
  parentPid, args, pid).

(** What [detectParentApp] returns: the fallback record has neither a
    path nor a pid. *)
Record appInfo := {
  name : jsstring;
  bundleId : option jsstring;
  path : option jsstring;
  kind : jsstring;
  appPid : option jsnumber
}.

Definition getProcessInfo (o : os) (p : Z) : io (option processInfo) :=
  tryCatch
    (output ← runExec (ExecPs p) (ps o p); mret (parsePs output))
    (λ _, mret None).

(** The longest prefix of [run] that ends in ".app". *)
Fixpoint longestAppPrefix (run : jsstring) : option jsstring :=
  match run with
  | [] => None
  | c :: r =>
      match longestAppPrefix r with
      | Some pre => Some (c :: pre)
      | None => if startsWith (js ".app") run then Some (js ".app")
                else None
      end
  end.

Fixpoint takeNonSpace (s : jsstring) : jsstring :=
  match s with
  | [] => []
  | c :: r => if isWhiteSpace c then [] else c :: takeNonSpace r
  end.

(** Group 1 of [args.match(/(\/[^\s]*\.app)/)]: the leftmost slash from
    which a run of non-space characters reaches ".app", taken as far as
    the last ".app" of that run. *)
Fixpoint matchAppPath (s : jsstring) : option jsstring :=
  match s with
  | [] => None
  | c :: r =>
      if c =? 0x2F then
        match longestAppPrefix (takeNonSpace r) with
        | Some pre => Some (c :: pre)
        | None => matchAppPath r
        end
      else matchAppPath r
  end.

Definition getBundleId (o : os) (appPath : jsstring)
  : io (option jsstring) :=
  tryCatch
    (output ← runExec (ExecMdls appPath) (mdls o appPath);
     if bool_decide (trim output = js "(null)") then mret None
     else mret (Some (trim output)))
    (λ _, mret None).

Definition extractAppFromPath (o : os) (a : jsstring)
  : io (option appInfo) :=
  match matchAppPath a with
  | None => mret None
  | Some appPath =>
      let appName :=
        replaceFirst (js ".app") [] (default [] (last (split 0x2F appPath)))
      in
      id ← getBundleId o appPath;
      mret (Some {| name := replaceFirst (js ".app") [] appName;
                    bundleId := id;
                    path := Some appPath;
                    kind := js "app";
                    appPid := None |})
  end.

Definition unknownApp : appInfo :=
  {| name := js "Unknown"; bundleId := None; path := None;
     kind := js "unknown"; appPid := None |}.

Definition maxLevels : nat := 15.

(** The loop of [detectParentApp], [remaining = maxLevels - level]. *)
Fixpoint walk (o : os) (remaining : nat) (currentPid : jsnumber)
  : io (option appInfo) :=
  match remaining, currentPid with
  | S n, Some cur =>
      if (1 <? cur)%Z then
        info ← getProcessInfo o cur;
        match info with
        | None => mret None
        | Some i =>
            found ←
              (if includes (js ".app") (args i)
               then extractAppFromPath o (args i)
               else mret None);
            match found with
            | Some app =>
                mret (Some {| name := name app;
                              bundleId := bundleId app;
                              path := path app;
                              kind := kind app;
                              appPid := Some (pid i) |})
            | None => walk o n (parentPid i)
            end
        end
      else mret None
  | _, _ => mret None
  end.

(** [detectParentApp()] on an instance whose [cache] field holds [cache];
    the second component is the field afterwards. *)
Definition detectParentApp (o : os) (p : process) (cache : option appInfo)
  : io (appInfo * option appInfo) :=
  match cache with
  | Some app => mret (app, cache)
  | None =>
      found ← walk o maxLevels (Some (ppid p));
      match found with
      | Some app => mret (app, Some app)
      | None => mret (unknownApp, Some unknownApp)
      end
  end.

End SimpleParentDetector.

(** ** lib/adaptive-notifier.js

    Promises are run to completion: an [async] method is the [io]
    computation of its body, a rejected promise is a throw. *)

Module AdaptiveNotifier.

Import EnvironmentDetector.

(** The object a send method resolves to. *)
Record sendResult := {
  success : bool;
  via : method;
  clicked : option bool;
  warning : option jsstring
}.

(** An [AdaptiveNotifier] instance: the detector it holds in [this.env],
    the process it runs in and the path of the sound file. *)
Record notifier := {
  nOs : os;
  nProcess : process;
  nEnv : detector;
  soundPath : jsstring
}.

Definition dquote : jsstring := [0x22].

(** [`"${a}"`]. *)
Definition quoted (a : jsstring) : jsstring := dquote ++ a ++ dquote.

(** [args.map(arg => `"${arg}"`).join(' ')]. *)
Definition quoteArgs (l : list jsstring) : jsstring :=
  join (js " ") (map quoted l).

Definition playSound (n : notifier) : io unit :=
  _ ← emit (ExistsSync (soundPath n));
  if existsSync (nOs n) (soundPath n) then
    tryCatch
      (match bestSoundMethod (dCapabilities (nEnv n)) with
       | SAfplay =>
           let cmd := js "afplay " ++ quoted (soundPath n) in
           _ ← runExec (ExecSync cmd) (execSync (nOs n) cmd); mret tt
       | SSay =>
           let cmd := js "say " ++ quoted (js "meow") in
           _ ← runExec (ExecSync cmd) (execSync (nOs n) cmd); mret tt
       | SEspeak =>
           let cmd := js "espeak " ++ quoted (js "meow") in
           _ ← runExec (ExecSync cmd) (execSync (nOs n) cmd); mret tt
       | _ => mret tt
       end)
      (λ _, mret tt)
  else mret tt.

Definition focusParentApp (n : notifier) (app : parentApp) : io unit :=
  if truthyOpt (bundleId app) then
    tryCatch
      (if platformEqb (dPlatform (nEnv n)) Darwin then
         let cmd := js "osascript -e 'tell application id "
                    ++ quoted (default [] (bundleId app))
                    ++ js " to activate'" in
         _ ← runExec (ExecSync cmd) (execSync (nOs n) cmd); mret tt
       else mret tt)
      (λ _, mret tt)
  else mret tt.

(** [sendWithAlerter].  The file is an ES module ([import] statements and
    [import.meta.url] at its top), where [require] is not defined: the
    executor of the promise throws a ReferenceError at its first statement,
    [require('child_process')], before a child is spawned, a listener is
    installed or the sound is played, and the promise is rejected.  What
    comes before the promise builds the argument list and prints it.  The
    wording of the message is the runtime's; the dispatcher only prints
    it. *)
Definition sendWithAlerter (n : notifier) (title message : jsstring)
  (app : parentApp) : io sendResult :=
  throw (js "require is not defined").

Definition sendWithTerminalNotifier (n : notifier)
  (title message : jsstring) (app : parentApp) : io sendResult :=
  let args :=
    [js "-title"; title; js "-message"; message; js "-timeout"; js "10"]
    ++ (if truthyOpt (bundleId app)
        then [js "-activate"; default [] (bundleId app)] else []) in
  let cmd := js "terminal-notifier " ++ quoteArgs args in
  tryCatch
    (_ ← runExec (ExecSync cmd) (execSync (nOs n) cmd);
     _ ← playSound n;
     mret {| success := true; via := MTerminalNotifier;
             clicked := None; warning := None |})
    (λ msg, throw (js "terminal-notifier failed: " ++ msg)).

Definition sendWithOsascript (n : notifier) (title message : jsstring)
  : io sendResult :=
  let script := js "display notification " ++ quoted message
                ++ js " with title " ++ quoted title in
  let cmd := js "osascript -e '" ++ script ++ js "'" in
  tryCatch
    (_ ← runExec (ExecSync cmd) (execSync (nOs n) cmd);
     _ ← playSound n;
     mret {| success := true; via := MOsascript; clicked := None;
             warning :=
               Some (js "Clicking notification will open Script Editor") |})
    (λ msg, throw (js "osascript failed: " ++ msg)).

Definition sendWithNotifySend (n : notifier) (title message : jsstring)
  : io sendResult :=
  let args := [js "-t"; js "10000"; title; message] in
  let cmd := js "notify-send " ++ quoteArgs args in
  tryCatch
    (_ ← runExec (ExecSync cmd) (execSync (nOs n) cmd);
     _ ← playSound n;
     mret {| success := true; via := MNotifySend;
             clicked := None; warning := None |})
    (λ msg, throw (js "notify-send failed: " ++ msg)).

Definition nl : jsstring := [0x0A].

(** The toast script, with the title and the message spliced in. *)
Definition powerShellScript (title message : jsstring) : jsstring :=
  nl ++ js "      [Windows.UI.Notifications.ToastNotificationManager, Windows.UI.Notifications, ContentType = WindowsRuntime] | Out-Null"
  ++ nl ++ js "      $template = [Windows.UI.Notifications.ToastNotificationManager]::GetTemplateContent([Windows.UI.Notifications.ToastTemplateType]::ToastText02)"
  ++ nl ++ js "      $xml = New-Object System.Xml.XmlDocument"
  ++ nl ++ js "      $xml.LoadXml($template.GetXml())"
  ++ nl ++ js "      $xml.GetElementsByTagName(" ++ quoted (js "text")
  ++ js ")[0].AppendChild($xml.CreateTextNode("
  ++ quoted title ++ js ")) | Out-Null"
  ++ nl ++ js "      $xml.GetElementsByTagName(" ++ quoted (js "text")
  ++ js ")[1].AppendChild($xml.CreateTextNode("
  ++ quoted message ++ js ")) | Out-Null"
  ++ nl ++ js "      $toast = [Windows.UI.Notifications.ToastNotification]::new($xml)"
  ++ nl ++ js "      [Windows.UI.Notifications.ToastNotificationManager]::CreateToastNotifier("
  ++ quoted (js "PowerShell") ++ js ").Show($toast)"
  ++ nl ++ js "    ".

Definition sendWithPowerShell (n : notifier) (title message : jsstring)
  : io sendResult :=
  let cmd := js "powershell -Command "
             ++ quoted (powerShellScript title message) in
  tryCatch
    (_ ← runExec (ExecSync cmd) (execSync (nOs n) cmd);
     mret {| success := true; via := MPowershell;
             clicked := None; warning := None |})
    (λ msg, throw (js "PowerShell notification failed: " ++ msg)).

Definition esc : jsstring := [0x1B].
Definition bell : jsstring := [0x07].
Definition catFace : jsstring := [0xD83D; 0xDC31].

Definition sendWithConsole (n : notifier) (title message : jsstring)
  : io sendResult :=
  let color := supportsColor (dTerminalInfo (nEnv n)) in
  let colorTitle :=
    if color then esc ++ js "[1;36m" ++ title ++ esc ++ js "[0m"
    else title in
  let colorMessage :=
    if color then esc ++ js "[33m" ++ message ++ esc ++ js "[0m"
    else message in
  _ ← emit (WriteStdout (nl ++ catFace ++ js " " ++ colorTitle ++ nl));
  _ ← emit (WriteStdout (js "   " ++ colorMessage ++ nl ++ nl));
  _ ← emit (WriteStdout bell);
  _ ← playSound n;
  mret {| success := true; via := MConsole;
          clicked := None; warning := None |}.

Definition sendNotification (n : notifier) (title message : jsstring)
  : io sendResult :=
  app ← detectParentApp (nOs n) (nProcess n) (nEnv n);
  let m := bestNotificationMethod (dCapabilities (nEnv n)) in
  if isITerm2 (dTerminalInfo (nEnv n)) && bool_decide (m = MOsascript)
  then sendWithOsascript n title message
  else
    tryCatch
      (match m with
       | MAlerter => sendWithAlerter n title message app
       | MTerminalNotifier => sendWithTerminalNotifier n title message app
       | MOsascript => sendWithOsascript n title message
       | MNotifySend => sendWithNotifySend n title message
       | MPowershell => sendWithPowerShell n title message
       | MConsole => sendWithConsole n title message
       end)
      (λ _, sendWithConsole n title message).

(** The module's singleton: [new EnvironmentDetector()] followed by
    [new AdaptiveNotifier()]. *)
Definition adaptiveNotifier (o : os) (p : process) (sound : jsstring)
  : io notifier :=
  d ← construct o p;
  mret {| nOs := o; nProcess := p; nEnv := d; soundPath := sound |}.

End AdaptiveNotifier.

(** ** hooks/notification-hook.js *)

Module NotificationHook.

Inductive category :=
| Error | Warning | Success | Progress | Git | Build | Test | Deploy
| Npm | File | Info.

#[global] Instance category_eq_dec : EqDecision category.
Proof. solve_decision. Defined.

(** The comparison key of a code unit under the [i] flag (without [u]).
    Only ASCII letters are folded: every pattern below is made of ASCII
    characters and of symbols that have no case, and a character outside
    ASCII never folds onto an ASCII one. *)
Definition canonicalize (c : N) : N :=
  if (0x61 <=? c) && (c <=? 0x7A) then c - 0x20 else c.

Fixpoint matchesAt (pat s : jsstring) : bool :=
  match pat, s with
  | [], _ => true
  | _ :: _, [] => false
  | a :: pat', b :: s' =>
      (canonicalize a =? canonicalize b) && matchesAt pat' s'
  end.

(** [/pat/i.test(s)] for a pattern without metacharacters. *)
Fixpoint test (pat s : jsstring) : bool :=
  matchesAt pat s ||
  match s with
  | [] => false
  | _ :: s' => test pat s'
  end.

(** [pats.some(pattern => pattern.test(content))]. *)
Definition some (pats : list jsstring) (content : jsstring) : bool :=
  existsb (λ pat, test pat content) pats.

Definition errorPatterns : list jsstring :=
  [ js "error"; js "failed"; js "failure"; js "crash"; js "exception";
    js "fatal"; [0x274C]; [0xD83D; 0xDEA8]; [0xD83D; 0xDCA5];
    js "broken"; js "cannot"; js "unable"; js "invalid" ].

Definition warningPatterns : list jsstring :=
  [ js "warning"; js "caution"; js "attention"; js "notice";
    js "deprecated"; [0x26A0; 0xFE0F]; [0xD83D; 0xDD14];
    [0xD83D; 0xDCE2]; js "might"; js "should"; js "consider" ].

Definition successPatterns : list jsstring :=
  [ js "complete"; js "success"; js "passed"; js "done"; js "finished";
    js "created"; [0x2705]; [0xD83C; 0xDF89]; [0x2728]; js "deployed";
    js "published"; js "installed"; js "ready" ].

Definition progressPatterns : list jsstring :=
  [ js "progress"; js "running"; js "processing"; js "installing";
    js "building"; js "loading"; js "starting"; js "initializing";
    [0xD83D; 0xDCCA]; [0x23F3]; [0xD83D; 0xDD04] ].

Definition gitPatterns : list jsstring :=
  [ js "git"; js "commit"; js "push"; js "pull"; js "merge"; js "branch";
    js "checkout"; [0xD83D; 0xDCDD]; [0xD83D; 0xDD00]; [0xD83D; 0xDCCB];
    js "repository"; js "repo" ].

Definition buildPatterns : list jsstring :=
  [ js "build"; js "compile"; js "bundle"; js "webpack"; js "rollup";
    js "vite"; [0xD83C; 0xDFD7; 0xFE0F]; [0xD83D; 0xDCE6];
    js "typescript"; js "babel" ].

Definition testPatterns : list jsstring :=
  [ js "test"; js "spec"; js "jest"; js "vitest"; js "cypress";
    js "mocha"; js "jasmine"; [0xD83E; 0xDDEA]; js "coverage";
    js "assertion" ].

Definition deployPatterns : list jsstring :=
  [ js "deploy"; js "publish"; js "release"; js "production";
    js "staging"; [0xD83D; 0xDE80]; js "live"; js "server" ].

Definition npmPatterns : list jsstring :=
  [ js "npm"; js "yarn"; js "pnpm"; js "package"; js "dependency";
    js "node_modules"; [0xD83D; 0xDCE6]; js "install"; js "update" ].

Definition filePatterns : list jsstring :=
  [ js "file"; js "directory"; js "folder"; js "path"; js "write";
    js "read"; js "save"; [0xD83D; 0xDCC4]; [0xD83D; 0xDCC1];
    js "created"; js "modified"; js "deleted" ].

(** [Object.entries(patterns)]: the keys in the order they are written. *)
Definition patterns : list (category * list jsstring) :=
  [ (Error, errorPatterns); (Warning, warningPatterns);
    (Success, successPatterns); (Progress, progressPatterns);
    (Git, gitPatterns); (Build, buildPatterns); (Test, testPatterns);
    (Deploy, deployPatterns); (Npm, npmPatterns); (File, filePatterns) ].

(** [['test', 'build', 'git', 'deploy', 'npm'].includes(category)]. *)
Definition isProcessCategory (c : category) : bool :=
  match c with
  | Test | Build | Git | Deploy | Npm => true
  | _ => false
  end.

(** The [for] loop over the entries. *)
Fixpoint classify (entries : list (category * list jsstring))
  (content : jsstring) : category :=
  match entries with
  | [] => Info
  | (c, pats) :: rest =>
      if some pats content then
        if isProcessCategory c then
          if some errorPatterns content then Error
          else if some successPatterns content then Success
          else c
        else c
      else classify rest content
  end.

Definition emojiMap (c : category) : jsstring :=
  match c with
  | Success => [0x2705]
  | Error => [0x274C]
  | Warning => [0x26A0; 0xFE0F]
  | Info => [0xD83D; 0xDCA1]
  | Progress => [0x23F3]
  | File => [0xD83D; 0xDCC4]
  | Git => [0xD83D; 0xDD00]
  | Build => [0xD83C; 0xDFD7; 0xFE0F]
  | Test => [0xD83E; 0xDDEA]
  | Npm => [0xD83D; 0xDCE6]
  | Deploy => [0xD83D; 0xDE80]
  end.

Definition isHighSurrogate (c : N) : bool := (0xD800 <=? c) && (c <=? 0xDBFF).
Definition isLowSurrogate (c : N) : bool := (0xDC00 <=? c) && (c <=? 0xDFFF).

Definition codePoint (hi lo : N) : N :=
  0x10000 + (hi - 0xD800) * 0x400 + (lo - 0xDC00).

(** [title.match(/[\u{1F300}-\u{1F9FF}]/u)] is not [null]: with the [u]
    flag the string is read by code points, and every code point of the
    class is a surrogate pair. *)
Fixpoint hasEmojiRangeChar (s : jsstring) : bool :=
  match s with
  | hi :: (lo :: rest) as tl =>
      if isHighSurrogate hi && isLowSurrogate lo then
        ((0x1F300 <=? codePoint hi lo) && (codePoint hi lo <=? 0x1F9FF))
        || hasEmojiRangeChar rest
      else hasEmojiRangeChar tl
  | _ => false
  end.

Record styled := {
  title : jsstring;
  message : jsstring;
  sound : category
}.

Section Runtime.

(** [String.prototype.toLowerCase], which belongs to the JavaScript
    runtime and its Unicode tables. *)
Variable toLowerCase : jsstring → jsstring.

Definition analyzeNotificationContent (title message : jsstring)
  : category :=
  let content := toLowerCase (title ++ js " " ++ message) in
  classify patterns content.

(** [getNotificationContext]: [None] is [null]. *)
Definition getNotificationContext (title message : jsstring)
  : option jsstring :=
  let content := toLowerCase (title ++ js " " ++ message) in
  let has w := includes (js w) content in
  let fileContext : option (option jsstring) :=
    if has "file" || has "write" || has "read" then
      if has "created" || has "added" then Some (Some [])
      else if has "modified" || has "updated" then Some (Some [])
      else if has "deleted" || has "removed" then Some (Some [])
      else None
    else None in
  match fileContext with
  | Some r => r
  | None =>
      if has "git" || has "commit" || has "push" then Some []
      else if has "build" || has "compile" || has "bundle" then Some []
      else if has "test" || has "spec" then Some []
      else None
  end.

Definition enhanceNotificationStyle (title message : jsstring)
  (soundType : category) : styled :=
  let emoji := emojiMap soundType in
  let enhancedTitle :=
    if truthy emoji && negb (hasEmojiRangeChar title)
    then emoji ++ js " " ++ title
    else title in
  let context := getNotificationContext title message in
  let enhancedMessage :=
    if truthyOpt context
    then default [] context ++ js " " ++ message
    else message in
  let truncated :=
    if (200 <? length enhancedMessage)%nat
    then substring0 197 enhancedMessage ++ js "..."
    else enhancedMessage in
  {| title := enhancedTitle; message := truncated; sound := soundType |}.

(** The two steps [main] runs on the payload it read. *)
Definition styleNotification (title message : jsstring) : styled :=
  let soundType := analyzeNotificationContent title message in
  enhanceNotificationStyle title message soundType.

End Runtime.

End NotificationHook.

(** ** lib/simple-parent-detector.js: activating the parent application *)

Module ParentActivation.

Import EnvironmentDetector (process).
Import SimpleParentDetector.

(** What [activateParentApp] resolves to. *)
Record activation := {
  success : bool;
  reason : option jsstring;
  appInfoOf : appInfo
}.

Definition activateCommand (id : jsstring) : jsstring :=
  js "osascript -e 'tell application id " ++ [0x22] ++ id ++ [0x22]
  ++ js " to activate'".

(** [activateParentApp()] on an instance whose [cache] field holds [cache];
    the second component is the field afterwards. *)
Definition activateParentApp (o : os) (p : process) (cache : option appInfo)
  : io (activation * option appInfo) :=
  detected ← detectParentApp o p cache;
  let app := detected.1 in
  if negb (truthyOpt (bundleId app)) then
    mret ({| success := false;
             reason := Some (js "No bundle ID available");
             appInfoOf := app |}, detected.2)
  else
    tryCatch
      (let cmd := activateCommand (default [] (bundleId app)) in
       _ ← runExec (ExecSync cmd) (execSync o cmd);
       mret ({| success := true; reason := None; appInfoOf := app |},
             detected.2))
      (λ msg, mret ({| success := false; reason := Some msg;
                       appInfoOf := app |}, detected.2)).

End ParentActivation.

(** ** hooks/stop-hook.cjs: the detector of the stop hook *)

Module StopHookDetector.

Import EnvironmentDetector (process, ppid, processInfo, parsePs, parentPid,
  args).
Import SimpleParentDetector (matchAppPath).

(** The record the stop hook's [detectParentApp] returns. *)
Record stopApp := {
  name : jsstring;
  bundleId : jsstring;
  path : jsstring
}.

Definition maxLevels : nat := 15.

(** The inner [try] around the bundle lookup: [Some app] is its [return],
    [None] is falling out of it, also through its empty [catch]. *)
Definition lookupBundle (o : os) (appPath : jsstring)
  : io (option stopApp) :=
  let appName :=
    replaceFirst (js ".app") [] (default [] (last (split 0x2F appPath))) in
  tryCatch
    (bundleResult ← runExec (ExecMdls appPath) (mdls o appPath);
     let id := if bool_decide (trim bundleResult = js "(null)")
               then None else Some (trim bundleResult) in
     if truthyOpt id
     then mret (Some {| name := appName; bundleId := default [] id;
                        path := appPath |})
     else mret None)
    (λ _, mret None).

(** The loop, [remaining = maxLevels - level]. *)
Fixpoint walk (o : os) (remaining : nat) (currentPid : jsnumber)
  : io (option stopApp) :=
  match remaining, currentPid with
  | S n, Some cur =>
      if (1 <? cur)%Z then
        output ← runExec (ExecPs cur) (ps o cur);
        match parsePs output with
        | None => mret None
        | Some info =>
            found ←
              (if includes (js ".app") (args info) then
                 match matchAppPath (args info) with
                 | Some appPath => lookupBundle o appPath
                 | None => mret None
                 end
               else mret None);
            match found with
            | Some app => mret (Some app)
            | None => walk o n (parentPid info)
            end
        end
      else mret None
  | _, _ => mret None
  end.

(** [detectParentApp()]: [None] is [null]. *)
Definition detectParentApp (o : os) (p : process) : io (option stopApp) :=
  tryCatch (walk o maxLevels (Some (ppid p))) (λ _, mret None).

End StopHookDetector.

(** ** lib/shell-executor.js: escaping for AppleScript *)

Module AppleScriptEscape.

(** [s.replace(/c/g, by)] for a pattern of one character and a replacement
    without dollar sign. *)
Definition replaceAll (c : N) (replacement : jsstring) (s : jsstring)
  : jsstring :=
  flat_map (λ x, if x =? c then replacement else [x]) s.

Definition backslash : N := 0x5C.
Definition doubleQuote : N := 0x22.
Definition lineFeed : N := 0x0A.
Definition carriageReturn : N := 0x0D.
Definition tab : N := 0x09.

Definition escapeAppleScript (str : jsvalue) : jsstring :=
  match str with
  | JString s =>
      replaceAll tab [backslash; 0x74]
        (replaceAll carriageReturn [backslash; 0x72]
           (replaceAll lineFeed [backslash; 0x6E]
              (replaceAll doubleQuote [backslash; doubleQuote]
                 (replaceAll backslash [backslash; backslash] s))))
  | _ => []
  end.

End AppleScriptEscape.

(** ** hooks/notification-hook.js: the notifications that are dropped *)

Module NotificationFilter.

Import NotificationHook.

Definition skipPatterns : list jsstring :=
  [ js "debug"; js "verbose"; js "trace"; js "internal"; js "system" ].

Section Runtime.

Variable toLowerCase : jsstring → jsstring.

Definition shouldSkipNotification (title message : jsstring) : bool :=
  if negb (truthy (trim title)) || negb (truthy (trim message)) then true
  else
    let content := toLowerCase (title ++ js " " ++ message) in
    some skipPatterns content.

End Runtime.

End NotificationFilter.

(** * The hooks *)

(** ** What a hook does to its host

    A hook calls the library, whose events are kept as they are, keeps log
    files, prints on the terminal and runs programs through [execFile].
    What the clock, the file system and the programs answer may depend on
    everything that happened before, so a computation of a hook takes the
    events of the past and yields a value or an exception together with the
    events it added, oldest first. *)

Module HookEffects.

Inductive hevent :=
| Io (e : event)
| FsExistsSync (path : jsstring)
| FsMkdirSync (path : jsstring)
| FsAppendFileSync (file text : jsstring)
| ConsoleLog (text : jsstring)
| ConsoleError (text : jsstring)
| ExecFile (file : jsstring) (args : list jsstring).

(** The entry [logError] serialises; stack traces are left out. *)
Record errorEntry := {
  entryTimestamp : jsstring;
  entryName : jsstring;
  entryMessage : jsstring;
  entryCode : jsstring;
  entryOperation : jsstring;
  entryOriginalError : option jsstring
}.

(** The machine a hook runs on. *)
Record host := {
  (* CAT_CCNOTIFY_DEBUG === 'true' || process.argv.includes('--debug') *)
  isDebugMode : bool;
  (* new Date().toISOString() *)
  clock : list hevent → jsstring;
  (* existsSync(path) *)
  pathExists : list hevent → jsstring → bool;
  (* mkdirSync(path, { recursive: true }): the message of what it throws *)
  mkdirFails : list hevent → jsstring → option jsstring;
  (* appendFileSync(file, text): the message of what it throws *)
  appendFails : list hevent → jsstring → jsstring → option jsstring;
  (* promisify(execFile)(file, args, options) *)
  execFileResult : list hevent → jsstring → list jsstring → execResult;
  (* JSON.stringify(errorEntry) *)
  jsonStringify : errorEntry → jsstring;
  (* join(homedir(), '.claude', 'cat-ccnotify') *)
  catNotifyDir : jsstring;
  (* join(catNotifyDir, 'notification-hook.log') or 'stop-hook.log' *)
  logFile : jsstring;
  (* join(homedir(), '.claude', 'cat-ccnotify', 'errors') *)
  errorLogDir : jsstring;
  (* join(errorLogDir, 'error.log') *)
  errorLogFile : jsstring;
  (* join(__dirname, '..', 'sounds') with the separator that follows it *)
  soundsDir : jsstring
}.

Definition hio (A : Type) : Type := list hevent → outcome A * list hevent.

#[global] Instance hio_ret : MRet hio := λ A a _, (Returns a, []).

#[global] Instance hio_bind : MBind hio := λ A B f m past,
  match m past with
  | (Returns a, l) => let r := f a (past ++ l) in (r.1, l ++ r.2)
  | (Throws e, l) => (Throws e, l)
  end.

Definition hthrow {A} (msg : jsstring) : hio A := λ _, (Throws msg, []).

(** [try { m } catch (error) { handler error.message }]. *)
Definition htry {A} (m : hio A) (handler : jsstring → hio A) : hio A :=
  λ past,
    match m past with
    | (Returns a, l) => (Returns a, l)
    | (Throws e, l) => let r := handler e (past ++ l) in (r.1, l ++ r.2)
    end.

(** A call into the library. *)
Definition lift {A} (m : io A) : hio A := λ _, (m.1, map Io m.2).

Definition toISOString (h : host) : hio jsstring :=
  λ past, (Returns (clock h past), []).

Definition existsSync (h : host) (path : jsstring) : hio bool :=
  λ past, (Returns (pathExists h past path), [FsExistsSync path]).

Definition mkdirSync (h : host) (path : jsstring) : hio unit :=
  λ past,
    (match mkdirFails h past path with
     | None => Returns tt
     | Some msg => Throws msg
     end, [FsMkdirSync path]).

Definition appendFileSync (h : host) (file text : jsstring) : hio unit :=
  λ past,
    (match appendFails h past file text with
     | None => Returns tt
     | Some msg => Throws msg
     end, [FsAppendFileSync file text]).

(** [console.log(text)]. *)
Definition consoleLog (text : jsstring) : hio unit :=
  λ _, (Returns tt, [ConsoleLog text]).

(** [console.error(text)]. *)
Definition consoleError (text : jsstring) : hio unit :=
  λ _, (Returns tt, [ConsoleError text]).

Definition execFileAsync (h : host) (file : jsstring) (args : list jsstring)
  : hio jsstring :=
  λ past,
    (match execFileResult h past file args with
     | ExecOk out => Returns out
     | ExecError msg => Throws msg
     end, [ExecFile file args]).

End HookEffects.

(** ** lib/error-handler.js *)

Module ErrorHandler.

Import HookEffects.

(** An error object, as far as the handler reads it: [originalError] is the
    message of the error a [NotificationError] wraps. *)
Record errorObject := {
  errName : jsstring;
  errMessage : jsstring;
  errCode : option jsstring;
  errOriginalError : option jsstring
}.

Definition INVALID_INPUT : jsstring := js "INVALID_INPUT".
Definition NOTIFICATION_FAILED : jsstring := js "NOTIFICATION_FAILED".
Definition AUDIO_PLAYBACK_FAILED : jsstring := js "AUDIO_PLAYBACK_FAILED".
Definition FILE_NOT_FOUND : jsstring := js "FILE_NOT_FOUND".
Definition PERMISSION_DENIED : jsstring := js "PERMISSION_DENIED".
Definition TIMEOUT : jsstring := js "TIMEOUT".
Definition SYSTEM_ERROR : jsstring := js "SYSTEM_ERROR".
Definition JSON_PARSE_ERROR : jsstring := js "JSON_PARSE_ERROR".

(** [new NotificationError(message, code, originalError)]. *)
Definition NotificationError (message code : jsstring)
  (originalError : option jsstring) : errorObject :=
  {| errName := js "NotificationError";
     errMessage := message;
     errCode := Some code;
     errOriginalError := originalError |}.

(** The options of [handleError]. *)
Record handleOptions := {
  operation : jsstring;
  fallbackAction : option (errorObject → hio unit);
  shouldLog : bool;
  shouldNotifyUser : bool
}.

(** What [handleError] returns. *)
Record handling := {
  handled : bool;
  userMessage : jsstring;
  recovery : option jsstring;
  originalError : errorObject
}.

Section Host.

Variable h : host.

Definition logError (error : errorObject) (context : jsstring)
  : hio unit :=
  htry
    (found ← existsSync h (errorLogDir h);
     _ ← (if found : bool then mret tt else mkdirSync h (errorLogDir h));
     timestamp ← toISOString h;
     let errorEntry :=
       {| entryTimestamp := timestamp;
          entryName := if truthy (errName error) then errName error
                       else js "UnknownError";
          entryMessage := errMessage error;
          entryCode := if truthyOpt (errCode error)
                       then default [] (errCode error)
                       else js "UNKNOWN";
          entryOperation := context;
          entryOriginalError := errOriginalError error |} in
     let logLine := jsonStringify h errorEntry ++ [0x0A] in
     appendFileSync h (errorLogFile h) logLine)
    (λ msg, consoleError (js "Failed to write to error log: " ++ msg)).

(** The message and the recovery chosen for an error code. *)
Definition respond (code : option jsstring) : jsstring * option jsstring :=
  if bool_decide (code = Some FILE_NOT_FOUND) then
    (js "Required file not found. Please reinstall cat-ccnotify-hook.",
     Some (js "reinstall"))
  else if bool_decide (code = Some PERMISSION_DENIED) then
    (js "Permission denied. Please check your system permissions.",
     Some (js "check-permissions"))
  else if bool_decide (code = Some AUDIO_PLAYBACK_FAILED) then
    (js "Audio playback failed. Notification displayed without sound.",
     Some (js "continue-silent"))
  else if bool_decide (code = Some NOTIFICATION_FAILED) then
    (js "Failed to display notification. Check console for details.",
     Some (js "console-fallback"))
  else if bool_decide (code = Some TIMEOUT) then
    (js "Operation timed out. Please try again.", Some (js "retry"))
  else (js "An unexpected error occurred", None).

Definition handleError (error : errorObject) (options : handleOptions)
  : hio handling :=
  _ ← (if shouldLog options then logError error (operation options)
       else mret tt);
  let answer := respond (errCode error) in
  _ ← match fallbackAction options with
      | Some action =>
          htry (action error)
            (λ msg, consoleError (js "Fallback action failed: " ++ msg))
      | None => mret tt
      end;
  _ ← (if shouldNotifyUser options
       then consoleError (js "[cat-ccnotify] " ++ answer.1)
       else mret tt);
  mret {| handled := true;
          userMessage := answer.1;
          recovery := answer.2;
          originalError := error |}.

End Host.

End ErrorHandler.

(** ** lib/shell-executor.js: running osascript and afplay *)

Module ShellCommands.

Import HookEffects.

(** [s.endsWith(ext)]. *)
Definition endsWith (ext s : jsstring) : bool :=
  (length ext <=? length s)%nat
  && bool_decide (drop (length s - length ext) s = ext).

Definition allowedExtensions : list jsstring :=
  [ js ".mp3"; js ".wav"; js ".m4a"; js ".aiff"; js ".aac" ].

Section Host.

Variable h : host.
Variable toLowerCase : jsstring → jsstring.

Definition executeOsascript (script : jsvalue) : hio jsstring :=
  match script with
  | JString s =>
      if truthy (trim s)
      then execFileAsync h (js "/usr/bin/osascript") [js "-e"; s]
      else hthrow (js "Invalid script provided")
  | _ => hthrow (js "Invalid script provided")
  end.

Definition executeAfplay (audioPath : jsvalue) : hio jsstring :=
  match audioPath with
  | JString s =>
      if truthy (trim s) then
        let hasValidExtension :=
          existsb (λ ext, endsWith ext (toLowerCase s)) allowedExtensions in
        if hasValidExtension
        then execFileAsync h (js "/usr/bin/afplay") [s]
        else hthrow (js "Invalid audio file type")
      else hthrow (js "Invalid audio path provided")
  | _ => hthrow (js "Invalid audio path provided")
  end.

End Host.

End ShellCommands.

(** ** lib/notification-sender.js: the AppleScript notification *)

Module NotificationSender.

Import HookEffects ShellCommands.

Record scriptMethod := {
  methodName : jsstring;
  script : jsstring
}.

Definition q : jsstring := [0x22].
Definition lf : jsstring := [0x0A].

(** [display notification "${message}" with title "${title}" subtitle
    "${subtitle}"]. *)
Definition displayWithSubtitle (title message subtitle : jsstring)
  : jsstring :=
  js "display notification " ++ q ++ message ++ q ++ js " with title "
  ++ q ++ title ++ q ++ js " subtitle " ++ q ++ subtitle ++ q.

(** [display notification "${message}" with title "${title}"]. *)
Definition display (title message : jsstring) : jsstring :=
  js "display notification " ++ q ++ message ++ q ++ js " with title "
  ++ q ++ title ++ q.

Definition methods (title message subtitle : jsstring)
  : list scriptMethod :=
  [ {| methodName := js "Finder";
       script :=
         lf ++ js "tell application " ++ q ++ js "Finder" ++ q ++ lf
         ++ js "  " ++ displayWithSubtitle title message subtitle ++ lf
         ++ js "end tell" |};
    {| methodName := js "Terminal-Safe";
       script :=
         lf ++ js "tell application " ++ q ++ js "Terminal" ++ q ++ lf
         ++ js "  set currentTab to do script " ++ q
         ++ js "echo 'Cat notification sent'" ++ q ++ lf
         ++ js "  " ++ displayWithSubtitle title message subtitle ++ lf
         ++ js "  close currentTab" ++ lf
         ++ js "end tell" |};
    {| methodName := js "System-Preferences";
       script :=
         lf ++ js "tell application " ++ q ++ js "System Preferences" ++ q
         ++ lf
         ++ js "  " ++ displayWithSubtitle title message subtitle ++ lf
         ++ js "end tell" |};
    {| methodName := js "Bundle-ID";
       script :=
         lf ++ js "tell application " ++ q ++ js "System Events" ++ q ++ lf
         ++ js "  tell (first application process whose bundle identifier is "
         ++ q ++ js "com.apple.finder" ++ q ++ js ")" ++ lf
         ++ js "    " ++ displayWithSubtitle title message subtitle ++ lf
         ++ js "  end tell" ++ lf
         ++ js "end tell" |};
    {| methodName := js "Notification-Center";
       script :=
         lf ++ js "tell application " ++ q ++ js "System Events" ++ q ++ lf
         ++ js "  tell application process " ++ q
         ++ js "NotificationCenter" ++ q ++ lf
         ++ js "    " ++ displayWithSubtitle title message subtitle ++ lf
         ++ js "  end tell" ++ lf
         ++ js "end tell" |};
    {| methodName := js "Sound-Workaround";
       script :=
         display title message ++ js " sound name " ++ q ++ js "Glass" ++ q |};
    {| methodName := js "Basic-Fallback";
       script := display title message |} ].

Definition checkMark : jsstring := [0x2705].
Definition crossMark : jsstring := [0x274C].

Section Host.

Variable h : host.

(** The loop over the methods: [true] is the [return true] of its body. *)
Fixpoint tryMethods (rest : list scriptMethod) : hio bool :=
  match rest with
  | [] =>
      _ ← consoleLog (crossMark ++ js " All notification methods failed");
      mret false
  | method :: rest' =>
      sent ←
        htry
          (_ ← executeOsascript h (JString (script method));
           _ ← consoleLog
                 (checkMark ++ js " Notification sent successfully using "
                  ++ methodName method ++ js " method");
           mret true)
          (λ msg,
             _ ← consoleLog
                   (crossMark ++ js " " ++ methodName method
                    ++ js " method failed: " ++ msg);
             mret false);
      if sent : bool then mret true else tryMethods rest'
  end.

Definition sendNotificationSafely (title message subtitle : jsstring)
  : hio bool :=
  tryMethods (methods title message subtitle).

Definition sendSimpleNotification (title message : jsstring) : hio bool :=
  htry
    (let script :=
       lf ++ js "tell application " ++ q ++ js "Finder" ++ q ++ lf
       ++ js "  " ++ display title message ++ lf
       ++ js "end tell" in
     _ ← executeOsascript h (JString script);
     _ ← consoleLog (checkMark ++ js " Simple notification sent via Finder");
     mret true)
    (λ msg,
       _ ← consoleLog (crossMark ++ js " Simple notification failed: " ++ msg);
       mret false).

End Host.

End NotificationSender.

(** ** hooks/notification-hook.js: delivery *)

Module NotificationDelivery.

Import HookEffects ErrorHandler ShellCommands ShellExecutor.
Import EnvironmentDetector (method, MAlerter, MTerminalNotifier, MOsascript,
  MNotifySend, MPowershell, MConsole).
Import AdaptiveNotifier.

(** The [method] field of a result, as a string. *)
Definition nameOfMethod (m : method) : jsstring :=
  match m with
  | MAlerter => js "alerter"
  | MTerminalNotifier => js "terminal-notifier"
  | MOsascript => js "osascript"
  | MNotifySend => js "notify-send"
  | MPowershell => js "powershell"
  | MConsole => js "console"
  end.

Section Host.

Variable h : host.
Variable toLowerCase : jsstring → jsstring.
(** The singleton the hook imports from lib/adaptive-notifier.js. *)
Variable adaptiveNotifier : notifier.

Definition debugLog (message : jsstring) : hio unit :=
  if negb (isDebugMode h) then mret tt
  else
    timestamp ← toISOString h;
    let logEntry := js "[" ++ timestamp ++ js "] " ++ message ++ [0x0A] in
    htry
      (found ← existsSync h (catNotifyDir h);
       _ ← (if found : bool then mret tt else mkdirSync h (catNotifyDir h));
       appendFileSync h (logFile h) logEntry)
      (λ msg, consoleError (js "Notification hook logging failed: " ++ msg)).

Definition customSoundPath : jsstring :=
  soundsDir h ++ js "cat-meow-1-fx-323465.mp3".

(** [sendEnhancedNotification(title, message, sound)]; the two escaped
    strings it computes and never uses are left out. *)
Definition sendEnhancedNotification (title message sound : jsstring)
  : hio unit :=
  htry
    (let safeTitle := sanitizeNotificationContent (JString title) in
     let safeMessage := sanitizeNotificationContent (JString message) in
     if negb (truthy safeTitle) && negb (truthy safeMessage) then
       debugLog (js "Empty notification content after sanitization")
     else
       returned ←
         htry
           (_ ← debugLog (js "Using adaptive notification system");
            result ←
              lift (sendNotification adaptiveNotifier safeTitle safeMessage);
            _ ← (if success result then
                   _ ← debugLog (js "Notification sent successfully using "
                                 ++ nameOfMethod (via result));
                   if truthyOpt (warning result)
                   then debugLog (js "Warning: "
                                  ++ default [] (warning result))
                   else mret tt
                 else
                   _ ← debugLog
                         (js "Adaptive notification failed, using console fallback");
                   consoleLog (js "[Notification] " ++ safeTitle ++ js ": "
                               ++ safeMessage));
            mret true)
           (λ msg,
              let error :=
                NotificationError (js "Failed to display notification")
                  NOTIFICATION_FAILED (Some msg) in
              _ ← handleError h error
                    {| operation := js "display-notification";
                       fallbackAction :=
                         Some (λ _, consoleLog
                                      (js "[Notification] " ++ safeTitle
                                       ++ js ": " ++ safeMessage));
                       shouldLog := true;
                       shouldNotifyUser := true |};
              _ ← debugLog (js "Notification display error: " ++ msg);
              mret false);
       if returned : bool then mret tt
       else
         _ ← htry
               (found ← existsSync h customSoundPath;
                if found : bool then
                  _ ← executeAfplay h toLowerCase (JString customSoundPath);
                  debugLog (js "Custom sound played")
                else
                  let error :=
                    NotificationError
                      (js "Sound file not found: " ++ customSoundPath)
                      FILE_NOT_FOUND None in
                  _ ← handleError h error
                        {| operation := js "play-sound";
                           fallbackAction := None;
                           shouldLog := true;
                           shouldNotifyUser := false |};
                  debugLog (js "Sound file not found: " ++ customSoundPath))
               (λ msg,
                  let error :=
                    NotificationError
                      (js "Failed to play notification sound")
                      AUDIO_PLAYBACK_FAILED (Some msg) in
                  _ ← handleError h error
                        {| operation := js "play-sound";
                           fallbackAction := None;
                           shouldLog := true;
                           shouldNotifyUser := false |};
                  debugLog (js "Failed to play custom sound: " ++ msg));
         debugLog (js "Notification sent: " ++ safeTitle ++ js " - "
                   ++ safeMessage))
    (λ msg,
       let notifError :=
         NotificationError (js "Unexpected error in notification")
           SYSTEM_ERROR (Some msg) in
       _ ← handleError h notifError
             {| operation := js "send-notification";
                fallbackAction :=
                  Some (λ _, consoleLog (js "[Fallback] " ++ title ++ js ": "
                                         ++ message));
                shouldLog := true;
                shouldNotifyUser := true |};
       debugLog (js "Notification error: " ++ msg)).

End Host.

End NotificationDelivery.

(** ** hooks/stop-hook.cjs: delivery *)

Module StopHook.

Import HookEffects ErrorHandler ShellCommands ShellExecutor.
Import AppleScriptEscape.
Import EnvironmentDetector (process).
Import AdaptiveNotifier.
Import StopHookDetector.
Import NotificationDelivery (nameOfMethod).

(** The prefix of the message of a stop notification. *)
Definition sessionEnded : jsstring :=
  [0x30BB; 0x30C3; 0x30B7; 0x30E7; 0x30F3; 0x7D42; 0x4E86] ++ js ": ".

Definition quote : jsstring := [0x22].

(** The script sent through the parent application. *)
Definition parentScript (id escapedTitle escapedMessage : jsstring)
  : jsstring :=
  js "tell application id " ++ quote ++ id ++ quote ++ [0x0A]
  ++ js "        display notification " ++ quote ++ escapedMessage ++ quote
  ++ js " with title " ++ quote ++ escapedTitle ++ quote ++ [0x0A]
  ++ js "      end tell".

(** The script of the plain notification. *)
Definition plainScript (escapedTitle escapedMessage : jsstring) : jsstring :=
  js "display notification " ++ quote ++ escapedMessage ++ quote
  ++ js " with title " ++ quote ++ escapedTitle ++ quote.

Section Host.

Variable h : host.
Variable o : os.
Variable p : process.
Variable toLowerCase : jsstring → jsstring.
(** What the dynamic import of lib/adaptive-notifier.js gives: the
    notifier, or the message of the error it raised. *)
Variable imported : notifier + jsstring.

Definition debugLog (message : jsstring) : hio unit :=
  if negb (isDebugMode h) then mret tt
  else
    timestamp ← toISOString h;
    let logEntry :=
      js "[" ++ timestamp ++ js "] STOP HOOK: " ++ message ++ [0x0A] in
    htry
      (found ← existsSync h (catNotifyDir h);
       _ ← (if found : bool then mret tt else mkdirSync h (catNotifyDir h));
       appendFileSync h (logFile h) logEntry)
      (λ msg, consoleError (js "Stop hook logging failed: " ++ msg)).

(** The first call of [initializeAdaptiveNotifier]; it returns the value
    the variable [adaptiveNotifier] has afterwards. *)
Definition initializeAdaptiveNotifier : hio (option notifier) :=
  match imported with
  | inl notifier =>
      _ ← debugLog (js "adaptive-notifier successfully imported");
      mret (Some notifier)
  | inr msg =>
      _ ← debugLog (js "Failed to import adaptive-notifier: " ++ msg);
      mret None
  end.

Definition audioFile : jsstring :=
  soundsDir h ++ js "cat-meow-1-fx-323465.mp3".

Definition sendStopNotification (title message : jsstring) : hio unit :=
  htry
    (let safeTitle := sanitizeNotificationContent (JString title) in
     let safeMessage := sanitizeNotificationContent (JString message) in
     if negb (truthy safeTitle) && negb (truthy safeMessage) then
       debugLog (js "Empty notification content after sanitization")
     else
       let finalTitle := catFace ++ js " " ++ safeTitle in
       let finalMessage := sessionEnded ++ safeMessage in
       adaptiveNotifier ← initializeAdaptiveNotifier;
       returned ←
         match adaptiveNotifier with
         | Some notifier =>
             htry
               (_ ← debugLog
                      (js "Using adaptive-notifier for stop notification");
                result ←
                  lift (sendNotification notifier finalTitle finalMessage);
                _ ← (if success result then
                       _ ← debugLog
                             (js "Stop notification sent successfully using "
                              ++ nameOfMethod (via result));
                       if truthyOpt (warning result)
                       then debugLog (js "Warning: "
                                      ++ default [] (warning result))
                       else mret tt
                     else
                       _ ← debugLog
                             (js "Adaptive notification failed, falling back to osascript");
                       hthrow (js "Adaptive notification failed"));
                mret true)
               (λ msg,
                  _ ← debugLog (js "Adaptive notification failed: " ++ msg);
                  mret false)
         | None => mret false
         end;
       if returned : bool then mret tt
       else
         _ ← debugLog
               (js "Using legacy osascript method for stop notification");
         let escapedTitle := escapeAppleScript (JString finalTitle) in
         let escapedMessage := escapeAppleScript (JString finalMessage) in
         parentApp ← lift (detectParentApp o p);
         script ←
           match parentApp with
           | Some app =>
               if truthy (bundleId app) then
                 _ ← debugLog (js "Using parent app: " ++ name app
                               ++ js " (" ++ bundleId app ++ js ")");
                 mret (parentScript (bundleId app) escapedTitle
                         escapedMessage)
               else
                 _ ← debugLog
                       (js "Using fallback notification (no parent app detected)");
                 mret (plainScript escapedTitle escapedMessage)
           | None =>
               _ ← debugLog
                     (js "Using fallback notification (no parent app detected)");
               mret (plainScript escapedTitle escapedMessage)
           end;
         _ ← htry
               (_ ← executeOsascript h (JString script);
                debugLog (js "Stop notification sent: " ++ finalTitle
                          ++ js " - " ++ finalMessage))
               (λ msg,
                  let error :=
                    NotificationError
                      (js "Failed to display stop notification")
                      NOTIFICATION_FAILED (Some msg) in
                  _ ← handleError h error
                        {| operation := js "display-stop-notification";
                           fallbackAction :=
                             Some (λ _, consoleLog
                                          (js "[Stop Notification] "
                                           ++ safeTitle ++ js ": "
                                           ++ safeMessage));
                           shouldLog := true;
                           shouldNotifyUser := true |};
                  debugLog (js "Failed to display notification: " ++ msg));
         match adaptiveNotifier with
         | Some _ => mret tt
         | None =>
             htry
               (found ← existsSync h audioFile;
                if found : bool then
                  _ ← executeAfplay h toLowerCase (JString audioFile);
                  debugLog (js "Cat sound played: " ++ audioFile)
                else
                  let error :=
                    NotificationError
                      (js "Sound file not found: " ++ audioFile)
                      FILE_NOT_FOUND None in
                  _ ← handleError h error
                        {| operation := js "play-stop-sound";
                           fallbackAction := None;
                           shouldLog := true;
                           shouldNotifyUser := false |};
                  debugLog (js "Sound file not found: " ++ audioFile))
               (λ msg,
                  let error :=
                    NotificationError
                      (js "Failed to play stop notification sound")
                      AUDIO_PLAYBACK_FAILED (Some msg) in
                  _ ← handleError h error
                        {| operation := js "play-stop-sound";
                           fallbackAction := None;
                           shouldLog := true;
                           shouldNotifyUser := false |};
                  debugLog (js "Failed to play cat sound: " ++ msg))
         end)
    (λ msg,
       let notifError :=
         NotificationError (js "Unexpected error in stop notification")
           SYSTEM_ERROR (Some msg) in
       _ ← handleError h notifError
             {| operation := js "send-stop-notification";
                fallbackAction :=
                  Some (λ _, consoleLog (js "[Stop Fallback] " ++ title
                                         ++ js ": " ++ message));
                shouldLog := true;
                shouldNotifyUser := true |};
       debugLog (js "Stop notification error: " ++ msg)).

End Host.

End StopHook.

(** * Properties *)

(** ** Sanitization (shell-executor.js) *)

Section Sanitize.

Import ShellExecutor.

Lemma stripControl_length (s : jsstring) :
  (length (stripControl s) ≤ length s)%nat.
Proof.
  unfold stripControl. induction s as [|c s IH]; simpl; [lia|].
  destruct (negb (isControlUnit c)); simpl; lia.
Qed.

Lemma stripControl_clean (s : jsstring) :
  Forall (λ c, isControlUnit c = false) (stripControl s).
Proof.
  unfold stripControl. induction s as [|c s IH]; simpl; [constructor|].
  destruct (isControlUnit c) eqn:E; simpl; [assumption|].
  constructor; assumption.
Qed.

Lemma stripControl_fixed (s : jsstring) :
  Forall (λ c, isControlUnit c = false) s → stripControl s = s.
Proof.
  unfold stripControl. induction 1 as [|c s Hc _ IH]; simpl; [reflexivity|].
  rewrite Hc. simpl. by rewrite IH.
Qed.

Lemma truncated_clean (s : jsstring) :
  Forall (λ c, isControlUnit c = false) s →
  Forall (λ c, isControlUnit c = false)
    (substring0 maxLength s ++ js "...").
Proof.
  intros H. apply Forall_app. split.
  - unfold substring0. by apply Forall_take.
  - repeat constructor.
Qed.

Lemma truncated_length (s : jsstring) :
  (maxLength < length s)%nat →
  length (substring0 maxLength s ++ js "...") = (maxLength + 3)%nat.
Proof.
  intros H. unfold substring0.
  rewrite length_app, length_take. simpl length. lia.
Qed.

Lemma truncated_again (s : jsstring) :
  (maxLength < length s)%nat →
  substring0 maxLength (substring0 maxLength s ++ js "...")
  = substring0 maxLength s.
Proof.
  intros H. unfold substring0.
  rewrite take_app_le by (rewrite length_take; lia).
  rewrite take_take. f_equal.
Qed.

(** C4. Sanitization is idempotent: sanitizing the result of a
    sanitization changes nothing, whatever value was sanitized first. *)
Theorem sanitize_idempotent (x : jsvalue) :
  sanitizeNotificationContent (JString (sanitizeNotificationContent x))
  = sanitizeNotificationContent x.
Proof.
  destruct x as [s| | | |]; try reflexivity.
  unfold sanitizeNotificationContent.
  pose proof (stripControl_clean s) as Hclean.
  destruct (maxLength <? length (stripControl s))%nat eqn:Hlong.
  - apply Nat.ltb_lt in Hlong.
    rewrite (stripControl_fixed _ (truncated_clean _ Hclean)).
    rewrite truncated_length by exact Hlong.
    replace (maxLength <? maxLength + 3)%nat with true
      by (symmetry; apply Nat.ltb_lt; lia).
    by rewrite truncated_again.
  - rewrite (stripControl_fixed _ Hclean). by rewrite Hlong.
Qed.

(** The input on which sanitization lengthens: 1001 letters. *)
Definition justOverTheBound : jsstring := replicate 1001 0x61.

(** C3, as stated, fails: a string of 1001 letters comes back 1003 code
    units long (1000 letters and the three dots of the marker). *)
Lemma sanitize_lengthens_1001 :
  ¬ (length (sanitizeNotificationContent (JString justOverTheBound))
     ≤ length justOverTheBound)%nat.
Proof.
  intros H. apply Nat.leb_le in H. vm_compute in H. discriminate H.
Qed.

(** C3, amended. The sanitized string is no longer than the input, except
    for an input of 1001 or 1002 code units, where it can be the 1000 first
    code units that remain after stripping followed by the three-character
    marker, 1003 code units in all. *)
Theorem sanitize_length (x : jsstring) :
  let r := sanitizeNotificationContent (JString x) in
  (length r ≤ length x)%nat
  ∨ (length r = 1003%nat ∧ (1001 ≤ length x ≤ 1002)%nat).
Proof.
  cbv zeta. unfold sanitizeNotificationContent.
  pose proof (stripControl_length x) as Hlen.
  destruct (maxLength <? length (stripControl x))%nat eqn:Hlong.
  - apply Nat.ltb_lt in Hlong. rewrite truncated_length by exact Hlong.
    unfold maxLength in *. lia.
  - left. exact Hlen.
Qed.

End Sanitize.

(** ** The effect monad *)

Section Monad.

Context {A B : Type}.

Lemma result_bind (m : io A) (f : A → io B) :
  result (m ≫= f)
  = match result m with
    | Returns a => result (f a)
    | Throws e => Throws e
    end.
Proof. destruct m as [[a|e] l]; reflexivity. Qed.

Lemma trace_bind (m : io A) (f : A → io B) :
  trace (m ≫= f)
  = match result m with
    | Returns a => trace m ++ trace (f a)
    | Throws e => trace m
    end.
Proof. destruct m as [[a|e] l]; reflexivity. Qed.

Lemma result_tryCatch (m : io A) (h : jsstring → io A) :
  result (tryCatch m h)
  = match result m with
    | Returns a => Returns a
    | Throws e => result (h e)
    end.
Proof. destruct m as [[a|e] l]; reflexivity. Qed.

Lemma trace_tryCatch (m : io A) (h : jsstring → io A) :
  trace (tryCatch m h)
  = match result m with
    | Returns a => trace m
    | Throws e => trace m ++ trace (h e)
    end.
Proof. destruct m as [[a|e] l]; reflexivity. Qed.

Lemma io_eta (m : io A) : m = (result m, trace m).
Proof. by destruct m. Qed.

End Monad.

(** ** Selecting the delivery method (environment-detector.js) *)

Section Selection.

Import EnvironmentDetector.

(** A variable is set when the environment holds a value for it that the
    program's tests see: [process.env.X] is truthy, that is, present and not
    the empty string. *)
Definition isSet (p : process) (k : string) : Prop :=
  ∃ v, env p !! k = Some v ∧ v ≠ [].

Lemma truthyOpt_isSet (p : process) (k : string) :
  truthyOpt (env p !! k) = true ↔ isSet p k.
Proof.
  unfold isSet. destruct (env p !! k) as [[|c v]|]; simpl; split.
  - discriminate.
  - intros (v & [= <-] & Hne). by destruct Hne.
  - intros _. eexists; split; [reflexivity | discriminate].
  - reflexivity.
  - discriminate.
  - intros (v & [=] & _).
Qed.

Lemma truthyOpt_not_isSet (p : process) (k : string) :
  truthyOpt (env p !! k) = false ↔ ¬ isSet p k.
Proof.
  rewrite <- truthyOpt_isSet. destruct (truthyOpt (env p !! k)); split;
    congruence.
Qed.

Lemma getenv_run (p : process) (k : string) :
  getenv p k = (Returns (env p !! k), [ReadEnv k]).
Proof. reflexivity. Qed.

Lemma isSSHConnection_headless (p : process) :
  isSet p "SSH_CONNECTION" → ¬ isSet p "DISPLAY" →
  isSSHConnection p
  = (Returns true, [ReadEnv "SSH_CONNECTION"; ReadEnv "DISPLAY"]).
Proof.
  intros Hc%truthyOpt_isSet Hd%truthyOpt_not_isSet.
  unfold isSSHConnection, getenv. cbn. rewrite Hc. cbn. rewrite Hd.
  reflexivity.
Qed.

(** A headless SSH session, as the detector's own test builds it. *)
Definition sshProcess : process :=
  {| env := {[ "SSH_CONNECTION"%string :=
                 js "192.168.1.100 54321 192.168.1.1 22" ]};
     stdoutIsTTY := Some true;
     stdinIsTTY := Some true;
     osPlatform := Darwin;
     ppid := 4242 |}.

Definition allTools : capabilities :=
  {| hasOsascript := true; hasTerminalNotifier := true; hasAlerter := true;
     hasNotifySend := true; hasAfplay := true; hasSay := true;
     hasEspeak := true |}.

(** C5. When SSH_CONNECTION is set and DISPLAY is not, [isSSHConnection]
    answers true and the method selected is the console, whatever tools are
    available (and whatever the platform and the terminal flags are). *)
Theorem ssh_without_display_selects_console
  (p : process) (caps : capabilities) :
  isSet p "SSH_CONNECTION" → ¬ isSet p "DISPLAY" →
  result (isSSHConnection p) = Returns true
  ∧ result (getBestNotificationMethod p caps) = Returns MConsole.
Proof.
  intros Hc Hd. pose proof (isSSHConnection_headless p Hc Hd) as Hssh.
  split; [by rewrite Hssh|].
  unfold getBestNotificationMethod.
  rewrite result_bind, getenv_run. cbv beta iota zeta delta [result fst].
  destruct (bool_decide _); [reflexivity|].
  unfold shouldForceConsole. rewrite Hssh. reflexivity.
Qed.

Lemma ssh_without_display_selects_console_witness :
  isSet sshProcess "SSH_CONNECTION" ∧ ¬ isSet sshProcess "DISPLAY"
  ∧ result (isSSHConnection sshProcess) = Returns true
  ∧ result (getBestNotificationMethod sshProcess allTools) = Returns MConsole.
Proof.
  assert (H1 : isSet sshProcess "SSH_CONNECTION").
  { eexists. split; [vm_compute; reflexivity | discriminate]. }
  assert (H2 : ¬ isSet sshProcess "DISPLAY").
  { intros (v & H & _). vm_compute in H. discriminate H. }
  split; [exact H1|]. split; [exact H2|].
  exact (ssh_without_display_selects_console sshProcess allTools H1 H2).
Defined.

(** The override flag set, in a session that every other heuristic would
    also send somewhere: SSH, CI, a pipe, and every tool installed. *)
Definition forcedProcess : process :=
  {| env := {[ "CAT_CCNOTIFY_FORCE_CONSOLE"%string := js "true";
               "SSH_CLIENT"%string := js "192.168.1.100 54321 22";
               "CI"%string := js "true" ]};
     stdoutIsTTY := Some false;
     stdinIsTTY := None;
     osPlatform := Darwin;
     ppid := 4242 |}.

(** C6. When CAT_CCNOTIFY_FORCE_CONSOLE is 'true', [getBestNotificationMethod]
    returns the console method, and the override variable is the only thing
    it has read: no SSH, CI or terminal test, no capability and no platform
    was consulted. *)
Theorem force_console_short_circuits (p : process) (caps : capabilities) :
  env p !! "CAT_CCNOTIFY_FORCE_CONSOLE" = Some (js "true") →
  getBestNotificationMethod p caps
  = (Returns MConsole, [ReadEnv "CAT_CCNOTIFY_FORCE_CONSOLE"]).
Proof.
  intros H. unfold getBestNotificationMethod. rewrite getenv_run, H.
  reflexivity.
Qed.

Lemma force_console_short_circuits_witness :
  env forcedProcess !! "CAT_CCNOTIFY_FORCE_CONSOLE" = Some (js "true")
  ∧ getBestNotificationMethod forcedProcess allTools
    = (Returns MConsole, [ReadEnv "CAT_CCNOTIFY_FORCE_CONSOLE"]).
Proof.
  assert (H : env forcedProcess !! "CAT_CCNOTIFY_FORCE_CONSOLE"
              = Some (js "true")) by (vm_compute; reflexivity).
  split; [exact H|].
  exact (force_console_short_circuits forcedProcess allTools H).
Defined.

(** The hook started with its input piped in and its output on a terminal. *)
Definition pipedInput : process :=
  {| env := ∅;
     stdoutIsTTY := Some true;
     stdinIsTTY := Some false;
     osPlatform := Darwin;
     ppid := 4242 |}.

(** C7, as stated, fails: with standard output on a terminal and standard
    input explicitly not one, the heuristic answers true. *)
Lemma isNonTTY_not_only_stdout :
  ¬ (result (isNonTTYEnvironment pipedInput) = Returns true
     ↔ stdoutIsTTY pipedInput = Some false).
Proof.
  intros [H _]. specialize (H eq_refl). discriminate H.
Qed.

(** C7, amended. [isNonTTYEnvironment] always returns, and it returns true
    exactly when the [isTTY] flag of standard output or of standard input is
    explicitly false; an undefined flag on either stream does not count. *)
Theorem isNonTTY_explicit_false (p : process) :
  ∃ b, result (isNonTTYEnvironment p) = Returns b
       ∧ (b = true
          ↔ stdoutIsTTY p = Some false ∨ stdinIsTTY p = Some false).
Proof.
  unfold isNonTTYEnvironment, readStdoutIsTTY, readStdinIsTTY.
  destruct (stdoutIsTTY p) as [[|]|], (stdinIsTTY p) as [[|]|];
    cbn; eexists; (split; [reflexivity|]); split; intros H;
    try reflexivity; try discriminate H; auto;
    destruct H as [H|H]; discriminate H.
Qed.

End Selection.

(** ** Classifying the content (notification-hook.js) *)

Section Classifier.

Import NotificationHook.

(** The classifier as the specification first describes it: the first
    category of the ordered list one of whose patterns matches, and [Info]
    when none does; no secondary override. *)
Fixpoint plainFirstMatch (entries : list (category * list jsstring))
  (content : jsstring) : category :=
  match entries with
  | [] => Info
  | (c, pats) :: rest =>
      if some pats content then c else plainFirstMatch rest content
  end.

(** Lower-casing of the ASCII letters, the part of [toLowerCase] that does
    not depend on the Unicode tables. *)
Definition lowerAsciiUnit (c : N) : N :=
  if (0x41 <=? c) && (c <=? 0x5A) then c + 0x20 else c.

Definition asciiToLowerCase (s : jsstring) : jsstring :=
  map lowerAsciiUnit s.

(** What is known of the runtime's [toLowerCase]: on a string of ASCII
    characters it lower-cases the letters and leaves the rest alone. *)
Definition lowersAscii (toLowerCase : jsstring → jsstring) : Prop :=
  ∀ s, Forall (λ c, c < 0x80) s → toLowerCase s = asciiToLowerCase s.

Ltac ascii_string := vm_compute; repeat constructor.

(** C2. The four scenarios: build and tests reported complete are [Success],
    a failed push is [Error], and a text without any keyword is [Info]. *)
Theorem classification_scenarios (toLowerCase : jsstring → jsstring) :
  lowersAscii toLowerCase →
  analyzeNotificationContent toLowerCase
    (js "Build Complete") (js "Compilation successful") = Success
  ∧ analyzeNotificationContent toLowerCase
      (js "Tests Passed") (js "All 25 tests completed successfully!")
    = Success
  ∧ analyzeNotificationContent toLowerCase
      (js "Git Push Failed") (js "Permission denied to repository") = Error
  ∧ analyzeNotificationContent toLowerCase (js "Hello") (js "World") = Info.
Proof.
  intros Hlower. unfold analyzeNotificationContent.
  repeat split; (rewrite Hlower by ascii_string);
    vm_compute; reflexivity.
Qed.

Lemma classification_scenarios_witness :
  lowersAscii asciiToLowerCase
  ∧ analyzeNotificationContent asciiToLowerCase
      (js "Build Complete") (js "Compilation successful") = Success
  ∧ analyzeNotificationContent asciiToLowerCase
      (js "Tests Passed") (js "All 25 tests completed successfully!")
    = Success
  ∧ analyzeNotificationContent asciiToLowerCase
      (js "Git Push Failed") (js "Permission denied to repository") = Error
  ∧ analyzeNotificationContent asciiToLowerCase (js "Hello") (js "World")
    = Info.
Proof.
  assert (H : lowersAscii asciiToLowerCase) by (intros s _; reflexivity).
  split; [exact H|].
  exact (classification_scenarios asciiToLowerCase H).
Defined.

Ltac by_first_match content :=
  cbn [classify plainFirstMatch patterns isProcessCategory];
  destruct (some errorPatterns content); [reflexivity|];
  destruct (some warningPatterns content); [reflexivity|];
  destruct (some successPatterns content); [reflexivity|];
  destruct (some progressPatterns content); [reflexivity|];
  destruct (some gitPatterns content); [reflexivity|];
  destruct (some buildPatterns content); [reflexivity|];
  destruct (some testPatterns content); [reflexivity|];
  destruct (some deployPatterns content); [reflexivity|];
  destruct (some npmPatterns content); [reflexivity|];
  destruct (some filePatterns content); reflexivity.

Lemma classify_plainFirstMatch (content : jsstring) :
  classify patterns content = plainFirstMatch patterns content.
Proof. by_first_match content. Qed.

Lemma process_category_no_override (content : jsstring) :
  isProcessCategory (plainFirstMatch patterns content)
  && (some errorPatterns content || some successPatterns content) = false.
Proof. by_first_match content. Qed.

(** A process category is reached by texts that carry no error and no
    success keyword. *)
Example pull_is_git :
  analyzeNotificationContent asciiToLowerCase (js "Git") (js "Pull origin")
  = Git.
Proof. vm_compute. reflexivity. Qed.

(** C10. The secondary override is unreachable: when the first matching
    category is a process category, no error pattern and no success pattern
    matches the content, and the classifier returns what the plain
    first-match classifier returns, on every title and message. *)
Theorem override_unreachable
  (toLowerCase : jsstring → jsstring) (title message : jsstring) :
  let content := toLowerCase (title ++ js " " ++ message) in
  analyzeNotificationContent toLowerCase title message
  = plainFirstMatch patterns content
  ∧ (isProcessCategory (plainFirstMatch patterns content) = true →
     some errorPatterns content = false
     ∧ some successPatterns content = false).
Proof.
  intros content. split.
  - apply classify_plainFirstMatch.
  - intros Hproc. pose proof (process_category_no_override content) as H.
    rewrite Hproc in H. simpl in H. by apply orb_false_elim in H.
Qed.

(** ** Styling the payload (notification-hook.js) *)





(** A title that starts with the cross mark the hook uses for errors. *)
Definition crossTitle : jsstring := [0x274C] ++ js " Failed".

Lemma getNotificationContext_falsy
  (toLowerCase : jsstring → jsstring) (title message : jsstring) :
  truthyOpt (getNotificationContext toLowerCase title message) = false.
Proof.
  unfold getNotificationContext. cbv zeta.
  repeat match goal with
         | |- context [if ?b then _ else _] => destruct b
         end; reflexivity.
Qed.

Lemma styled_title
  (toLowerCase : jsstring → jsstring) (t m : jsstring) (c : category) :
  title (enhanceNotificationStyle toLowerCase t m c)
  = if hasEmojiRangeChar t then t else emojiMap c ++ js " " ++ t.
Proof.
  unfold enhanceNotificationStyle. cbn [title].
  destruct (hasEmojiRangeChar t), c; reflexivity.
Qed.

Lemma styled_message
  (toLowerCase : jsstring → jsstring) (t m : jsstring) (c : category) :
  message (enhanceNotificationStyle toLowerCase t m c)
  = if (200 <? length m)%nat then substring0 197 m ++ js "..." else m.
Proof.
  unfold enhanceNotificationStyle. cbn [message].
  by rewrite getNotificationContext_falsy.
Qed.


(** The same step on a title that starts with a glyph outside the range:
    the error glyph is prepended to a title that already has it. *)
Lemma styled_title_doubles_cross_mark :
  title (styleNotification asciiToLowerCase crossTitle (js "x"))
  = [0x274C] ++ js " " ++ [0x274C] ++ js " Failed".
Proof. vm_compute. reflexivity. Qed.




End Classifier.

(** ** Walking the process ancestry *)

Section Ancestry.

Definition isExecPs (e : event) : bool :=
  match e with ExecPs _ => true | _ => false end.

(** The number of ancestor processes a run looked up. *)
Definition psCalls (l : list event) : nat := length (List.filter isExecPs l).

Lemma psCalls_app (l1 l2 : list event) :
  psCalls (l1 ++ l2) = (psCalls l1 + psCalls l2)%nat.
Proof. unfold psCalls. by rewrite List.filter_app, length_app. Qed.

Lemma runExec_ok (e : event) (out : jsstring) :
  runExec e (ExecOk out) = (Returns out, [e]).
Proof. reflexivity. Qed.

Lemma runExec_error (e : event) (msg : jsstring) :
  runExec e (ExecError msg) = (Throws msg, [e]).
Proof. reflexivity. Qed.

(** *** environment-detector.js *)

Import EnvironmentDetector.

Lemma identifyTerminalApp_silent (info : processInfo) :
  trace (identifyTerminalApp info) = [].
Proof.
  unfold identifyTerminalApp.
  repeat match goal with
         | |- context [includes ?a ?b] => destruct (includes a b)
         | |- context [command info] => destruct (command info)
         end; reflexivity.
Qed.

(** What one turn of the loop does after a successful lookup. *)
Definition afterLookup (o : os) (n : nat) (output : jsstring)
  : io (option parentApp) :=
  match parsePs output with
  | None => mret None
  | Some info =>
      found ← identifyTerminalApp info;
      match found with
      | Some app => mret (Some app)
      | None => walk o n (parentPid info)
      end
  end.

Lemma walk_step (o : os) (n : nat) (cur : Z) :
  walk o (S n) (Some cur)
  = if (1 <? cur)%Z
    then runExec (ExecPs cur) (ps o cur) ≫= afterLookup o n
    else mret None.
Proof. reflexivity. Qed.

(** What holds of a run of the loop with [n] turns left: it looked up at
    most [n] processes, and a lookup that failed ended it with a throw. *)
Definition walkInvariant (o : os) (n : nat) (w : io (option parentApp))
  : Prop :=
  (psCalls (trace w) ≤ n)%nat
  ∧ ∀ pid msg, ExecPs pid ∈ trace w → ps o pid = ExecError msg →
               ∃ e, result w = Throws e.

Lemma walkInvariant_silent (o : os) (n : nat) (w : io (option parentApp)) :
  trace w = [] → walkInvariant o n w.
Proof.
  intros Hw. split; rewrite Hw; [unfold psCalls; simpl; lia|].
  intros pid msg Hin. by apply elem_of_nil in Hin.
Qed.

Lemma afterLookup_invariant (o : os) (n : nat) (output : jsstring) :
  (∀ cur, walkInvariant o n (walk o n cur)) →
  walkInvariant o n (afterLookup o n output).
Proof.
  intros IH. unfold afterLookup.
  destruct (parsePs output) as [info|];
    [|by apply walkInvariant_silent].
  pose proof (identifyTerminalApp_silent info) as Hsilent.
  destruct (identifyTerminalApp info) as [[[app|]|e] l] eqn:Hid;
    cbn in Hsilent; subst l.
  - by apply walkInvariant_silent.
  - destruct (IH (parentPid info)) as [Hn Herr].
    destruct (walk o n (parentPid info)) as [r l] eqn:Hw.
    split; [exact Hn|exact Herr].
  - by apply walkInvariant_silent.
Qed.

Lemma walk_invariant (o : os) (n : nat) (cur : jsnumber) :
  walkInvariant o n (walk o n cur).
Proof.
  revert cur. induction n as [|n IH]; intros cur.
  - apply walkInvariant_silent. by destruct cur.
  - destruct cur as [cur|]; [|by apply walkInvariant_silent].
    rewrite walk_step.
    destruct (1 <? cur)%Z; [|by apply walkInvariant_silent].
    destruct (ps o cur) as [out|msg] eqn:Hps.
    + rewrite runExec_ok.
      destruct (afterLookup_invariant o n out IH) as [Hn Herr].
      split.
      * rewrite trace_bind. cbn [result fst trace snd].
        rewrite psCalls_app. cbn [psCalls List.filter isExecPs length].
        change (psCalls (trace (afterLookup o n out)) < S n)%nat. lia.
      * intros pid msg. rewrite trace_bind, result_bind.
        cbn [result fst trace snd].
        intros [Hhd|Htl]%elem_of_app Hfail.
        -- apply list_elem_of_singleton in Hhd. injection Hhd as ->.
           congruence.
        -- exact (Herr pid msg Htl Hfail).
    + rewrite runExec_error. split; [unfold psCalls; simpl; lia|].
      intros _ _ _ _. by eexists.
Qed.

Lemma detectParentApp_result (o : os) (p : process) (d : detector) :
  result (detectParentApp o p d)
  = match result (walk o maxLevels (Some (ppid p))) with
    | Returns (Some app) => Returns app
    | _ => Returns (getFallbackApp (dTerminalInfo d))
    end.
Proof.
  unfold detectParentApp. rewrite result_bind, result_tryCatch.
  destruct (result (walk o maxLevels (Some (ppid p)))) as [[app|]|e];
    reflexivity.
Qed.

Lemma detectParentApp_trace (o : os) (p : process) (d : detector) :
  trace (detectParentApp o p d) = trace (walk o maxLevels (Some (ppid p))).
Proof.
  unfold detectParentApp. rewrite trace_bind, result_tryCatch, trace_tryCatch.
  destruct (walk o maxLevels (Some (ppid p))) as [[[app|]|e] l];
    cbn; by rewrite ?app_nil_r.
Qed.

(** The detector of the environment module never raises: it returns an
    application record after at most 15 lookups, and the fallback record
    whenever a lookup failed or the loop ended without a match. *)
Lemma detectParentApp_total (o : os) (p : process) (d : detector) :
  ∃ app,
    result (detectParentApp o p d) = Returns app
    ∧ (psCalls (trace (detectParentApp o p d)) ≤ 15)%nat
    ∧ (∀ pid msg, ExecPs pid ∈ trace (detectParentApp o p d) →
                  ps o pid = ExecError msg →
                  app = getFallbackApp (dTerminalInfo d))
    ∧ (result (walk o maxLevels (Some (ppid p))) = Returns None →
       app = getFallbackApp (dTerminalInfo d)).
Proof.
  destruct (walk_invariant o maxLevels (Some (ppid p))) as [Hn Herr].
  rewrite detectParentApp_result, detectParentApp_trace.
  destruct (result (walk o maxLevels (Some (ppid p)))) as [[app|]|e] eqn:Hw.
  - exists app. repeat split; [exact Hn| |discriminate].
    intros pid msg Hin Hfail.
    destruct (Herr pid msg Hin Hfail) as [e He]. discriminate He.
  - exists (getFallbackApp (dTerminalInfo d)). by repeat split.
  - exists (getFallbackApp (dTerminalInfo d)). by repeat split.
Qed.

End Ancestry.

(** *** simple-parent-detector.js *)

Section SimpleAncestry.

Import SimpleParentDetector.
Import EnvironmentDetector (process, ppid, processInfo, parsePs, parentPid,
  args, pid).

(** What [getBundleId] answers for a given outcome of the lookup. *)
Definition bundleIdOf (r : execResult) : option jsstring :=
  match r with
  | ExecOk out =>
      if bool_decide (trim out = js "(null)") then None else Some (trim out)
  | ExecError _ => None
  end.

Lemma getProcessInfo_run (o : os) (cur : Z) :
  getProcessInfo o cur
  = (Returns match ps o cur with
             | ExecOk out => parsePs out
             | ExecError _ => None
             end, [ExecPs cur]).
Proof. unfold getProcessInfo. destruct (ps o cur); reflexivity. Qed.

Lemma getBundleId_run (o : os) (appPath : jsstring) :
  getBundleId o appPath
  = (Returns (bundleIdOf (mdls o appPath)), [ExecMdls appPath]).
Proof.
  unfold getBundleId, bundleIdOf. destruct (mdls o appPath) as [out|msg];
    [|reflexivity].
  rewrite runExec_ok. cbn. by destruct (bool_decide _).
Qed.

(** The record [extractAppFromPath] builds around a matched path. *)
Definition appAt (appPath : jsstring) (id : option jsstring) : appInfo :=
  {| name := replaceFirst (js ".app") []
               (replaceFirst (js ".app") []
                  (default [] (last (split 0x2F appPath))));
     bundleId := id;
     path := Some appPath;
     kind := js "app";
     appPid := None |}.

Lemma extractAppFromPath_run (o : os) (a : jsstring) :
  extractAppFromPath o a
  = match matchAppPath a with
    | None => (Returns None, [])
    | Some appPath =>
        (Returns (Some (appAt appPath (bundleIdOf (mdls o appPath)))),
         [ExecMdls appPath])
    end.
Proof.
  unfold extractAppFromPath. destruct (matchAppPath a) as [appPath|];
    [|reflexivity].
  by rewrite getBundleId_run.
Qed.

(** One turn of the loop once the process has been looked up. *)
Definition afterInfo (o : os) (n : nat) (info : option processInfo)
  : io (option appInfo) :=
  match info with
  | None => mret None
  | Some i =>
      found ←
        (if includes (js ".app") (args i)
         then extractAppFromPath o (args i)
         else mret None);
      match found with
      | Some app =>
          mret (Some {| name := name app;
                        bundleId := bundleId app;
                        path := path app;
                        kind := kind app;
                        appPid := Some (pid i) |})
      | None => walk o n (parentPid i)
      end
  end.

Lemma simple_walk_step (o : os) (n : nat) (cur : Z) :
  walk o (S n) (Some cur)
  = if (1 <? cur)%Z
    then getProcessInfo o cur ≫= afterInfo o n
    else mret None.
Proof. reflexivity. Qed.

(** What holds of a run of the loop with [n] turns left: it does not throw,
    it looked up at most [n] processes, a failed process lookup ended it
    without a match, and a failed bundle lookup left the application it had
    matched with no bundle identifier. *)
Definition simpleInvariant (o : os) (n : nat) (w : io (option appInfo))
  : Prop :=
  (∃ r, result w = Returns r)
  ∧ (psCalls (trace w) ≤ n)%nat
  ∧ (∀ p msg, ExecPs p ∈ trace w → ps o p = ExecError msg →
              result w = Returns None)
  ∧ (∀ appPath msg, ExecMdls appPath ∈ trace w →
                    mdls o appPath = ExecError msg →
                    ∃ app, result w = Returns (Some app)
                           ∧ bundleId app = None
                           ∧ path app = Some appPath
                           ∧ kind app = js "app").

Lemma simpleInvariant_silent (o : os) (n : nat) (r : option appInfo) :
  simpleInvariant o n (Returns r, []).
Proof.
  repeat split; [by eexists | unfold psCalls; simpl; lia | |];
    intros ? ? Hin; by apply elem_of_nil in Hin.
Qed.

Lemma afterInfo_invariant (o : os) (n : nat) (info : option processInfo) :
  (∀ cur, simpleInvariant o n (walk o n cur)) →
  simpleInvariant o n (afterInfo o n info)
  ∧ ∀ p, ExecPs p ∈ trace (afterInfo o n info) → info ≠ None.
Proof.
  intros IH. unfold afterInfo. destruct info as [i|];
    [|split; [apply simpleInvariant_silent|]; intros ? Hin;
      by apply elem_of_nil in Hin].
  split; [|done].
  destruct (includes (js ".app") (args i)).
  - rewrite extractAppFromPath_run.
    destruct (matchAppPath (args i)) as [appPath|].
    + cbn. repeat split; [by eexists | unfold psCalls; simpl; lia | |].
      * intros p msg Hin. apply list_elem_of_singleton in Hin. discriminate.
      * intros q msg Hin Hfail. apply list_elem_of_singleton in Hin.
        injection Hin as ->. rewrite Hfail. by eexists.
    + specialize (IH (parentPid i)).
      by destruct (walk o n (parentPid i)) as [r l].
  - specialize (IH (parentPid i)).
    by destruct (walk o n (parentPid i)) as [r l].
Qed.

Lemma simple_walk_invariant (o : os) (n : nat) (cur : jsnumber) :
  simpleInvariant o n (walk o n cur).
Proof.
  revert cur. induction n as [|n IH]; intros cur.
  - destruct cur; apply simpleInvariant_silent.
  - destruct cur as [cur|]; [|apply simpleInvariant_silent].
    rewrite simple_walk_step.
    destruct (1 <? cur)%Z; [|apply simpleInvariant_silent].
    rewrite getProcessInfo_run.
    set (info := match ps o cur with
                 | ExecOk out => parsePs out
                 | ExecError _ => None
                 end).
    destruct (afterInfo_invariant o n info IH)
      as [(Hret & Hn & Hps & Hmdls) Hsome].
    unfold simpleInvariant.
    rewrite trace_bind, result_bind. cbn [result fst trace snd].
    repeat split.
    + exact Hret.
    + rewrite psCalls_app. cbn [psCalls List.filter isExecPs length].
      change (psCalls (trace (afterInfo o n info)) < S n)%nat. lia.
    + intros p msg [Hhd|Htl]%elem_of_app Hfail.
      * apply list_elem_of_singleton in Hhd. injection Hhd as ->.
        subst info. by rewrite Hfail.
      * exact (Hps p msg Htl Hfail).
    + intros q msg [Hhd|Htl]%elem_of_app Hfail.
      * apply list_elem_of_singleton in Hhd. discriminate.
      * exact (Hmdls q msg Htl Hfail).
Qed.

(** The simple detector never raises either: after at most 15 lookups it
    returns a record, which is the fallback record when a process lookup
    failed or the loop ended without a match, and the matched application
    with no bundle identifier when the bundle lookup failed. *)
Lemma simple_detectParentApp_total
  (o : os) (p : process) (cache : option appInfo) :
  ∃ app cache',
    result (detectParentApp o p cache) = Returns (app, cache')
    ∧ cache' = Some app
    ∧ (psCalls (trace (detectParentApp o p cache)) ≤ 15)%nat
    ∧ (∀ q msg, ExecPs q ∈ trace (detectParentApp o p cache) →
                ps o q = ExecError msg → app = unknownApp)
    ∧ (cache = None →
       result (walk o maxLevels (Some (ppid p))) = Returns None →
       app = unknownApp)
    ∧ (∀ appPath msg, ExecMdls appPath ∈ trace (detectParentApp o p cache) →
                      mdls o appPath = ExecError msg →
                      bundleId app = None ∧ path app = Some appPath
                      ∧ kind app = js "app").
Proof.
  unfold detectParentApp. destruct cache as [c|].
  - exists c, (Some c). split_and!; try done.
    + unfold psCalls; simpl; lia.
    + intros ? ? Hin. by apply elem_of_nil in Hin.
    + intros ? ? Hin. by apply elem_of_nil in Hin.
  - destruct (simple_walk_invariant o maxLevels (Some (ppid p)))
      as ((r & Hret) & Hn & Hps & Hmdls).
    rewrite Hret in Hps, Hmdls.
    rewrite result_bind, trace_bind, Hret.
    destruct r as [app|].
    + exists app, (Some app). cbn [result fst trace snd].
      rewrite app_nil_r. split_and!; try done.
      * intros q msg Hin Hfail. specialize (Hps q msg Hin Hfail).
        discriminate Hps.
      * intros appPath msg Hin Hfail.
        destruct (Hmdls appPath msg Hin Hfail) as (a & Ha & Hid & Hp & Hk).
        by simplify_eq.
    + exists unknownApp, (Some unknownApp). cbn [result fst trace snd].
      rewrite app_nil_r. split_and!; try done.
      intros appPath msg Hin Hfail.
      destruct (Hmdls appPath msg Hin Hfail) as (a & Ha & _).
      discriminate Ha.
Qed.

End SimpleAncestry.

(** *** Both detectors *)

Section ParentApp.

(** What [ps] prints for a shell started by iTerm2. *)
Definition itermPsOutput : jsstring :=
  js "  PID  PPID COMM             ARGS" ++ [0x0A]
  ++ js " 4242     1 /Applications/iTerm.app/Contents/MacOS/iTerm2 "
  ++ js "/Applications/iTerm.app/Contents/MacOS/iTerm2" ++ [0x0A].

(** A machine on which the parent process is iTerm2 and no other external
    command works: no metadata lookup, no notifier, no sound player. *)
Definition itermOs : os :=
  {| commandV := λ _, ExecError (js "Command failed");
     ps := λ q, if (q =? 4242)%Z then ExecOk itermPsOutput
                else ExecError (js "Command failed");
     mdls := λ _, ExecError (js "Command failed");
     execSync := λ _, ExecError (js "Command failed");
     spawnAlerter := λ _, SpawnClosed (Some 1%Z) [];
     existsSync := λ _, false |}.

Definition itermProcess : EnvironmentDetector.process :=
  {| EnvironmentDetector.env := ∅;
     EnvironmentDetector.stdoutIsTTY := Some true;
     EnvironmentDetector.stdinIsTTY := Some true;
     EnvironmentDetector.osPlatform := EnvironmentDetector.Darwin;
     EnvironmentDetector.ppid := 4242 |}.

Lemma itermOs_simple_run :
  SimpleParentDetector.detectParentApp itermOs itermProcess None
  = (let app :=
       {| SimpleParentDetector.name := js "iTerm";
          SimpleParentDetector.bundleId := None;
          SimpleParentDetector.path := Some (js "/Applications/iTerm.app");
          SimpleParentDetector.kind := js "app";
          SimpleParentDetector.appPid := Some (Some 4242%Z) |} in
     (Returns (app, Some app),
      [ExecPs 4242; ExecMdls (js "/Applications/iTerm.app")])).
Proof. vm_compute. reflexivity. Qed.

(** On that machine the detector of the environment module recognises
    iTerm2 at the first lookup. *)
Example itermOs_environment_run :
  EnvironmentDetector.detectParentApp itermOs itermProcess
    {| EnvironmentDetector.dPlatform := EnvironmentDetector.Darwin;
       EnvironmentDetector.dTerminalInfo :=
         EnvironmentDetector.detectTerminalEnvironment itermProcess;
       EnvironmentDetector.dCapabilities :=
         {| EnvironmentDetector.tools := allTools;
            EnvironmentDetector.bestNotificationMethod :=
              EnvironmentDetector.MAlerter;
            EnvironmentDetector.bestSoundMethod :=
              EnvironmentDetector.SAfplay |} |}
  = (Returns EnvironmentDetector.iTerm2App, [ExecPs 4242]).
Proof. vm_compute. reflexivity. Qed.

(** C9, as stated, fails for the bundle-identifier lookup: when that lookup
    fails, the simple detector returns the application it matched (here
    iTerm, with no bundle identifier), not the fallback record. *)
Lemma bundle_lookup_failure_is_not_fallback :
  ¬ (∀ appPath msg,
       ExecMdls appPath
       ∈ trace (SimpleParentDetector.detectParentApp
                  itermOs itermProcess None) →
       mdls itermOs appPath = ExecError msg →
       ∃ cache,
         result (SimpleParentDetector.detectParentApp
                   itermOs itermProcess None)
         = Returns (SimpleParentDetector.unknownApp, cache)).
Proof.
  intros H.
  destruct (H (js "/Applications/iTerm.app") (js "Command failed"))
    as [cache Hcache].
  - rewrite itermOs_simple_run. cbn [trace snd]. set_solver.
  - reflexivity.
  - rewrite itermOs_simple_run in Hcache. discriminate Hcache.
Qed.

(** C9, amended. Neither detector raises, whatever the operating system
    answers: each returns a record after looking up at most 15 ancestor
    processes.  The record is the detector's fallback record whenever a
    process lookup failed or the walk ended without a match.  When the
    bundle-identifier lookup fails, the simple detector returns the
    application it matched, with no bundle identifier. *)
Theorem detectParentApp_never_raises
  (o : os) (p : EnvironmentDetector.process)
  (d : EnvironmentDetector.detector)
  (cache : option SimpleParentDetector.appInfo) :
  let env_run := EnvironmentDetector.detectParentApp o p d in
  let simple_run := SimpleParentDetector.detectParentApp o p cache in
  let fallback :=
    EnvironmentDetector.getFallbackApp (EnvironmentDetector.dTerminalInfo d)
  in
  (∃ app,
     result env_run = Returns app
     ∧ (psCalls (trace env_run) ≤ 15)%nat
     ∧ (∀ q msg, ExecPs q ∈ trace env_run → ps o q = ExecError msg →
                 app = fallback)
     ∧ (result (EnvironmentDetector.walk o 15
                  (Some (EnvironmentDetector.ppid p))) = Returns None →
        app = fallback))
  ∧ (∃ app cache',
       result simple_run = Returns (app, cache')
       ∧ (psCalls (trace simple_run) ≤ 15)%nat
       ∧ (∀ q msg, ExecPs q ∈ trace simple_run → ps o q = ExecError msg →
                   app = SimpleParentDetector.unknownApp)
       ∧ (cache = None →
          result (SimpleParentDetector.walk o 15
                    (Some (EnvironmentDetector.ppid p))) = Returns None →
          app = SimpleParentDetector.unknownApp)
       ∧ (∀ appPath msg, ExecMdls appPath ∈ trace simple_run →
                         mdls o appPath = ExecError msg →
                         SimpleParentDetector.bundleId app = None
                         ∧ SimpleParentDetector.path app = Some appPath)).
Proof.
  cbv zeta. split.
  - exact (detectParentApp_total o p d).
  - destruct (simple_detectParentApp_total o p cache)
      as (app & cache' & Hret & _ & Hn & Hps & Hnone & Hmdls).
    exists app, cache'. split_and!; try done.
    intros appPath msg Hin Hfail.
    destruct (Hmdls appPath msg Hin Hfail) as (Hid & Hpath & _). done.
Qed.

End ParentApp.

(** ** Dispatching the notification (adaptive-notifier.js) *)

Section Dispatch.

Import EnvironmentDetector AdaptiveNotifier.

(** Every command run through [execSync] fails. *)
Definition commandsFail (o : os) : Prop :=
  ∀ cmd, ∃ msg, execSync o cmd = ExecError msg.

(** What [sendWithConsole] resolves to. *)
Definition consoleResult : sendResult :=
  {| success := true; via := MConsole; clicked := None; warning := None |}.

Lemma result_emit_bind {A} (e : event) (k : unit → io A) :
  result (emit e ≫= k) = result (k tt).
Proof. reflexivity. Qed.

Lemma result_runExec_bind {A} (o : os) (cmd : jsstring)
  (k : jsstring → io A) :
  result (runExec (ExecSync cmd) (execSync o cmd) ≫= k)
  = match execSync o cmd with
    | ExecOk out => result (k out)
    | ExecError msg => Throws msg
    end.
Proof. by destruct (execSync o cmd). Qed.

Lemma playSound_returns (n : notifier) : result (playSound n) = Returns tt.
Proof.
  unfold playSound. rewrite result_emit_bind.
  destruct (existsSync (nOs n) (soundPath n)); [|reflexivity].
  rewrite result_tryCatch.
  destruct (bestSoundMethod (dCapabilities (nEnv n))); try reflexivity;
    rewrite result_runExec_bind; by destruct (execSync _ _).
Qed.

Lemma focusParentApp_returns (n : notifier) (app : parentApp) :
  result (focusParentApp n app) = Returns tt.
Proof.
  unfold focusParentApp. destruct (truthyOpt (bundleId app)); [|reflexivity].
  rewrite result_tryCatch.
  destruct (platformEqb (dPlatform (nEnv n)) Darwin); [|reflexivity].
  rewrite result_runExec_bind. by destruct (execSync _ _).
Qed.

Lemma sendWithConsole_result (n : notifier) (title message : jsstring) :
  result (sendWithConsole n title message) = Returns consoleResult.
Proof.
  unfold sendWithConsole. cbv zeta. rewrite !result_emit_bind.
  by rewrite result_bind, playSound_returns.
Qed.

Lemma sendWithTerminalNotifier_fails
  (n : notifier) (title message : jsstring) (app : parentApp) :
  commandsFail (nOs n) →
  ∃ e, result (sendWithTerminalNotifier n title message app) = Throws e.
Proof.
  intros Hfail. unfold sendWithTerminalNotifier. cbv zeta.
  rewrite result_tryCatch, result_runExec_bind.
  match goal with |- context [execSync ?o ?c] =>
    destruct (Hfail c) as [msg ->] end.
  by eexists.
Qed.

Lemma sendWithOsascript_fails (n : notifier) (title message : jsstring) :
  commandsFail (nOs n) →
  ∃ e, result (sendWithOsascript n title message) = Throws e.
Proof.
  intros Hfail. unfold sendWithOsascript. cbv zeta.
  rewrite result_tryCatch, result_runExec_bind.
  match goal with |- context [execSync ?o ?c] =>
    destruct (Hfail c) as [msg ->] end.
  by eexists.
Qed.

Lemma sendWithNotifySend_fails (n : notifier) (title message : jsstring) :
  commandsFail (nOs n) →
  ∃ e, result (sendWithNotifySend n title message) = Throws e.
Proof.
  intros Hfail. unfold sendWithNotifySend. cbv zeta.
  rewrite result_tryCatch, result_runExec_bind.
  match goal with |- context [execSync ?o ?c] =>
    destruct (Hfail c) as [msg ->] end.
  by eexists.
Qed.

Lemma sendWithPowerShell_fails (n : notifier) (title message : jsstring) :
  commandsFail (nOs n) →
  ∃ e, result (sendWithPowerShell n title message) = Throws e.
Proof.
  intros Hfail. unfold sendWithPowerShell. cbv zeta.
  rewrite result_tryCatch, result_runExec_bind.
  match goal with |- context [execSync ?o ?c] =>
    destruct (Hfail c) as [msg ->] end.
  by eexists.
Qed.

(** The alerter method fails on every machine. *)
Lemma sendWithAlerter_fails
  (n : notifier) (title message : jsstring) (app : parentApp) :
  ∃ e, result (sendWithAlerter n title message app) = Throws e.
Proof. by eexists. Qed.

(** A Mac with alerter installed, on which every external command fails. *)
Definition alerterOs : os :=
  {| commandV := λ cmd, if bool_decide (cmd = js "alerter")
                        then ExecOk (js "/usr/local/bin/alerter")
                        else ExecError (js "Command failed");
     ps := λ _, ExecError (js "Command failed");
     mdls := λ _, ExecError (js "Command failed");
     execSync := λ _, ExecError (js "Command failed");
     spawnAlerter := λ _, SpawnClosed (Some 1%Z) [];
     existsSync := λ _, true |}.

Definition desktopProcess : process :=
  {| env := {[ "TERM"%string := js "xterm-256color" ]};
     stdoutIsTTY := Some true;
     stdinIsTTY := Some true;
     osPlatform := Darwin;
     ppid := 4242 |}.

Definition soundFile : jsstring :=
  js "/opt/cat-ccnotify/sounds/cat-meow-1-fx-323465.mp3".

(** The notifier the module builds on that machine. *)
Definition alerterNotifier : notifier :=
  {| nOs := alerterOs;
     nProcess := desktopProcess;
     nEnv :=
       {| dPlatform := Darwin;
          dTerminalInfo := detectTerminalEnvironment desktopProcess;
          dCapabilities :=
            {| tools :=
                 {| hasOsascript := false; hasTerminalNotifier := false;
                    hasAlerter := true; hasNotifySend := false;
                    hasAfplay := false; hasSay := false;
                    hasEspeak := false |};
               bestNotificationMethod := MAlerter;
               bestSoundMethod := SNone |} |};
     soundPath := soundFile |}.

Lemma alerterNotifier_constructed :
  result (adaptiveNotifier alerterOs desktopProcess soundFile)
  = Returns alerterNotifier.
Proof. vm_compute. reflexivity. Qed.

(** Where alerter is the selected method, the notification is delivered by
    the console method. *)
Lemma alerter_falls_back_to_console :
  result (sendNotification alerterNotifier (js "Build") (js "done"))
  = Returns consoleResult.
Proof. vm_compute. reflexivity. Qed.

(** When every command the dispatcher runs fails and the call made for
    iTerm2 ahead of the [try] block is not taken, the dispatcher resolves to
    a success delivered by the console method, whatever method was
    selected. *)
Lemma sendNotification_fallback
  (n : notifier) (title message : jsstring) :
  commandsFail (nOs n) →
  isITerm2 (dTerminalInfo (nEnv n))
  && bool_decide (bestNotificationMethod (dCapabilities (nEnv n))
                  = MOsascript) = false →
  result (sendNotification n title message) = Returns consoleResult.
Proof.
  intros Hfail Hshortcut. unfold sendNotification.
  destruct (detectParentApp_total (nOs n) (nProcess n) (nEnv n))
    as (app & Happ & _).
  rewrite result_bind, Happ. cbv zeta. rewrite Hshortcut.
  rewrite result_tryCatch.
  pose proof (sendWithConsole_result n title message) as Hconsole.
  destruct (bestNotificationMethod (dCapabilities (nEnv n)));
    [| | | | |by rewrite Hconsole].
  - by destruct (sendWithAlerter_fails n title message app) as [e ->].
  - by destruct (sendWithTerminalNotifier_fails n title message app Hfail)
      as [e ->].
  - by destruct (sendWithOsascript_fails n title message Hfail) as [e ->].
  - by destruct (sendWithNotifySend_fails n title message Hfail)
      as [e ->].
  - by destruct (sendWithPowerShell_fails n title message Hfail)
      as [e ->].
Qed.

(** The call made for iTerm2 before the [try] block is not covered by the
    fallback: when its command fails, the dispatcher itself raises. *)
Lemma iterm2_shortcut_raises
  (n : notifier) (title message : jsstring) :
  commandsFail (nOs n) →
  isITerm2 (dTerminalInfo (nEnv n)) = true →
  bestNotificationMethod (dCapabilities (nEnv n)) = MOsascript →
  ∃ e, result (sendNotification n title message) = Throws e.
Proof.
  intros Hfail Hiterm Hm. unfold sendNotification.
  destruct (detectParentApp_total (nOs n) (nProcess n) (nEnv n))
    as (app & Happ & _).
  rewrite result_bind, Happ, Hiterm, Hm. cbn [andb].
  rewrite bool_decide_eq_true_2 by reflexivity.
  by apply sendWithOsascript_fails.
Qed.

(** A Mac on which osascript is the only notifier found, and on which it
    fails, as every other command run through [execSync] does. *)
Definition osascriptMac : os :=
  {| commandV := λ cmd, if bool_decide (cmd = js "osascript")
                        then ExecOk (js "/usr/bin/osascript")
                        else ExecError (js "Command failed");
     ps := λ q, if (q =? 4242)%Z then ExecOk itermPsOutput
                else ExecError (js "Command failed");
     mdls := λ _, ExecError (js "Command failed");
     execSync := λ _, ExecError (js "Command failed");
     spawnAlerter := λ _, SpawnThrows (js "spawn alerter ENOENT");
     existsSync := λ _, true |}.

(** An iTerm2 window on that Mac. *)
Definition itermWindow : process :=
  {| env := {[ "TERM_PROGRAM"%string := js "iTerm.app";
               "TERM"%string := js "xterm-256color" ]};
     stdoutIsTTY := Some true;
     stdinIsTTY := Some true;
     osPlatform := Darwin;
     ppid := 4242 |}.

(** C1. In an iTerm2 window on a Mac where osascript is the only notifier
    found, the module builds a notifier whose method is osascript.  When
    osascript then fails, as every command does on that machine, the
    dispatcher rejects with the error of the osascript method: after the
    look at the parent process it has run the osascript command and
    nothing else, and has written nothing on the terminal.  The same call
    with the same failure, made in the [try] block as the dispatcher makes
    it outside iTerm2, is delivered by the console method, which writes the
    cat line, the message line and the bell. *)
Theorem iterm2_shortcut_rejects :
  let command :=
    js "osascript -e 'display notification " ++ quoted (js "done")
    ++ js " with title " ++ quoted (js "Build") ++ js "'" in
  ∃ n,
    result (adaptiveNotifier osascriptMac itermWindow soundFile) = Returns n
    ∧ commandsFail (nOs n)
    ∧ isITerm2 (dTerminalInfo (nEnv n)) = true
    ∧ bestNotificationMethod (dCapabilities (nEnv n)) = MOsascript
    ∧ sendNotification n (js "Build") (js "done")
      = (Throws (js "osascript failed: Command failed"),
         [ExecPs 4242; ExecSync command])
    ∧ tryCatch (sendWithOsascript n (js "Build") (js "done"))
        (λ _, sendWithConsole n (js "Build") (js "done"))
      = (Returns consoleResult,
         [ExecSync command;
          WriteStdout (nl ++ catFace ++ js " " ++ esc ++ js "[1;36mBuild"
                       ++ esc ++ js "[0m" ++ nl);
          WriteStdout (js "   " ++ esc ++ js "[33mdone" ++ esc ++ js "[0m"
                       ++ nl ++ nl);
          WriteStdout bell;
          ExistsSync soundFile]).
Proof.
  eexists. split; [vm_compute; reflexivity|].
  split; [intros cmd; by eexists|].
  split_and!; vm_compute; reflexivity.
Qed.

End Dispatch.

(** * Further properties *)

(** ** The heuristics of the environment detector *)

Section Heuristics.

Import EnvironmentDetector.

(** The truth value the program sees for a variable. *)
Definition seen (p : process) (k : string) : bool := truthyOpt (env p !! k).

(** The answers of the three heuristics, as functions of the process. *)
Definition sshAnswer (p : process) : bool :=
  (seen p "SSH_CONNECTION" && (negb (seen p "DISPLAY") || seen p "SSH_TTY"))
  || seen p "SSH_CLIENT".

Definition ciAnswer (p : process) : bool :=
  existsb (seen p) ciIndicators.

Definition nonTTYAnswer (p : process) : bool :=
  isExplicitlyFalse (stdoutIsTTY p) || isExplicitlyFalse (stdinIsTTY p).

Lemma seen_isSet (p : process) (k : string) : seen p k = true ↔ isSet p k.
Proof. apply truthyOpt_isSet. Qed.

Lemma isSSHConnection_result (p : process) :
  result (isSSHConnection p) = Returns (sshAnswer p).
Proof.
  unfold isSSHConnection, sshAnswer, seen, getenv. cbn.
  destruct (truthyOpt (env p !! "SSH_CONNECTION")); cbn;
    [destruct (truthyOpt (env p !! "DISPLAY")); cbn;
     [destruct (truthyOpt (env p !! "SSH_TTY")); cbn|]|];
    try reflexivity; by destruct (truthyOpt (env p !! "SSH_CLIENT")).
Qed.

Lemma someEnv_result (p : process) (names : list string) :
  result (someEnv p names) = Returns (existsb (seen p) names).
Proof.
  induction names as [|k names IH]; [reflexivity|].
  cbn [someEnv existsb]. rewrite result_bind, getenv_run.
  cbn [result fst]. unfold seen at 1.
  by destruct (truthyOpt (env p !! k)).
Qed.

Lemma isCIEnvironment_result (p : process) :
  result (isCIEnvironment p) = Returns (ciAnswer p).
Proof. apply someEnv_result. Qed.

Lemma isNonTTYEnvironment_result (p : process) :
  result (isNonTTYEnvironment p) = Returns (nonTTYAnswer p).
Proof.
  unfold isNonTTYEnvironment, nonTTYAnswer, readStdoutIsTTY, readStdinIsTTY.
  by destruct (stdoutIsTTY p) as [[|]|], (stdinIsTTY p) as [[|]|].
Qed.

Lemma shouldForceConsole_result (p : process) :
  result (shouldForceConsole p)
  = Returns (sshAnswer p || ciAnswer p || nonTTYAnswer p).
Proof.
  unfold shouldForceConsole.
  rewrite result_bind, isSSHConnection_result.
  destruct (sshAnswer p); [reflexivity|].
  rewrite result_bind, isCIEnvironment_result.
  destruct (ciAnswer p); [reflexivity|].
  rewrite result_bind, isNonTTYEnvironment_result.
  by destruct (nonTTYAnswer p).
Qed.

(** The method the selection arrives at, as a function of what it reads. *)
Definition selected (p : process) (caps : capabilities) : method :=
  if bool_decide (env p !! "CAT_CCNOTIFY_FORCE_CONSOLE" = Some (js "true"))
  then MConsole
  else if sshAnswer p || ciAnswer p || nonTTYAnswer p then MConsole
  else match osPlatform p with
       | Darwin =>
           if hasAlerter caps then MAlerter
           else if hasTerminalNotifier caps then MTerminalNotifier
           else if hasOsascript caps then MOsascript
           else MConsole
       | Linux => if hasNotifySend caps then MNotifySend else MConsole
       | Win32 => MPowershell
       | OtherPlatform => MConsole
       end.

Lemma getBestNotificationMethod_result (p : process) (caps : capabilities) :
  result (getBestNotificationMethod p caps) = Returns (selected p caps).
Proof.
  unfold getBestNotificationMethod, selected.
  rewrite result_bind, getenv_run. cbn [result fst].
  destruct (bool_decide _); [reflexivity|].
  rewrite result_bind, shouldForceConsole_result.
  destruct (_ || _); [reflexivity|].
  unfold readPlatform, readCapability.
  destruct (osPlatform p) eqn:Hpl; cbn; rewrite ?Hpl; cbn;
    destruct (hasAlerter caps), (hasTerminalNotifier caps),
      (hasOsascript caps), (hasNotifySend caps); cbn; rewrite ?Hpl;
    reflexivity.
Qed.

(** X1. [isSSHConnection] always answers, and answers true exactly when
    SSH_CONNECTION is set together with SSH_TTY or without DISPLAY, or
    SSH_CLIENT is set; a session with X11 forwarding and neither SSH_TTY nor
    SSH_CLIENT does not count as an SSH connection. *)
Theorem isSSHConnection_exactly (p : process) :
  ∃ b, result (isSSHConnection p) = Returns b
       ∧ (b = true
          ↔ (isSet p "SSH_CONNECTION"
             ∧ (¬ isSet p "DISPLAY" ∨ isSet p "SSH_TTY"))
            ∨ isSet p "SSH_CLIENT").
Proof.
  exists (sshAnswer p). split; [apply isSSHConnection_result|].
  unfold sshAnswer.
  rewrite orb_true_iff, andb_true_iff, orb_true_iff, negb_true_iff.
  rewrite !seen_isSet. unfold seen. rewrite truthyOpt_not_isSet. tauto.
Qed.

(** X2. [isCIEnvironment] always answers, and answers true exactly when one
    of the eleven indicator variables is set. *)
Theorem isCIEnvironment_exactly (p : process) :
  ∃ b, result (isCIEnvironment p) = Returns b
       ∧ (b = true ↔ ∃ k, k ∈ ciIndicators ∧ isSet p k).
Proof.
  exists (ciAnswer p). split; [apply isCIEnvironment_result|].
  unfold ciAnswer. rewrite existsb_exists. split.
  - intros (k & Hin & Hk). exists k.
    split; [by apply list_elem_of_In | by apply seen_isSet].
  - intros (k & Hin & Hk). exists k.
    split; [by apply list_elem_of_In | by apply seen_isSet].
Qed.

(** A continuous-integration job on a Mac with a terminal attached. *)
Definition ciProcess : process :=
  {| env := {[ "GITHUB_ACTIONS"%string := js "true" ]};
     stdoutIsTTY := Some true;
     stdinIsTTY := Some true;
     osPlatform := Darwin;
     ppid := 4242 |}.

(** X3. When one of the CI indicator variables is set, the method selected
    is the console, whatever tools are installed and even with both
    standard streams on a terminal. *)
Theorem ci_selects_console
  (p : process) (caps : capabilities) (k : string) :
  k ∈ ciIndicators → isSet p k →
  result (getBestNotificationMethod p caps) = Returns MConsole.
Proof.
  intros Hin Hk. rewrite getBestNotificationMethod_result. f_equal.
  unfold selected. destruct (bool_decide _); [reflexivity|].
  assert (ciAnswer p = true) as ->.
  { unfold ciAnswer. apply existsb_exists. exists k.
    split; [by apply list_elem_of_In | by apply seen_isSet]. }
  by rewrite orb_true_r.
Qed.

Lemma ci_selects_console_witness :
  "GITHUB_ACTIONS"%string ∈ ciIndicators
  ∧ isSet ciProcess "GITHUB_ACTIONS"
  ∧ result (getBestNotificationMethod ciProcess allTools) = Returns MConsole.
Proof.
  assert (H1 : "GITHUB_ACTIONS"%string ∈ ciIndicators)
    by (unfold ciIndicators; set_solver).
  assert (H2 : isSet ciProcess "GITHUB_ACTIONS").
  { eexists. split; [vm_compute; reflexivity | discriminate]. }
  split; [exact H1|]. split; [exact H2|].
  exact (ci_selects_console ciProcess allTools "GITHUB_ACTIONS" H1 H2).
Defined.

(** X4. The selection always answers, and never names a tool that was not
    found or that belongs to another platform: alerter, terminal-notifier
    and osascript are selected only on macOS with the tool present and every
    tool of higher priority absent, notify-send only on Linux with the tool
    present, PowerShell only on Windows. *)
Theorem selection_is_available (p : process) (caps : capabilities) :
  ∃ m, result (getBestNotificationMethod p caps) = Returns m
       ∧ match m with
         | MAlerter => osPlatform p = Darwin ∧ hasAlerter caps = true
         | MTerminalNotifier =>
             osPlatform p = Darwin ∧ hasTerminalNotifier caps = true
             ∧ hasAlerter caps = false
         | MOsascript =>
             osPlatform p = Darwin ∧ hasOsascript caps = true
             ∧ hasAlerter caps = false ∧ hasTerminalNotifier caps = false
         | MNotifySend => osPlatform p = Linux ∧ hasNotifySend caps = true
         | MPowershell => osPlatform p = Win32
         | MConsole => True
         end.
Proof.
  exists (selected p caps). split; [apply getBestNotificationMethod_result|].
  unfold selected. destruct (bool_decide _); [done|].
  destruct (_ || _); [done|].
  destruct (osPlatform p), (hasAlerter caps), (hasTerminalNotifier caps),
    (hasOsascript caps), (hasNotifySend caps); done.
Qed.

(** X5. The sound player selected is likewise one that was found on its own
    platform: afplay, then say, on macOS; espeak on Linux; PowerShell on
    Windows. *)
Theorem sound_selection_is_available (p : process) (caps : capabilities) :
  match getBestSoundMethod p caps with
  | SAfplay => osPlatform p = Darwin ∧ hasAfplay caps = true
  | SSay => osPlatform p = Darwin ∧ hasSay caps = true
            ∧ hasAfplay caps = false
  | SEspeak => osPlatform p = Linux ∧ hasEspeak caps = true
  | SPowershell => osPlatform p = Win32
  | SNone =>
      osPlatform p ≠ Win32
      ∧ (osPlatform p = Darwin →
         hasAfplay caps = false ∧ hasSay caps = false)
      ∧ (osPlatform p = Linux → hasEspeak caps = false)
  end.
Proof.
  unfold getBestSoundMethod.
  destruct (osPlatform p), (hasAfplay caps), (hasSay caps),
    (hasEspeak caps); cbn; done.
Qed.

End Heuristics.

(** ** Probing the machine *)

Section Probing.

Import EnvironmentDetector.

Lemma bind_Returns {A B} (a : A) (l : list event) (f : A → io B) :
  (Returns a, l) ≫= f = ((f a).1, l ++ (f a).2).
Proof. reflexivity. Qed.

(** Whether a command lookup succeeded. *)
Definition resolves (o : os) (cmd : jsstring) : bool :=
  match commandV o cmd with ExecOk _ => true | ExecError _ => false end.

(** The commands looked up when the detector is built, in order. *)
Definition probeOrder : list jsstring :=
  [ js "osascript"; js "terminal-notifier"; js "alerter"; js "notify-send";
    js "afplay"; js "say"; js "espeak" ].

(** The capability flags the lookups give. *)
Definition probed (o : os) : capabilities :=
  {| hasOsascript := resolves o (js "osascript");
     hasTerminalNotifier := resolves o (js "terminal-notifier");
     hasAlerter := resolves o (js "alerter");
     hasNotifySend := resolves o (js "notify-send");
     hasAfplay := resolves o (js "afplay");
     hasSay := resolves o (js "say");
     hasEspeak := resolves o (js "espeak") |}.

Lemma commandExists_run (o : os) (cmd : jsstring) :
  commandExists o cmd = (Returns (resolves o cmd), [ExecCommandV cmd]).
Proof.
  unfold commandExists, resolves. by destruct (commandV o cmd).
Qed.

Lemma detectNotificationCapabilities_result (o : os) (p : process) :
  result (detectNotificationCapabilities o p)
  = Returns {| tools := probed o;
               bestNotificationMethod := selected p (probed o);
               bestSoundMethod := getBestSoundMethod p (probed o) |}.
Proof.
  unfold detectNotificationCapabilities.
  repeat (rewrite result_bind, commandExists_run; cbn [result fst]).
  rewrite result_bind.
  change (getBestNotificationMethod p _)
    with (getBestNotificationMethod p (probed o)).
  by rewrite getBestNotificationMethod_result.
Qed.

Lemma detectNotificationCapabilities_trace (o : os) (p : process) :
  trace (detectNotificationCapabilities o p)
  = map ExecCommandV probeOrder
    ++ trace (getBestNotificationMethod p (probed o)).
Proof.
  unfold detectNotificationCapabilities.
  repeat (rewrite trace_bind, commandExists_run;
          cbn [result trace fst snd]).
  rewrite trace_bind.
  change (getBestNotificationMethod p _)
    with (getBestNotificationMethod p (probed o)).
  rewrite getBestNotificationMethod_result.
  cbn [trace snd mret io_ret]. by rewrite app_nil_r.
Qed.

Lemma construct_result (o : os) (p : process) :
  result (construct o p)
  = Returns {| dPlatform := osPlatform p;
               dTerminalInfo := detectTerminalEnvironment p;
               dCapabilities :=
                 {| tools := probed o;
                    bestNotificationMethod := selected p (probed o);
                    bestSoundMethod := getBestSoundMethod p (probed o) |} |}.
Proof.
  unfold construct.
  change (readPlatform p) with (Returns (osPlatform p), [ReadPlatform]).
  rewrite result_bind. cbn [result fst]. cbv zeta.
  by rewrite result_bind, detectNotificationCapabilities_result.
Qed.

Lemma construct_trace (o : os) (p : process) :
  trace (construct o p)
  = ReadPlatform :: map ExecCommandV probeOrder
    ++ trace (getBestNotificationMethod p (probed o)).
Proof.
  unfold construct.
  change (readPlatform p) with (Returns (osPlatform p), [ReadPlatform]).
  rewrite trace_bind. cbn [result trace fst snd]. cbv zeta.
  rewrite trace_bind, detectNotificationCapabilities_result,
    detectNotificationCapabilities_trace.
  cbn [trace snd mret io_ret app]. by rewrite app_nil_r.
Qed.

(** X6. Building the detector never raises, whatever the command lookups
    do: it makes the seven lookups in a fixed order, records a tool as
    present exactly when its lookup succeeded, and stores the method and
    the sound player selected from those flags. *)
Theorem construct_never_raises (o : os) (p : process) :
  construct o p
  = (Returns {| dPlatform := osPlatform p;
                dTerminalInfo := detectTerminalEnvironment p;
                dCapabilities :=
                  {| tools := probed o;
                     bestNotificationMethod := selected p (probed o);
                     bestSoundMethod := getBestSoundMethod p (probed o) |} |},
     ReadPlatform :: map ExecCommandV probeOrder
     ++ trace (getBestNotificationMethod p (probed o))).
Proof.
  rewrite (io_eta (construct o p)).
  by rewrite construct_result, construct_trace.
Qed.

End Probing.

(** ** More on the ancestry walks *)

Section AncestryShape.

Import EnvironmentDetector.

Lemma identifyTerminalApp_range (info : processInfo) (app : parentApp) :
  result (identifyTerminalApp info) = Returns (Some app) →
  app ∈ [iTerm2App; vsCodeApp; terminalApp].
Proof.
  unfold identifyTerminalApp.
  repeat match goal with
         | |- context [includes ?a ?b] => destruct (includes a b)
         | |- context [command info] => destruct (command info)
         end; cbn; intros [=]; subst; set_solver.
Qed.

Lemma walk_range (o : os) (n : nat) (cur : jsnumber) (app : parentApp) :
  result (walk o n cur) = Returns (Some app) →
  app ∈ [iTerm2App; vsCodeApp; terminalApp].
Proof.
  revert cur. induction n as [|n IH]; intros cur.
  - by destruct cur.
  - destruct cur as [cur|]; [|done]. rewrite walk_step.
    destruct (1 <? cur)%Z; [|done].
    rewrite result_bind. destruct (ps o cur) as [out|msg]; [|done].
    rewrite runExec_ok. cbn [result fst]. unfold afterLookup.
    destruct (parsePs out) as [info|]; [|done].
    rewrite result_bind.
    destruct (result (identifyTerminalApp info)) as [[found|]|e] eqn:Hid.
    + intros [= <-]. by apply (identifyTerminalApp_range info).
    + apply IH.
    + done.
Qed.

(** X7. The record the detector of the environment module returns is always
    one of four: iTerm2, Visual Studio Code, Terminal, each with its fixed
    bundle identifier, or the unknown terminal without one. *)
Theorem detectParentApp_known_records
  (o : os) (p : process) (d : detector) :
  ∃ app, result (detectParentApp o p d) = Returns app
         ∧ app ∈ [iTerm2App; vsCodeApp; terminalApp; unknownTerminal].
Proof.
  rewrite detectParentApp_result.
  assert (Hfallback : getFallbackApp (dTerminalInfo d)
                      ∈ [iTerm2App; vsCodeApp; terminalApp; unknownTerminal]).
  { unfold getFallbackApp.
    destruct (isITerm2 (dTerminalInfo d)), (isVSCode (dTerminalInfo d));
      set_solver. }
  destruct (result (walk o maxLevels (Some (ppid p)))) as [[app|]|e] eqn:Hw.
  - exists app. split; [reflexivity|].
    apply walk_range in Hw. set_unfold. tauto.
  - by eexists.
  - by eexists.
Qed.

(** A process started directly by init. *)
Definition orphanProcess : process :=
  {| env := ∅;
     stdoutIsTTY := None;
     stdinIsTTY := None;
     osPlatform := Linux;
     ppid := 1 |}.

(** X8. When the parent process id is 1 or less, both detectors answer with
    their fallback record without looking up any process. *)
Theorem orphan_is_not_walked
  (o : os) (p : process) (d : detector) :
  (ppid p ≤ 1)%Z →
  detectParentApp o p d = (Returns (getFallbackApp (dTerminalInfo d)), [])
  ∧ SimpleParentDetector.detectParentApp o p None
    = (Returns (SimpleParentDetector.unknownApp,
                Some SimpleParentDetector.unknownApp), []).
Proof.
  intros Hp. apply Z.ltb_ge in Hp.
  unfold detectParentApp, SimpleParentDetector.detectParentApp, maxLevels,
    SimpleParentDetector.maxLevels.
  rewrite walk_step, simple_walk_step, Hp. done.
Qed.

Lemma orphan_is_not_walked_witness :
  (ppid orphanProcess ≤ 1)%Z
  ∧ detectParentApp itermOs orphanProcess (AdaptiveNotifier.nEnv alerterNotifier)
    = (Returns (getFallbackApp (dTerminalInfo (AdaptiveNotifier.nEnv alerterNotifier))), [])
  ∧ SimpleParentDetector.detectParentApp itermOs orphanProcess None
    = (Returns (SimpleParentDetector.unknownApp,
                Some SimpleParentDetector.unknownApp), []).
Proof.
  assert (H : (ppid orphanProcess ≤ 1)%Z) by (simpl; lia).
  split; [exact H|].
  exact (orphan_is_not_walked itermOs orphanProcess
           (AdaptiveNotifier.nEnv alerterNotifier) H).
Defined.

(** X9. The simple detector memoises its answer: a second call on the
    instance answers the same record without any external call, whatever
    the machine has become. *)
Theorem simple_detectParentApp_memoised
  (o o' : os) (p p' : process)
  (cache : option SimpleParentDetector.appInfo) :
  ∃ app cache',
    result (SimpleParentDetector.detectParentApp o p cache)
    = Returns (app, cache')
    ∧ SimpleParentDetector.detectParentApp o' p' cache'
      = (Returns (app, cache'), []).
Proof.
  destruct (simple_detectParentApp_total o p cache)
    as (app & cache' & Hret & -> & _).
  by exists app, (Some app).
Qed.

End AncestryShape.

(** ** The application path taken from the arguments *)

Section AppPath.

Import SimpleParentDetector.

Lemma startsWith_prefix (pre s : jsstring) :
  startsWith pre s = true ↔ ∃ rest, s = pre ++ rest.
Proof.
  revert s. induction pre as [|a pre IH]; intros s; simpl.
  - split; [by exists s | done].
  - destruct s as [|b s]; [split; [done | by intros [rest [=]]]|].
    unfold unitEqb. rewrite andb_true_iff, N.eqb_eq, IH. split.
    + intros [-> [rest ->]]. by exists rest.
    + intros [rest [= -> ->]]. split; [done | by exists rest].
Qed.

Lemma includes_infix (pat s : jsstring) :
  includes pat s = true ↔ ∃ before after, s = before ++ pat ++ after.
Proof.
  induction s as [|c s IH].
  - simpl. rewrite orb_false_r, startsWith_prefix. split.
    + intros [rest H]. by exists [], rest.
    + intros (before & after & H).
      destruct before; [by exists after|done].
  - cbn [includes]. rewrite orb_true_iff, startsWith_prefix, IH. split.
    + intros [[rest H]|(before & after & H)].
      * by exists [], rest.
      * exists (c :: before), after. by rewrite H.
    + intros (before & after & H). destruct before as [|b before].
      * left. by exists after.
      * right. injection H as -> ->. by exists before, after.
Qed.

Lemma longestAppPrefix_shape (run pre : jsstring) :
  longestAppPrefix run = Some pre →
  ∃ body rest, pre = body ++ js ".app" ∧ run = pre ++ rest.
Proof.
  revert pre. induction run as [|c run IH]; intros pre; [done|].
  cbn [longestAppPrefix].
  destruct (longestAppPrefix run) as [pre'|].
  - intros [= <-]. destruct (IH pre' eq_refl) as (body & rest & -> & Hrun).
    exists (c :: body), rest. split; [done|]. by rewrite Hrun at 1.
  - destruct (startsWith (js ".app") (c :: run)) eqn:Hs; [|done].
    intros [= <-]. apply startsWith_prefix in Hs as [rest Hs].
    by exists [], rest.
Qed.

Lemma takeNonSpace_shape (s : jsstring) :
  Forall (λ c, isWhiteSpace c = false) (takeNonSpace s)
  ∧ ∃ rest, s = takeNonSpace s ++ rest.
Proof.
  induction s as [|c s [IH1 [rest IH2]]]; cbn [takeNonSpace].
  - split; [constructor | by exists []].
  - destruct (isWhiteSpace c) eqn:Hc.
    + split; [constructor | by exists (c :: s)].
    + split; [by constructor|]. exists rest. by rewrite IH2 at 1.
Qed.

(** The arguments of a terminal started from its bundle. *)
Definition bundleArgs : jsstring :=
  js "/Applications/iTerm.app/Contents/MacOS/iTerm2 --server".

(** The arguments of a helper of an application whose name holds spaces. *)
Definition helperArgs : jsstring :=
  js "/Applications/Visual Studio Code.app/Contents/MacOS/Electron".

(** X10. The path matched in the arguments of a process starts with a
    slash, ends in ".app", holds no white space, and stands in the
    arguments as it is. *)
Theorem matchAppPath_shape (a r : jsstring) :
  matchAppPath a = Some r →
  (∃ body, r = js "/" ++ body ++ js ".app")
  ∧ Forall (λ c, isWhiteSpace c = false) r
  ∧ ∃ before after, a = before ++ r ++ after.
Proof.
  revert r. induction a as [|c a IH]; intros r; [done|].
  cbn [matchAppPath].
  assert (Hnext : matchAppPath a = Some r →
                  (∃ body, r = js "/" ++ body ++ js ".app")
                  ∧ Forall (λ c, isWhiteSpace c = false) r
                  ∧ ∃ before after, c :: a = before ++ r ++ after).
  { intros H. destruct (IH r H) as (Hb & Hw & before & after & ->).
    split; [done|]. split; [done|]. by exists (c :: before), after. }
  destruct (c =? 0x2F) eqn:Hc; [|exact Hnext].
  destruct (longestAppPrefix (takeNonSpace a)) as [pre|] eqn:Hpre;
    [|exact Hnext].
  intros [= <-]. apply N.eqb_eq in Hc as ->.
  destruct (longestAppPrefix_shape _ _ Hpre) as (body & rest & -> & Hrun).
  destruct (takeNonSpace_shape a) as [Hclean [rest' Ha]].
  split; [by exists body|]. split.
  - constructor; [done|]. rewrite Hrun in Hclean.
    by apply Forall_app in Hclean as [? _].
  - exists [], (rest ++ rest'). rewrite Ha at 1. rewrite Hrun at 1.
    cbn [app]. by rewrite <- !app_assoc.
Qed.

Lemma matchAppPath_shape_witness :
  matchAppPath bundleArgs = Some (js "/Applications/iTerm.app")
  ∧ (∃ body, js "/Applications/iTerm.app" = js "/" ++ body ++ js ".app")
  ∧ Forall (λ c, isWhiteSpace c = false) (js "/Applications/iTerm.app")
  ∧ ∃ before after,
      bundleArgs = before ++ js "/Applications/iTerm.app" ++ after.
Proof.
  assert (H : matchAppPath bundleArgs = Some (js "/Applications/iTerm.app"))
    by (vm_compute; reflexivity).
  split; [exact H|].
  exact (matchAppPath_shape bundleArgs (js "/Applications/iTerm.app") H).
Defined.

(** A bundle path with a space in it is not matched at all: no slash is
    followed by ".app" within one word. *)
Example spaced_bundle_is_not_matched : matchAppPath helperArgs = None.
Proof. vm_compute. reflexivity. Qed.

End AppPath.

(** ** More on the classifier and the styling *)

Section ClassifierOrder.

Import NotificationHook.

Ltac split_on_patterns content :=
  cbn [classify patterns isProcessCategory];
  destruct (some errorPatterns content);
  destruct (some warningPatterns content);
  destruct (some successPatterns content);
  destruct (some progressPatterns content);
  destruct (some gitPatterns content);
  destruct (some buildPatterns content);
  destruct (some testPatterns content);
  destruct (some deployPatterns content);
  destruct (some npmPatterns content);
  destruct (some filePatterns content).

(** X11. The generic categories come first: a text is classified as an error
    exactly when an error pattern matches it, even if it also reports a
    success; as a warning exactly when a warning pattern and no error
    pattern matches; as a success exactly when a success pattern and
    neither of the former matches; and as plain information exactly when no
    pattern of any category matches. *)
Theorem classification_order
  (toLowerCase : jsstring → jsstring) (t m : jsstring) :
  let content := toLowerCase (t ++ js " " ++ m) in
  let c := analyzeNotificationContent toLowerCase t m in
  (c = Error ↔ some errorPatterns content = true)
  ∧ (c = Warning
     ↔ some errorPatterns content = false
       ∧ some warningPatterns content = true)
  ∧ (c = Success
     ↔ some errorPatterns content = false
       ∧ some warningPatterns content = false
       ∧ some successPatterns content = true)
  ∧ (c = Info
     ↔ Forall (λ entry, some entry.2 content = false) patterns).
Proof.
  intros content c. subst c. unfold analyzeNotificationContent.
  fold content. unfold patterns.
  rewrite !Forall_cons, Forall_nil. cbn [snd].
  split_on_patterns content; intuition congruence.
Qed.

Lemma canonicalize_lowerAsciiUnit (c : N) :
  canonicalize (lowerAsciiUnit c) = canonicalize c.
Proof.
  unfold canonicalize, lowerAsciiUnit.
  destruct ((0x41 <=? c) && (c <=? 0x5A)) eqn:Hupper.
  - apply andb_true_iff in Hupper as [H1%N.leb_le H2%N.leb_le].
    replace ((0x61 <=? c + 0x20) && (c + 0x20 <=? 0x7A)) with true
      by (symmetry; apply andb_true_iff; split; apply N.leb_le; lia).
    replace ((0x61 <=? c) && (c <=? 0x7A)) with false
      by (symmetry; apply andb_false_iff; left; apply N.leb_gt; lia).
    lia.
  - reflexivity.
Qed.

Lemma matchesAt_lower (pat s : jsstring) :
  matchesAt pat (asciiToLowerCase s) = matchesAt pat s.
Proof.
  revert s. induction pat as [|a pat IH]; intros [|b s]; try reflexivity.
  cbn [asciiToLowerCase map matchesAt].
  rewrite canonicalize_lowerAsciiUnit. f_equal. apply IH.
Qed.

Lemma test_lower (pat s : jsstring) :
  test pat (asciiToLowerCase s) = test pat s.
Proof.
  induction s as [|b s IH].
  - by destruct pat.
  - change (asciiToLowerCase (b :: s))
      with (lowerAsciiUnit b :: asciiToLowerCase s).
    cbn [test]. rewrite IH. f_equal.
    apply (matchesAt_lower pat (b :: s)).
Qed.

Lemma some_lower (pats : list jsstring) (s : jsstring) :
  some pats (asciiToLowerCase s) = some pats s.
Proof.
  unfold some. induction pats as [|pat pats IH]; [reflexivity|].
  cbn [existsb]. by rewrite test_lower, IH.
Qed.

Lemma classify_lower (s : jsstring) :
  classify patterns (asciiToLowerCase s) = classify patterns s.
Proof.
  cbn [classify patterns isProcessCategory]. by rewrite !some_lower.
Qed.

(** X12. For a title and a message of ASCII characters the category does
    not depend on the case of the letters: it is the category of the text
    as it was written, every pattern being matched without regard to
    case. *)
Theorem classification_ignores_case
  (toLowerCase : jsstring → jsstring) (t m : jsstring) :
  lowersAscii toLowerCase →
  Forall (λ c, c < 0x80) t → Forall (λ c, c < 0x80) m →
  analyzeNotificationContent toLowerCase t m
  = classify patterns (t ++ js " " ++ m).
Proof.
  intros Hlower Ht Hm. unfold analyzeNotificationContent.
  rewrite Hlower; [apply classify_lower|].
  apply Forall_app. split; [exact Ht|].
  apply Forall_app. split; [|exact Hm]. by repeat constructor.
Qed.

Lemma classification_ignores_case_witness :
  analyzeNotificationContent asciiToLowerCase (js "BUILD FAILED") (js "Oops")
  = classify patterns (js "BUILD FAILED" ++ js " " ++ js "Oops").
Proof.
  apply (classification_ignores_case asciiToLowerCase
           (js "BUILD FAILED") (js "Oops")).
  - intros s _. reflexivity.
  - vm_compute. repeat constructor.
  - vm_compute. repeat constructor.
Defined.

(** X13. Styling leaves a message of at most 200 code units as it is and
    cuts a longer one to its first 197 code units followed by three dots,
    200 in all; no context prefix is ever put in front of it. *)
Theorem styled_message_is_truncation
  (toLowerCase : jsstring → jsstring) (t m : jsstring) (c : category) :
  let styledMessage := message (enhanceNotificationStyle toLowerCase t m c) in
  ((length m ≤ 200)%nat → styledMessage = m)
  ∧ ((200 < length m)%nat →
     styledMessage = take 197 m ++ js "..."
     ∧ length styledMessage = 200%nat).
Proof.
  cbv zeta. rewrite styled_message. split.
  - intros H. by apply Nat.ltb_ge in H as ->.
  - intros H. pose proof H as Hlt. apply Nat.ltb_lt in H as ->.
    split; [reflexivity|]. unfold substring0.
    rewrite length_app, length_take.
    change (length (js "...")) with 3%nat. lia.
Qed.

End ClassifierOrder.

(** * The rest of the detectors *)

Section Activation.

Import EnvironmentDetector (process).
Import SimpleParentDetector ParentActivation.

(** X14. [activateParentApp] never raises.  Without a bundle identifier it
    reports a failure and runs nothing beyond the detection; with one it
    runs the activation command once and reports a success exactly when
    that command succeeded. *)
Theorem activateParentApp_never_raises
  (o : os) (p : process) (cache : option appInfo) :
  ∃ app cache',
    result (detectParentApp o p cache) = Returns (app, cache')
    ∧ ∃ act,
        result (activateParentApp o p cache) = Returns (act, cache')
        ∧ appInfoOf act = app
        ∧ match bundleId app with
          | Some (c :: id) =>
              trace (activateParentApp o p cache)
              = trace (detectParentApp o p cache)
                ++ [ExecSync (activateCommand (c :: id))]
              ∧ (success act = true
                 ↔ ∃ out, execSync o (activateCommand (c :: id))
                          = ExecOk out)
          | _ =>
              trace (activateParentApp o p cache)
              = trace (detectParentApp o p cache)
              ∧ success act = false
              ∧ reason act = Some (js "No bundle ID available")
          end.
Proof.
  destruct (simple_detectParentApp_total o p cache)
    as (app & cache' & Hret & _).
  exists app, cache'. split; [exact Hret|].
  unfold activateParentApp.
  rewrite result_bind, trace_bind, Hret. cbn [fst snd].
  destruct (bundleId app) as [[|c id]|] eqn:Hid; cbn [truthyOpt truthy negb].
  - eexists. repeat split. by rewrite app_nil_r.
  - cbv zeta. change (default [] (Some (c :: id))) with (c :: id).
    rewrite result_tryCatch, trace_tryCatch.
    destruct (execSync o (activateCommand (c :: id))) as [out|msg] eqn:Hx.
    + rewrite runExec_ok. eexists. split; [reflexivity|]. split; [done|].
      split; [done|]. split; [by eexists | done].
    + rewrite runExec_error. eexists. split; [reflexivity|].
      split; [done|].
      split; [by cbn [trace snd fst result List.app mret io_ret]|].
      split; [done | by intros [out [=]]].
  - eexists. repeat split. by rewrite app_nil_r.
Qed.

End Activation.

Section StopDetector.

Import EnvironmentDetector (process, ppid, processInfo, parsePs, parentPid,
  args).
Import SimpleParentDetector (matchAppPath).
Import StopHookDetector.

(** What [lookupBundle] answers for a given outcome of the lookup. *)
Definition bundleAnswer (appPath : jsstring) (r : execResult)
  : option stopApp :=
  match r with
  | ExecOk out =>
      if bool_decide (trim out = js "(null)") then None
      else match trim out with
           | [] => None
           | id =>
               Some {| name := replaceFirst (js ".app") []
                                 (default [] (last (split 0x2F appPath)));
                       bundleId := id;
                       path := appPath |}
           end
  | ExecError _ => None
  end.

Lemma lookupBundle_run (o : os) (appPath : jsstring) :
  lookupBundle o appPath
  = (Returns (bundleAnswer appPath (mdls o appPath)), [ExecMdls appPath]).
Proof.
  unfold lookupBundle, bundleAnswer.
  destruct (mdls o appPath) as [out|msg]; [|reflexivity].
  rewrite runExec_ok. cbn.
  destruct (bool_decide _); [reflexivity|]. by destruct (trim out).
Qed.

(** An application found by the stop hook carries the identifier that a
    successful bundle lookup on its path printed. *)
Definition identified (o : os) (app : stopApp) : Prop :=
  bundleId app ≠ []
  ∧ ∃ out, mdls o (path app) = ExecOk out ∧ bundleId app = trim out.

Lemma bundleAnswer_identified (o : os) (appPath : jsstring) (app : stopApp) :
  bundleAnswer appPath (mdls o appPath) = Some app → identified o app.
Proof.
  unfold bundleAnswer, identified.
  destruct (mdls o appPath) as [out|msg] eqn:Hm; [|done].
  destruct (bool_decide _); [done|].
  destruct (trim out) as [|c id] eqn:Ht; [done|].
  intros [= <-]. cbn. split; [done|]. exists out. by rewrite Hm, Ht.
Qed.

Definition stopInvariant (o : os) (n : nat) (w : io (option stopApp))
  : Prop :=
  (psCalls (trace w) ≤ n)%nat
  ∧ ∀ app, result w = Returns (Some app) → identified o app.

Lemma stopInvariant_silent (o : os) (n : nat) (e : outcome (option stopApp)) :
  (∀ app, e ≠ Returns (Some app)) → stopInvariant o n (e, []).
Proof.
  intros He. split; [unfold psCalls; simpl; lia|].
  intros app H. by destruct (He app).
Qed.

Lemma stop_walk_invariant (o : os) (n : nat) (cur : jsnumber) :
  stopInvariant o n (walk o n cur).
Proof.
  revert cur. induction n as [|n IH]; intros cur.
  - destruct cur; by apply stopInvariant_silent.
  - destruct cur as [cur|]; [|by apply stopInvariant_silent].
    cbn [walk]. destruct (1 <? cur)%Z; [|by apply stopInvariant_silent].
    destruct (ps o cur) as [out|msg].
    2:{ rewrite runExec_error. split; [unfold psCalls; simpl; lia | done]. }
    rewrite runExec_ok, bind_Returns.
    destruct (parsePs out) as [info|].
    2:{ split; [unfold psCalls; simpl; lia | done]. }
    destruct (IH (parentPid info)) as [Hn Hid].
    assert (Hrest : stopInvariant o (S n)
                      ((walk o n (parentPid info)).1,
                       [ExecPs cur] ++ (walk o n (parentPid info)).2)).
    { split; [|exact Hid]. cbn [trace snd]. rewrite psCalls_app.
      cbn [psCalls List.filter isExecPs length].
      change (psCalls (trace (walk o n (parentPid info))) < S n)%nat. lia. }
    destruct (includes (js ".app") (args info));
      [|by destruct (walk o n (parentPid info))].
    destruct (matchAppPath (args info)) as [appPath|];
      [|by destruct (walk o n (parentPid info))].
    rewrite lookupBundle_run, bind_Returns.
    destruct (bundleAnswer appPath (mdls o appPath)) as [app|] eqn:Hans.
    + split; [unfold psCalls; simpl; lia|].
      intros app' [= <-]. by apply (bundleAnswer_identified o appPath).
    + destruct Hrest as [Hn' Hid'].
      destruct (walk o n (parentPid info)) as [r l]. split.
      * cbn [trace snd fst] in *. rewrite !psCalls_app in *.
        cbn [psCalls List.filter isExecPs length app] in *. lia.
      * exact Hid'.
Qed.

(** The ancestors the walk can reach from [cur] in [n] steps, nearest
    first: the chain ends at a process identifier that is missing or not
    above 1, at a [ps] that fails and at an output without a process
    line. *)
Fixpoint ancestors (o : os) (n : nat) (cur : jsnumber) : list processInfo :=
  match n, cur with
  | S n', Some pid =>
      if (1 <? pid)%Z then
        match ps o pid with
        | ExecOk out =>
            match parsePs out with
            | Some info => info :: ancestors o n' (parentPid info)
            | None => []
            end
        | ExecError _ => []
        end
      else []
  | _, _ => []
  end.

(** The application a process stands for: its arguments name a bundle and
    the lookup of the bundle identifier succeeds with an identifier. *)
Definition appOf (o : os) (info : processInfo) : option stopApp :=
  if includes (js ".app") (args info) then
    match matchAppPath (args info) with
    | Some appPath => bundleAnswer appPath (mdls o appPath)
    | None => None
    end
  else None.

(** The nearest ancestor that stands for an application. *)
Definition nearestApp (o : os) (n : nat) (cur : jsnumber) : option stopApp :=
  head (omap (appOf o) (ancestors o n cur)).

Lemma nearestApp_step
  (o : os) (n : nat) (cur : Z) (out : jsstring) (info : processInfo) :
  (1 <? cur)%Z = true → ps o cur = ExecOk out → parsePs out = Some info →
  nearestApp o (S n) (Some cur)
  = match appOf o info with
    | Some app => Some app
    | None => nearestApp o n (parentPid info)
    end.
Proof.
  intros Hcur Hps Hparse. unfold nearestApp. cbn [ancestors].
  rewrite Hcur, Hps, Hparse. cbn [omap list_omap].
  by destruct (appOf o info).
Qed.

Lemma lookup_result (o : os) (info : processInfo) :
  result (if includes (js ".app") (args info) then
            match matchAppPath (args info) with
            | Some appPath => lookupBundle o appPath
            | None => mret None
            end
          else mret None)
  = Returns (appOf o info).
Proof.
  unfold appOf. destruct (includes (js ".app") (args info)); [|done].
  destruct (matchAppPath (args info)) as [appPath|]; [|done].
  by rewrite lookupBundle_run.
Qed.

Lemma walk_nearestApp (o : os) (n : nat) (cur : jsnumber) :
  match result (walk o n cur) with
  | Returns found => found = nearestApp o n cur
  | Throws _ => nearestApp o n cur = None
  end.
Proof.
  revert cur. induction n as [|n IH]; intros cur.
  - by destruct cur.
  - destruct cur as [cur|]; [|done].
    destruct (1 <? cur)%Z eqn:Hcur;
      [|unfold nearestApp; cbn [walk ancestors]; by rewrite Hcur].
    destruct (ps o cur) as [out|msg] eqn:Hps;
      [|unfold nearestApp; cbn [walk ancestors];
        by rewrite Hcur, Hps, runExec_error].
    destruct (parsePs out) as [info|] eqn:Hparse;
      [|unfold nearestApp; cbn [walk ancestors];
        rewrite Hcur, Hps, runExec_ok, result_bind; cbn [result fst];
        by rewrite Hparse].
    rewrite (nearestApp_step o n cur out info Hcur Hps Hparse).
    cbn [walk]. rewrite Hcur, Hps, runExec_ok, result_bind.
    cbn [result fst]. rewrite Hparse, result_bind, lookup_result.
    destruct (appOf o info) as [app|]; [done|]. apply IH.
Qed.

(** X15. The detector of the stop hook never raises and looks up at most 15
    processes.  Its answer is the nearest ancestor, among those the chain of
    [ps] lookups reaches in 15 steps, whose arguments name a bundle for
    which the lookup of the identifier succeeds with an identifier: an
    ancestor without a bundle, or with a lookup that fails or prints
    nothing, is passed over and the walk goes on to its parent; the answer
    is null exactly when no ancestor qualifies.  An application it answers
    with carries the identifier its lookup printed. *)
Theorem stop_detectParentApp_identified (o : os) (p : process) :
  result (detectParentApp o p)
  = Returns (head (omap (appOf o) (ancestors o 15 (Some (ppid p)))))
  ∧ (psCalls (trace (detectParentApp o p)) ≤ 15)%nat
  ∧ ∀ app, result (detectParentApp o p) = Returns (Some app) →
           bundleId app ≠ []
           ∧ ∃ out, mdls o (path app) = ExecOk out
                    ∧ bundleId app = trim out.
Proof.
  destruct (stop_walk_invariant o maxLevels (Some (ppid p))) as [Hn Hid].
  pose proof (walk_nearestApp o maxLevels (Some (ppid p))) as Hnearest.
  unfold nearestApp in Hnearest.
  change (ancestors o maxLevels) with (ancestors o 15) in Hnearest.
  unfold detectParentApp. rewrite result_tryCatch, trace_tryCatch.
  destruct (walk o maxLevels (Some (ppid p))) as [[found|e] l] eqn:Hw;
    cbn [result trace fst snd] in *.
  - rewrite <- Hnearest. split; [done|]. split; [exact Hn|].
    intros app Happ. by apply Hid.
  - rewrite Hnearest. split; [done|]. split; [by rewrite app_nil_r|].
    intros app [=].
Qed.

End StopDetector.

(** ** More on the dispatcher *)

Section DispatchTrace.

Import EnvironmentDetector AdaptiveNotifier.

Definition isExecSync (e : event) : bool :=
  match e with ExecSync _ => true | _ => false end.

Definition isSpawn (e : event) : bool :=
  match e with SpawnAlerter _ => true | _ => false end.

(** The events that are a command run through [execSync]: the lookups of
    the tools, of the ancestors and of the bundle identifier are run with
    it as the notifier and player commands are. *)
Definition isCommand (e : event) : bool :=
  match e with
  | ExecCommandV _ | ExecPs _ | ExecMdls _ | ExecSync _ => true
  | _ => false
  end.

(** The notification texts a run printed on the terminal, in order.  (The
    dispatcher's own diagnostic lines are not events of the model.) *)
Definition written (l : list event) : list jsstring :=
  omap (λ e, match e with WriteStdout text => Some text | _ => None end) l.

(** The number of events of a kind in a trace. *)
Definition count (kind : event → bool) (l : list event) : nat :=
  length (List.filter kind l).

Lemma count_app (kind : event → bool) (l1 l2 : list event) :
  count kind (l1 ++ l2) = (count kind l1 + count kind l2)%nat.
Proof. unfold count. by rewrite List.filter_app, length_app. Qed.

Lemma count_cons (kind : event → bool) (e : event) (l : list event) :
  count kind (e :: l) = ((if kind e then 1 else 0) + count kind l)%nat.
Proof. unfold count. cbn [List.filter]. by destruct (kind e). Qed.

Lemma written_cons (e : event) (l : list event) :
  written (e :: l)
  = match e with WriteStdout text => text :: written l | _ => written l end.
Proof. by destruct e. Qed.

Lemma written_app (l1 l2 : list event) :
  written (l1 ++ l2) = written l1 ++ written l2.
Proof. apply omap_app. Qed.

(** The three texts [sendWithConsole] writes. *)
Definition consoleTexts (n : notifier) (title message : jsstring)
  : list jsstring :=
  let color := supportsColor (dTerminalInfo (nEnv n)) in
  [ nl ++ catFace ++ js " "
    ++ (if color then esc ++ js "[1;36m" ++ title ++ esc ++ js "[0m"
        else title) ++ nl;
    js "   "
    ++ (if color then esc ++ js "[33m" ++ message ++ esc ++ js "[0m"
        else message) ++ nl ++ nl;
    bell ].

Ltac run_io :=
  repeat first
    [ progress cbn [mbind io_bind mret io_ret emit throw tryCatch runExec
                    fst snd result trace List.app count written omap
                    List.filter isExecSync isSpawn isCommand length andb orb
                    negb success via]
    | match goal with
      | |- context [match execSync ?o ?c with _ => _ end] =>
          destruct (execSync o c)
      | |- context [if existsSync ?o ?f then _ else _] =>
          destruct (existsSync o f)
      | |- context [match bestSoundMethod ?c with _ => _ end] =>
          destruct (bestSoundMethod c)
      | |- context [if truthyOpt ?b then _ else _] =>
          destruct (truthyOpt b)
      | |- context [if platformEqb ?a ?b then _ else _] =>
          destruct (platformEqb a b)
      | |- context [if bool_decide ?P then _ else _] =>
          destruct (bool_decide P)
      | |- context [bool_decide ?P || _] => destruct (bool_decide P)
      | |- context [if supportsColor ?t then _ else _] =>
          destruct (supportsColor t)
      end ].

Lemma playSound_quiet (n : notifier) :
  result (playSound n) = Returns tt
  ∧ (count isExecSync (trace (playSound n)) ≤ 1)%nat
  ∧ written (trace (playSound n)) = [].
Proof.
  unfold playSound. split_and!.
  - run_io; reflexivity.
  - run_io; lia.
  - run_io; reflexivity.
Qed.

Lemma playSound_spawns_nothing (n : notifier) :
  count isSpawn (trace (playSound n)) = 0%nat.
Proof. unfold playSound. run_io; reflexivity. Qed.

(** X16. [playSound] never raises, whatever the player does; it runs at
    most one player command and spawns no child, and when the sound file
    is missing it does nothing beyond the check for the file. *)
Theorem playSound_is_harmless (n : notifier) :
  result (playSound n) = Returns tt
  ∧ (count isExecSync (trace (playSound n)) ≤ 1)%nat
  ∧ count isSpawn (trace (playSound n)) = 0%nat
  ∧ (existsSync (nOs n) (soundPath n) = false →
     trace (playSound n) = [ExistsSync (soundPath n)]).
Proof.
  destruct (playSound_quiet n) as (Hr & Hc & _).
  split_and!; [exact Hr | exact Hc | apply playSound_spawns_nothing |].
  unfold playSound. intros ->. reflexivity.
Qed.

Lemma walk_only_ps (o : os) (n : nat) (cur : jsnumber) :
  Forall (λ e, isExecPs e = true) (trace (walk o n cur)).
Proof.
  revert cur. induction n as [|n IH]; intros cur.
  - destruct cur; constructor.
  - destruct cur as [cur|]; [|constructor]. rewrite walk_step.
    destruct (1 <? cur)%Z; [|constructor].
    rewrite trace_bind.
    destruct (ps o cur) as [out|msg];
      [rewrite runExec_ok | rewrite runExec_error; by repeat constructor].
    cbn [result trace fst snd]. apply Forall_app. split;
      [by repeat constructor|].
    unfold afterLookup. destruct (parsePs out) as [info|]; [|constructor].
    rewrite trace_bind, identifyTerminalApp_silent. cbn [List.app].
    destruct (result (identifyTerminalApp info)) as [[found|]|e];
      [constructor | apply IH | constructor].
Qed.

Lemma only_ps_is_quiet (l : list event) :
  Forall (λ e, isExecPs e = true) l →
  count isExecSync l = 0%nat ∧ count isSpawn l = 0%nat ∧ written l = [].
Proof.
  induction 1 as [|e l He _ (IH1 & IH2 & IH3)]; [done|].
  destruct e; try discriminate He. unfold count in *. by cbn.
Qed.

Lemma detectParentApp_is_quiet (o : os) (p : process) (d : detector) :
  count isExecSync (trace (detectParentApp o p d)) = 0%nat
  ∧ count isSpawn (trace (detectParentApp o p d)) = 0%nat
  ∧ written (trace (detectParentApp o p d)) = [].
Proof.
  rewrite detectParentApp_trace. apply only_ps_is_quiet, walk_only_ps.
Qed.

(** A call of one of the notifier methods: it returns a success naming the
    method after at most two commands, or it throws after at most one; it
    spawns nothing and prints no notification text.  The alerter method
    never returns. *)
Definition attempt (meth : method) (x : io sendResult) : Prop :=
  (count isCommand (trace x) ≤ 2)%nat
  ∧ count isSpawn (trace x) = 0%nat
  ∧ written (trace x) = []
  ∧ match result x with
    | Returns r => via r = meth ∧ success r = true ∧ meth ≠ MAlerter
    | Throws _ => (count isCommand (trace x) ≤ 1)%nat
    end.

Lemma playSound_run (n : notifier) :
  playSound n = (Returns tt, trace (playSound n)).
Proof.
  rewrite (io_eta (playSound n)) at 1.
  by destruct (playSound_quiet n) as [-> _].
Qed.

Lemma playSound_commands (n : notifier) :
  (count isCommand (trace (playSound n)) ≤ 1)%nat.
Proof. unfold playSound. run_io; lia. Qed.

Lemma command_then_sound
  (n : notifier) (cmd : jsstring) (r : sendResult)
  (wrap : jsstring → jsstring) :
  success r = true → via r ≠ MAlerter →
  attempt (via r)
    (tryCatch
       (_ ← runExec (ExecSync cmd) (execSync (nOs n) cmd);
        _ ← playSound n;
        mret r)
       (λ msg, throw (wrap msg))).
Proof.
  intros Hr Hvia. destruct (playSound_quiet n) as (_ & _ & Hw).
  pose proof (playSound_commands n) as Hc.
  pose proof (playSound_spawns_nothing n) as Hs.
  destruct (execSync (nOs n) cmd) as [out|msg].
  - rewrite runExec_ok, bind_Returns, playSound_run, bind_Returns.
    cbn [tryCatch fst snd mret io_ret]. unfold attempt.
    cbn [result trace fst snd]. rewrite app_nil_r.
    change ([ExecSync cmd] ++ trace (playSound n))
      with (ExecSync cmd :: trace (playSound n)).
    rewrite !count_cons, written_cons. cbn [isCommand isSpawn].
    split_and!; [lia | lia | exact Hw | done | done | done].
  - rewrite runExec_error. unfold attempt, count. cbn.
    split_and!; (lia || done).
Qed.

Lemma sendWithAlerter_attempt
  (n : notifier) (title message : jsstring) (app : parentApp) :
  attempt MAlerter (sendWithAlerter n title message app).
Proof. unfold attempt, count. cbn. split_and!; (lia || done). Qed.

Lemma sendWithTerminalNotifier_attempt
  (n : notifier) (title message : jsstring) (app : parentApp) :
  attempt MTerminalNotifier (sendWithTerminalNotifier n title message app).
Proof.
  unfold sendWithTerminalNotifier. cbv zeta.
  by apply (command_then_sound n _
              {| success := true; via := MTerminalNotifier;
                 clicked := None; warning := None |}).
Qed.

Lemma sendWithOsascript_attempt (n : notifier) (title message : jsstring) :
  attempt MOsascript (sendWithOsascript n title message).
Proof.
  unfold sendWithOsascript. cbv zeta.
  by apply (command_then_sound n _
              {| success := true; via := MOsascript; clicked := None;
                 warning :=
                   Some (js "Clicking notification will open Script Editor")
              |}).
Qed.

Lemma sendWithNotifySend_attempt (n : notifier) (title message : jsstring) :
  attempt MNotifySend (sendWithNotifySend n title message).
Proof.
  unfold sendWithNotifySend. cbv zeta.
  by apply (command_then_sound n _
              {| success := true; via := MNotifySend;
                 clicked := None; warning := None |}).
Qed.

Lemma sendWithPowerShell_attempt (n : notifier) (title message : jsstring) :
  attempt MPowershell (sendWithPowerShell n title message).
Proof.
  unfold sendWithPowerShell. cbv zeta.
  match goal with |- context [execSync ?o ?c] =>
    generalize c; intros cmd end.
  destruct (execSync (nOs n) cmd) as [out|msg].
  - rewrite runExec_ok. unfold attempt, count. cbn.
    split_and!; (lia || done).
  - rewrite runExec_error. unfold attempt, count. cbn.
    split_and!; (lia || done).
Qed.

Lemma sendWithConsole_run (n : notifier) (title message : jsstring) :
  result (sendWithConsole n title message) = Returns consoleResult
  ∧ (count isCommand (trace (sendWithConsole n title message)) ≤ 1)%nat
  ∧ count isSpawn (trace (sendWithConsole n title message)) = 0%nat
  ∧ written (trace (sendWithConsole n title message))
    = consoleTexts n title message.
Proof.
  destruct (playSound_quiet n) as (_ & _ & Hw).
  pose proof (playSound_commands n) as Hc.
  pose proof (playSound_spawns_nothing n) as Hs.
  unfold sendWithConsole, consoleTexts. cbv zeta.
  cbn [mbind io_bind emit fst snd]. rewrite playSound_run, bind_Returns.
  cbn [result trace fst snd mret io_ret List.app].
  rewrite app_nil_r, !count_cons, !written_cons, Hw, Hs.
  cbn [isCommand isSpawn]. split_and!; (lia || done).
Qed.

Lemma attempt_or_console
  (n : notifier) (title message : jsstring) (meth : method)
  (x : io sendResult) :
  meth ≠ MConsole → attempt meth x →
  let y := tryCatch x (λ _, sendWithConsole n title message) in
  (count isCommand (trace y) ≤ 2)%nat
  ∧ count isSpawn (trace y) = 0%nat
  ∧ ∃ r, result y = Returns r
         ∧ success r = true
         ∧ via r ≠ MAlerter
         ∧ (via r = meth ∨ via r = MConsole)
         ∧ written (trace y)
           = (if bool_decide (via r = MConsole)
              then consoleTexts n title message else []).
Proof.
  intros Hmeth (Hc & Hs & Hw & Hr) y. subst y.
  destruct (sendWithConsole_run n title message) as (Hcr & Hcc & Hcs & Hcw).
  rewrite result_tryCatch, trace_tryCatch.
  destruct (result x) as [r|e].
  - split; [exact Hc|]. split; [exact Hs|]. exists r.
    destruct Hr as (<- & Hsucc & Halerter). split; [done|].
    split; [done|]. split; [done|]. split; [by left|].
    by rewrite Hw, bool_decide_eq_false_2.
  - rewrite !count_app, written_app, Hw, Hcw, Hcs, Hs.
    split; [lia|]. split; [lia|]. exists consoleResult.
    split; [exact Hcr|]. split; [done|]. split; [done|].
    split; [by right|]. done.
Qed.

Lemma only_ps_commands (l : list event) :
  Forall (λ e, isExecPs e = true) l →
  count isCommand l = length l ∧ psCalls l = length l.
Proof.
  induction 1 as [|e l He _ [IH1 IH2]]; [done|].
  destruct e; try discriminate He. unfold count, psCalls in *.
  cbn [List.filter isCommand isExecPs length]. by rewrite IH1, IH2.
Qed.

(** A run of the dispatcher: first the lookups of the parent detection,
    then what the selected method and the fallback did. *)
Lemma sendNotification_run (n : notifier) (title message : jsstring) :
  let run := sendNotification n title message in
  let best := bestNotificationMethod (dCapabilities (nEnv n)) in
  ∃ lookups rest,
    trace run = lookups ++ rest
    ∧ Forall (λ e, isExecPs e = true) lookups
    ∧ (length lookups ≤ 15)%nat
    ∧ (count isCommand rest ≤ 2)%nat
    ∧ count isSpawn rest = 0%nat
    ∧ match result run with
      | Returns r =>
          success r = true
          ∧ via r ≠ MAlerter
          ∧ (via r = best ∨ via r = MConsole)
          ∧ written rest
            = (if bool_decide (via r = MConsole)
               then consoleTexts n title message else [])
      | Throws _ =>
          isITerm2 (dTerminalInfo (nEnv n)) = true ∧ best = MOsascript
          ∧ written rest = []
      end.
Proof.
  cbv zeta.
  destruct (detectParentApp_total (nOs n) (nProcess n) (nEnv n))
    as (app & Happ & Hfifteen & _).
  assert (Hps : Forall (λ e, isExecPs e = true)
                  (trace (detectParentApp (nOs n) (nProcess n) (nEnv n)))).
  { rewrite detectParentApp_trace. apply walk_only_ps. }
  destruct (only_ps_commands _ Hps) as [_ Hlen]. rewrite Hlen in Hfifteen.
  exists (trace (detectParentApp (nOs n) (nProcess n) (nEnv n))).
  unfold sendNotification. rewrite trace_bind, result_bind, Happ.
  eexists. split; [reflexivity|]. split; [exact Hps|].
  split; [exact Hfifteen|].
  destruct (isITerm2 (dTerminalInfo (nEnv n))
            && bool_decide (bestNotificationMethod (dCapabilities (nEnv n))
                            = MOsascript)) eqn:Hshortcut.
  - apply andb_true_iff in Hshortcut as [Hiterm Hbest].
    apply bool_decide_eq_true in Hbest.
    destruct (sendWithOsascript_attempt n title message)
      as (Hc & Hs & Hw & Hr).
    split; [exact Hc|]. split; [exact Hs|].
    destruct (result (sendWithOsascript n title message)) as [r|e].
    + destruct Hr as (Hvia & Hsucc & _). rewrite Hbest, Hvia.
      split; [done|]. split; [done|]. split; [by left|].
      by rewrite Hw.
    + done.
  - set (best := bestNotificationMethod (dCapabilities (nEnv n))) in *.
    assert (Hcases :
      best = MConsole
      ∨ (best ≠ MConsole
         ∧ attempt best
             match best with
             | MAlerter => sendWithAlerter n title message app
             | MTerminalNotifier =>
                 sendWithTerminalNotifier n title message app
             | MOsascript => sendWithOsascript n title message
             | MNotifySend => sendWithNotifySend n title message
             | MPowershell => sendWithPowerShell n title message
             | MConsole => sendWithConsole n title message
             end)).
    { destruct best; [right|right|right|right|right|by left];
        (split; [done|]).
      - apply sendWithAlerter_attempt.
      - apply sendWithTerminalNotifier_attempt.
      - apply sendWithOsascript_attempt.
      - apply sendWithNotifySend_attempt.
      - apply sendWithPowerShell_attempt. }
    destruct Hcases as [Hconsole|[Hother Hattempt]].
    + rewrite Hconsole. rewrite result_tryCatch, trace_tryCatch.
      destruct (sendWithConsole_run n title message)
        as (-> & Hcc & Hcs & Hcw).
      split; [lia|]. split; [exact Hcs|]. split; [done|]. split; [done|].
      split; [by left|]. exact Hcw.
    + destruct (attempt_or_console n title message best _ Hother Hattempt)
        as (Hc & Hs & r & -> & Hsucc & Halerter & Hvia & Hw).
      done.
Qed.

(** X17. The dispatcher raises only through the call made for iTerm2
    ahead of the [try] block.  Otherwise it returns a success, whose method
    is the selected method or the console and is never alerter (the alerter
    method cannot start and always ends in the console method), and the
    notification itself (the cat line with the title, the message line and
    the bell) has been printed on the terminal exactly when the result
    names the console, once. *)
Theorem sendNotification_outcome (n : notifier) (title message : jsstring) :
  let run := sendNotification n title message in
  let best := bestNotificationMethod (dCapabilities (nEnv n)) in
  match result run with
  | Returns r =>
      success r = true
      ∧ via r ≠ MAlerter
      ∧ (via r = best ∨ via r = MConsole)
      ∧ written (trace run)
        = (if bool_decide (via r = MConsole)
           then consoleTexts n title message else [])
  | Throws _ =>
      isITerm2 (dTerminalInfo (nEnv n)) = true ∧ best = MOsascript
      ∧ written (trace run) = []
  end.
Proof.
  cbv zeta.
  destruct (sendNotification_run n title message)
    as (lookups & rest & -> & Hps & _ & _ & _ & Hres).
  destruct (only_ps_is_quiet lookups Hps) as (_ & _ & Hquiet).
  rewrite written_app, Hquiet. exact Hres.
Qed.

(** X18. One notification runs at most 17 commands through [execSync]: at
    most 15 [ps] lookups of the parent detection come first, and at most
    two commands follow (the notifier command, then the sound player; after
    a notifier that failed, the sound player of the console method).  No
    child is spawned. *)
Theorem sendNotification_bounded (n : notifier) (title message : jsstring) :
  let l := trace (sendNotification n title message) in
  (count isCommand l ≤ 17)%nat
  ∧ count isSpawn l = 0%nat
  ∧ ∃ lookups rest,
      l = lookups ++ rest
      ∧ Forall (λ e, isExecPs e = true) lookups
      ∧ (length lookups ≤ 15)%nat
      ∧ (count isCommand rest ≤ 2)%nat.
Proof.
  cbv zeta.
  destruct (sendNotification_run n title message)
    as (lookups & rest & -> & Hps & Hfifteen & Htwo & Hspawn & _).
  destruct (only_ps_commands lookups Hps) as [Hcommands _].
  destruct (only_ps_is_quiet lookups Hps) as (_ & Hnone & _).
  rewrite !count_app, Hcommands, Hnone, Hspawn.
  split; [lia|]. split; [done|]. by exists lookups, rest.
Qed.

(** A terminal whose user asked for no colours. *)
Definition plainProcess : process :=
  {| env := {[ "NO_COLOR"%string := js "1";
               "COLORTERM"%string := js "truecolor";
               "TERM"%string := js "xterm-256color" ]};
     stdoutIsTTY := Some true;
     stdinIsTTY := Some true;
     osPlatform := Linux;
     ppid := 4242 |}.

(** X19. When NO_COLOR is set, the console method of the notifier the
    module builds prints the title and the message without any colour
    sequence, whatever COLORTERM and TERM say: its first three writes are
    the cat line with the bare title, the line with the bare message, and
    the bell. *)
Theorem no_color_console_is_plain
  (o : os) (p : process) (sound title message : jsstring) :
  isSet p "NO_COLOR" →
  ∃ n rest,
    result (adaptiveNotifier o p sound) = Returns n
    ∧ trace (sendWithConsole n title message)
      = WriteStdout (nl ++ catFace ++ js " " ++ title ++ nl)
        :: WriteStdout (js "   " ++ message ++ nl ++ nl)
        :: WriteStdout bell :: rest.
Proof.
  intros Hset%truthyOpt_isSet. unfold adaptiveNotifier.
  rewrite result_bind, construct_result. cbn [result fst mret io_ret].
  eexists. eexists. split; [reflexivity|].
  unfold sendWithConsole. cbv zeta. cbn [nEnv dTerminalInfo].
  unfold detectTerminalEnvironment. cbn [supportsColor]. rewrite Hset.
  cbn [negb andb]. rewrite !trace_bind. cbn [result trace emit fst snd].
  cbn [List.app]. reflexivity.
Qed.

Lemma no_color_console_is_plain_witness :
  isSet plainProcess "NO_COLOR"
  ∧ ∃ n rest,
      result (adaptiveNotifier itermOs plainProcess soundFile) = Returns n
      ∧ trace (sendWithConsole n (js "Build") (js "done"))
        = WriteStdout (nl ++ catFace ++ js " " ++ js "Build" ++ nl)
          :: WriteStdout (js "   " ++ js "done" ++ nl ++ nl)
          :: WriteStdout bell :: rest.
Proof.
  assert (H : isSet plainProcess "NO_COLOR").
  { eexists. split; [vm_compute; reflexivity | discriminate]. }
  split; [exact H|].
  exact (no_color_console_is_plain itermOs plainProcess soundFile
           (js "Build") (js "done") H).
Defined.

End DispatchTrace.

(** * Escaping and filtering *)

Section Escaping.

Import AppleScriptEscape.

(** What one character becomes. *)
Definition escapeUnit (c : N) : jsstring :=
  if c =? backslash then [backslash; backslash]
  else if c =? doubleQuote then [backslash; doubleQuote]
  else if c =? lineFeed then [backslash; 0x6E]
  else if c =? carriageReturn then [backslash; 0x72]
  else if c =? tab then [backslash; 0x74]
  else [c].

(** Reading an escaped text back: a backslash announces one of the five
    escaped characters; a bare quote, line feed, carriage return or tab, or
    a backslash followed by anything else, is not the work of the
    escaping. *)
Fixpoint unescape (s : jsstring) : option jsstring :=
  match s with
  | [] => Some []
  | c :: rest =>
      if c =? backslash then
        match rest with
        | d :: rest' =>
            let decoded :=
              if d =? backslash then Some backslash
              else if d =? doubleQuote then Some doubleQuote
              else if d =? 0x6E then Some lineFeed
              else if d =? 0x72 then Some carriageReturn
              else if d =? 0x74 then Some tab
              else None in
            match decoded, unescape rest' with
            | Some x, Some t => Some (x :: t)
            | _, _ => None
            end
        | [] => None
        end
      else if (c =? doubleQuote) || (c =? lineFeed) || (c =? carriageReturn)
              || (c =? tab)
      then None
      else match unescape rest with
           | Some t => Some (c :: t)
           | None => None
           end
  end.

Lemma replaceAll_replaceAll (c1 c2 : N) (r1 r2 s : jsstring) :
  replaceAll c2 r2 (replaceAll c1 r1 s)
  = flat_map (λ x, replaceAll c2 r2 (if x =? c1 then r1 else [x])) s.
Proof.
  unfold replaceAll. induction s as [|x s IH]; [reflexivity|].
  cbn [flat_map]. by rewrite flat_map_app, IH.
Qed.

Lemma flat_map_ext_units (f g : N → jsstring) (s : jsstring) :
  (∀ x, f x = g x) → flat_map f s = flat_map g s.
Proof. intros H. induction s; cbn; [done|]. by rewrite H, IHs. Qed.

Lemma flat_map_flat_map (f g : N → jsstring) (s : jsstring) :
  flat_map g (flat_map f s) = flat_map (λ x, flat_map g (f x)) s.
Proof.
  induction s as [|x s IH]; [reflexivity|].
  cbn [flat_map]. by rewrite flat_map_app, IH.
Qed.

Lemma escape_one_pass (s : jsstring) :
  escapeAppleScript (JString s) = flat_map escapeUnit s.
Proof.
  unfold escapeAppleScript, replaceAll.
  rewrite !flat_map_flat_map. apply flat_map_ext_units. intros x.
  unfold escapeUnit, backslash, doubleQuote, lineFeed, carriageReturn, tab.
  destruct (x =? 0x5C) eqn:H1.
  { apply N.eqb_eq in H1 as ->. reflexivity. }
  destruct (x =? 0x22) eqn:H2.
  { apply N.eqb_eq in H2 as ->. reflexivity. }
  destruct (x =? 0x0A) eqn:H3.
  { apply N.eqb_eq in H3 as ->. reflexivity. }
  destruct (x =? 0x0D) eqn:H4.
  { apply N.eqb_eq in H4 as ->. reflexivity. }
  destruct (x =? 0x09) eqn:H5.
  { apply N.eqb_eq in H5 as ->. reflexivity. }
  do 6 (cbn [flat_map List.app]; rewrite ?H1, ?H2, ?H3, ?H4, ?H5).
  reflexivity.
Qed.

Lemma unescape_escapeUnit (c : N) (rest : jsstring) :
  unescape (escapeUnit c ++ rest)
  = match unescape rest with Some t => Some (c :: t) | None => None end.
Proof.
  unfold escapeUnit, backslash, doubleQuote, lineFeed, carriageReturn, tab.
  destruct (c =? 0x5C) eqn:H1.
  { apply N.eqb_eq in H1 as ->. reflexivity. }
  destruct (c =? 0x22) eqn:H2.
  { apply N.eqb_eq in H2 as ->. reflexivity. }
  destruct (c =? 0x0A) eqn:H3.
  { apply N.eqb_eq in H3 as ->. reflexivity. }
  destruct (c =? 0x0D) eqn:H4.
  { apply N.eqb_eq in H4 as ->. reflexivity. }
  destruct (c =? 0x09) eqn:H5.
  { apply N.eqb_eq in H5 as ->. reflexivity. }
  cbn [List.app unescape].
  unfold backslash, doubleQuote, lineFeed, carriageReturn, tab.
  by rewrite H1, H2, H3, H4, H5.
Qed.

(** X20. Escaping for AppleScript loses nothing and leaves nothing raw: the
    escaped text reads back to the original, so two texts never escape to
    the same one, and it holds no double quote, line feed, carriage return
    or tab that is not announced by a backslash. *)
Theorem escapeAppleScript_reads_back (s : jsstring) :
  unescape (escapeAppleScript (JString s)) = Some s.
Proof.
  rewrite escape_one_pass. induction s as [|c s IH]; [reflexivity|].
  cbn [flat_map]. by rewrite unescape_escapeUnit, IH.
Qed.

End Escaping.

Section Filtering.

Import NotificationHook NotificationFilter.

(** A text made of white space only (the empty text included). *)
Definition blank (s : jsstring) : Prop :=
  Forall (λ c, isWhiteSpace c = true) s.

Lemma trimStart_starts (s : jsstring) (c : N) (r : jsstring) :
  trimStart s = c :: r → isWhiteSpace c = false.
Proof.
  induction s as [|x s IH]; [done|]. cbn [trimStart].
  destruct (isWhiteSpace x) eqn:Hx; [exact IH|]. by intros [= <- _].
Qed.

Lemma trimStart_nil (s : jsstring) : trimStart s = [] ↔ blank s.
Proof.
  unfold blank. induction s as [|x s IH]; [by split; [constructor|]|].
  cbn [trimStart]. rewrite Forall_cons.
  destruct (isWhiteSpace x) eqn:Hx.
  - rewrite IH. tauto.
  - split; [done|]. by intros [[=] _].
Qed.

Lemma trim_nil (s : jsstring) : trim s = [] ↔ blank s.
Proof.
  unfold trim, trimEnd. split.
  - intros H. apply (f_equal reverse) in H.
    rewrite reverse_involutive in H. cbn in H.
    apply trimStart_nil in H. unfold blank in H.
    rewrite Forall_reverse in H. apply trimStart_nil.
    destruct (trimStart s) as [|c r] eqn:Hs; [done|].
    apply trimStart_starts in Hs. apply Forall_cons in H as [Hc _].
    congruence.
  - intros H%trimStart_nil. by rewrite H.
Qed.

Lemma truthy_trim (s : jsstring) : truthy (trim s) = false ↔ blank s.
Proof.
  rewrite <- trim_nil. by destruct (trim s).
Qed.

(** X21. A notification is dropped exactly when its title or its message is
    blank (empty or white space only), or the lower-cased text matches one
    of the words debug, verbose, trace, internal or system. *)
Theorem shouldSkipNotification_exactly
  (toLowerCase : jsstring → jsstring) (t m : jsstring) :
  shouldSkipNotification toLowerCase t m = true
  ↔ blank t ∨ blank m
    ∨ some skipPatterns (toLowerCase (t ++ js " " ++ m)) = true.
Proof.
  unfold shouldSkipNotification. rewrite <- !truthy_trim.
  destruct (truthy (trim t)), (truthy (trim m)); cbn; intuition congruence.
Qed.

(** X22. A notification that is not dropped has a title and a message with
    something other than white space in them, and both stay non-empty
    through the classification and the styling that follow. *)
Theorem kept_notification_is_styled
  (toLowerCase : jsstring → jsstring) (t m : jsstring) :
  shouldSkipNotification toLowerCase t m = false →
  (∃ c, c ∈ t ∧ isWhiteSpace c = false)
  ∧ (∃ c, c ∈ m ∧ isWhiteSpace c = false)
  ∧ title (styleNotification toLowerCase t m) ≠ []
  ∧ message (styleNotification toLowerCase t m) ≠ [].
Proof.
  intros Hkept.
  assert (Hnot : ¬ (blank t ∨ blank m
                    ∨ some skipPatterns (toLowerCase (t ++ js " " ++ m))
                      = true)).
  { revert Hkept. unfold shouldSkipNotification. rewrite <- !truthy_trim.
    destruct (truthy (trim t)), (truthy (trim m)); cbn;
      intuition congruence. }
  assert (Hseen : ∀ s, ¬ blank s → ∃ c, c ∈ s ∧ isWhiteSpace c = false).
  { intros s. unfold blank. induction s as [|x s IH]; intros Hs.
    - destruct Hs. constructor.
    - destruct (isWhiteSpace x) eqn:Hx.
      + destruct IH as (c & Hin & Hc).
        * intros Hall. apply Hs. by constructor.
        * exists c. split; [by right | done].
      + exists x. split; [by left | done]. }
  destruct (Hseen t) as (ct & Hct & Hwt); [tauto|].
  destruct (Hseen m) as (cm & Hcm & Hwm); [tauto|].
  split; [by exists ct|]. split; [by exists cm|].
  unfold styleNotification. rewrite styled_title, styled_message. split.
  - destruct (hasEmojiRangeChar t).
    + intros ->. by apply elem_of_nil in Hct.
    + destruct (analyzeNotificationContent toLowerCase t m); discriminate.
  - destruct (200 <? length m)%nat.
    + intros H. apply (f_equal length) in H. rewrite length_app in H.
      change (length (js "...")) with 3%nat in H. simpl in H. lia.
    + intros ->. by apply elem_of_nil in Hcm.
Qed.

Lemma kept_notification_is_styled_witness :
  shouldSkipNotification asciiToLowerCase (js "Build") (js "done") = false
  ∧ (∃ c, c ∈ js "Build" ∧ isWhiteSpace c = false)
  ∧ (∃ c, c ∈ js "done" ∧ isWhiteSpace c = false)
  ∧ title (styleNotification asciiToLowerCase (js "Build") (js "done")) ≠ []
  ∧ message (styleNotification asciiToLowerCase (js "Build") (js "done"))
    ≠ [].
Proof.
  assert (H : shouldSkipNotification asciiToLowerCase (js "Build") (js "done")
              = false) by (vm_compute; reflexivity).
  split; [exact H|].
  exact (kept_notification_is_styled asciiToLowerCase
           (js "Build") (js "done") H).
Defined.

End Filtering.

(** * Properties of the hooks *)

Section HookRuns.

Import HookEffects.

(** What a run did, seen from outside: the events of the library, the
    lines printed with [console.log], the programs run with [execFile]. *)
Definition ioEvents (l : list hevent) : list event :=
  omap (λ e, match e with Io x => Some x | _ => None end) l.

Definition printed (l : list hevent) : list jsstring :=
  omap (λ e, match e with ConsoleLog text => Some text | _ => None end) l.

Definition programs (l : list hevent) : list (jsstring * list jsstring) :=
  omap (λ e, match e with ExecFile f a => Some (f, a) | _ => None end) l.

(** Log keeping: file system calls and lines on the standard error. *)
Definition housekeeping (e : hevent) : bool :=
  match e with
  | FsExistsSync _ | FsMkdirSync _ | FsAppendFileSync _ _ | ConsoleError _ =>
      true
  | _ => false
  end.

Definition silent (l : list hevent) : Prop :=
  Forall (λ e, housekeeping e = true) l.

Lemma ioEvents_app (l1 l2 : list hevent) :
  ioEvents (l1 ++ l2) = ioEvents l1 ++ ioEvents l2.
Proof. apply omap_app. Qed.

Lemma printed_app (l1 l2 : list hevent) :
  printed (l1 ++ l2) = printed l1 ++ printed l2.
Proof. apply omap_app. Qed.

Lemma programs_app (l1 l2 : list hevent) :
  programs (l1 ++ l2) = programs l1 ++ programs l2.
Proof. apply omap_app. Qed.

Lemma ioEvents_lift (l : list event) : ioEvents (map Io l) = l.
Proof.
  induction l as [|e l IH]; [done|].
  change (ioEvents (map Io (e :: l))) with (e :: ioEvents (map Io l)).
  by rewrite IH.
Qed.

Lemma printed_lift (l : list event) : printed (map Io l) = [].
Proof. by induction l. Qed.

Lemma programs_lift (l : list event) : programs (map Io l) = [].
Proof. by induction l. Qed.

Lemma silent_nil : silent [].
Proof. constructor. Qed.

Lemma silent_app (l1 l2 : list hevent) :
  silent l1 → silent l2 → silent (l1 ++ l2).
Proof. intros. by apply Forall_app. Qed.

Lemma silent_ioEvents (l : list hevent) : silent l → ioEvents l = [].
Proof.
  induction 1 as [|e l He _ IH]; [done|]. by destruct e.
Qed.

Lemma silent_printed (l : list hevent) : silent l → printed l = [].
Proof.
  induction 1 as [|e l He _ IH]; [done|]. by destruct e.
Qed.

Lemma silent_programs (l : list hevent) : silent l → programs l = [].
Proof.
  induction 1 as [|e l He _ IH]; [done|]. by destruct e.
Qed.

(** [runs m past Q]: run after [past], the computation [m] ends in an
    outcome and adds events that satisfy [Q]. *)
Definition runs {A} (m : hio A) (past : list hevent)
  (Q : outcome A → list hevent → Prop) : Prop :=
  Q (m past).1 (m past).2.

Lemma runs_ret {A} (a : A) (past : list hevent) Q :
  Q (Returns a) [] → runs (mret a) past Q.
Proof. done. Qed.

Lemma runs_throw {A} (msg : jsstring) (past : list hevent)
  (Q : outcome A → list hevent → Prop) :
  Q (Throws msg) [] → runs (hthrow msg) past Q.
Proof. done. Qed.

Lemma runs_bind {A B} (m : hio A) (f : A → hio B) (past : list hevent) Q :
  runs m past
    (λ o l, match o with
            | Returns a => runs (f a) (past ++ l) (λ o' l', Q o' (l ++ l'))
            | Throws e => Q (Throws e) l
            end) →
  runs (m ≫= f) past Q.
Proof.
  unfold runs, mbind, hio_bind. intros H.
  destruct (m past) as [[a|e] l]; exact H.
Qed.

Lemma runs_try {A} (m : hio A) (handler : jsstring → hio A)
  (past : list hevent) Q :
  runs m past
    (λ o l, match o with
            | Returns a => Q (Returns a) l
            | Throws e =>
                runs (handler e) (past ++ l) (λ o' l', Q o' (l ++ l'))
            end) →
  runs (htry m handler) past Q.
Proof.
  unfold runs, htry. intros H.
  destruct (m past) as [[a|e] l]; exact H.
Qed.

Lemma runs_lift {A} (m : io A) (past : list hevent) Q :
  Q (result m) (map Io (trace m)) → runs (lift m) past Q.
Proof. done. Qed.

Lemma runs_consoleLog (text : jsstring) (past : list hevent) Q :
  Q (Returns tt) [ConsoleLog text] → runs (consoleLog text) past Q.
Proof. done. Qed.

Lemma runs_consoleError (text : jsstring) (past : list hevent) Q :
  Q (Returns tt) [ConsoleError text] → runs (consoleError text) past Q.
Proof. done. Qed.

Lemma runs_existsSync (h : host) (path : jsstring) (past : list hevent) Q :
  Q (Returns (pathExists h past path)) [FsExistsSync path] →
  runs (existsSync h path) past Q.
Proof. done. Qed.

Lemma runs_weaken {A} (m : hio A) (past : list hevent)
  (Q Q' : outcome A → list hevent → Prop) :
  runs m past Q → (∀ o l, Q o l → Q' o l) → runs m past Q'.
Proof. unfold runs. auto. Qed.

(** A computation that only keeps logs: it returns [a], whatever the past
    was. *)
Definition keepsLogs {A} (m : hio A) (a : A) : Prop :=
  ∀ past, runs m past (λ o l, o = Returns a ∧ silent l).

Lemma runs_keepsLogs {A} (m : hio A) (a : A) (past : list hevent) Q :
  keepsLogs m a → (∀ l, silent l → Q (Returns a) l) → runs m past Q.
Proof.
  intros Hm HQ. specialize (Hm past). unfold runs in *.
  destruct Hm as [-> Hl]. by apply HQ.
Qed.

(** The body shared by the three loggers: make sure of the directory, then
    append. *)
Lemma append_keepsLogs (h : host) (dir file text failure : jsstring) :
  keepsLogs
    (htry
       (found ← existsSync h dir;
        _ ← (if found : bool then mret tt else mkdirSync h dir);
        appendFileSync h file text)
       (λ msg, consoleError (failure ++ msg)))
    tt.
Proof.
  intros past. apply runs_try, runs_bind, runs_existsSync.
  destruct (pathExists h past dir).
  - apply runs_bind, runs_ret. unfold runs, appendFileSync.
    destruct (appendFails h _ file text); cbn [fst snd List.app].
    + apply runs_consoleError. by repeat constructor.
    + by repeat constructor.
  - apply runs_bind. unfold runs at 1. unfold mkdirSync.
    destruct (mkdirFails h _ dir); cbn [fst snd List.app].
    + apply runs_consoleError. by repeat constructor.
    + unfold runs, appendFileSync.
      destruct (appendFails h _ file text); cbn [fst snd List.app].
      * apply runs_consoleError. by repeat constructor.
      * by repeat constructor.
Qed.

End HookRuns.

(** ** lib/error-handler.js *)

Section Handling.

Import HookEffects ErrorHandler.

Variable h : host.

Lemma logError_keepsLogs (error : errorObject) (context : jsstring) :
  keepsLogs (logError h error context) tt.
Proof.
  intros past. unfold logError.
  apply runs_try, runs_bind, runs_existsSync.
  destruct (pathExists h past (errorLogDir h)).
  - apply runs_bind, runs_ret, runs_bind. unfold runs at 1, toISOString.
    cbn [fst snd]. cbv zeta. unfold runs, appendFileSync.
    destruct (appendFails h _ _ _); cbn [fst snd List.app].
    + apply runs_consoleError. by repeat constructor.
    + by repeat constructor.
  - apply runs_bind. unfold runs at 1. unfold mkdirSync.
    destruct (mkdirFails h _ _); cbn [fst snd List.app].
    + apply runs_consoleError. by repeat constructor.
    + apply runs_bind. unfold runs at 1, toISOString.
      cbn [fst snd]. cbv zeta. unfold runs, appendFileSync.
      destruct (appendFails h _ _ _); cbn [fst snd List.app].
      * apply runs_consoleError. by repeat constructor.
      * by repeat constructor.
Qed.

(** What the handler answers. *)
Definition answerTo (error : errorObject) : handling :=
  {| handled := true;
     userMessage := (respond (errCode error)).1;
     recovery := (respond (errCode error)).2;
     originalError := error |}.

(** What the fallback action did, run after [past]. *)
Definition acted (error : errorObject) (options : handleOptions)
  (past : list hevent) : list hevent :=
  match fallbackAction options with
  | Some action => (action error past).2
  | None => []
  end.

(** What the handler printed on the standard error after the fallback
    action, run after [past]. *)
Definition reported (error : errorObject) (options : handleOptions)
  (past : list hevent) : list hevent :=
  match fallbackAction options with
  | Some action =>
      match (action error past).1 with
      | Throws msg => [ConsoleError (js "Fallback action failed: " ++ msg)]
      | Returns _ => []
      end
  | None => []
  end
  ++ (if shouldNotifyUser options
      then [ConsoleError (js "[cat-ccnotify] " ++ (respond (errCode error)).1)]
      else []).

Lemma reported_silent error options past :
  silent (reported error options past).
Proof.
  unfold reported. apply silent_app.
  - destruct (fallbackAction options) as [action|]; [|constructor].
    destruct (action error past).1; by repeat constructor.
  - destruct (shouldNotifyUser options); by repeat constructor.
Qed.

Lemma handleError_run
  (error : errorObject) (options : handleOptions) (past : list hevent) :
  ∃ logged,
    silent logged
    ∧ (shouldLog options = false → logged = [])
    ∧ handleError h error options past
      = (Returns (answerTo error),
         logged ++ acted error options (past ++ logged)
         ++ reported error options (past ++ logged)).
Proof.
  assert (Hlog : ∃ logged,
    (if shouldLog options then logError h error (operation options)
     else mret tt) past = (Returns tt, logged)
    ∧ silent logged ∧ (shouldLog options = false → logged = [])).
  { destruct (shouldLog options).
    - pose proof (logError_keepsLogs error (operation options) past) as Hl.
      unfold runs in Hl. destruct (logError h error (operation options) past)
        as [o l]. cbn [fst snd] in Hl. destruct Hl as [-> Hl].
      exists l. by split_and!.
    - exists []. split_and!; [done | constructor | done]. }
  destruct Hlog as (logged & Hrun & Hsilent & Hoff).
  exists logged. split; [exact Hsilent|]. split; [exact Hoff|].
  unfold handleError. unfold mbind at 1, hio_bind at 1. rewrite Hrun.
  cbv zeta. unfold acted, reported, answerTo.
  unfold mbind, hio_bind. 
  destruct (fallbackAction options) as [action|].
  - unfold htry. destruct (action error (past ++ logged)) as [[[]|msg] l2];
      cbn [fst snd consoleError mret hio_ret];
      destruct (shouldNotifyUser options);
      cbn [fst snd consoleError mret hio_ret];
      by rewrite ?app_nil_r, <- ?app_assoc.
  - cbn [fst snd mret hio_ret].
    destruct (shouldNotifyUser options);
      cbn [fst snd consoleError mret hio_ret];
      by rewrite ?app_nil_r.
Qed.

(** X23. [handleError] never raises, whatever the logging and the fallback
    action do.  It logs first, and only if asked to; then it runs the
    fallback action, if there is one, exactly once; then it reports on the
    standard error that the action failed, if it did, and prints the user
    message, if asked to; and it answers with the message and the recovery
    chosen from the error code alone. *)
Theorem handleError_never_raises
  (error : errorObject) (options : handleOptions) (past : list hevent) :
  ∃ logged,
    silent logged
    ∧ (shouldLog options = false → logged = [])
    ∧ (handleError h error options past).1
      = Returns {| handled := true;
                   userMessage := (respond (errCode error)).1;
                   recovery := (respond (errCode error)).2;
                   originalError := error |}
    ∧ (handleError h error options past).2
      = logged
        ++ match fallbackAction options with
           | Some action => (action error (past ++ logged)).2
           | None => []
           end
        ++ reported error options (past ++ logged).
Proof.
  destruct (handleError_run error options past) as (logged & H1 & H2 & ->).
  exists logged. by split_and!.
Qed.

(** The handler as the hooks call it: with no fallback action, or with one
    that prints a line. *)
Lemma runs_handleError
  (error : errorObject) (context : jsstring) (line : option jsstring)
  (log notify : bool) (past : list hevent)
  (Q : outcome handling → list hevent → Prop) :
  (∀ l1 l2, silent l1 → silent l2 →
     Q (Returns (answerTo error))
       (l1 ++ match line with Some text => [ConsoleLog text] | None => [] end
        ++ l2)) →
  runs (handleError h error
          {| operation := context;
             fallbackAction :=
               match line with
               | Some text => Some (λ _, consoleLog text)
               | None => None
               end;
             shouldLog := log;
             shouldNotifyUser := notify |}) past Q.
Proof.
  intros HQ. unfold runs.
  destruct (handleError_run error
              {| operation := context;
                 fallbackAction :=
                   match line with
                   | Some text => Some (λ _, consoleLog text)
                   | None => None
                   end;
                 shouldLog := log;
                 shouldNotifyUser := notify |} past)
    as (logged & Hsilent & _ & ->).
  cbn [fst snd].
  assert (Hacted : acted error
                     {| operation := context;
                        fallbackAction :=
                          match line with
                          | Some text => Some (λ _, consoleLog text)
                          | None => None
                          end;
                        shouldLog := log;
                        shouldNotifyUser := notify |} (past ++ logged)
                   = match line with
                     | Some text => [ConsoleLog text]
                     | None => []
                     end).
  { unfold acted. cbn [fallbackAction]. by destruct line. }
  rewrite Hacted. apply HQ; [exact Hsilent | apply reported_silent].
Qed.

End Handling.

(** ** lib/shell-executor.js: what is run *)

Section Validation.

Import HookEffects ShellCommands.

Variable h : host.
Variable toLowerCase : jsstring → jsstring.

Lemma endsWith_suffix (ext s : jsstring) :
  endsWith ext s = true ↔ ext `suffix_of` s.
Proof.
  unfold endsWith. rewrite andb_true_iff, bool_decide_eq_true. split.
  - intros [_ Hdrop]. exists (take (length s - length ext) s).
    rewrite <- Hdrop at 2. by rewrite take_drop.
  - intros [pre ->]. rewrite length_app. split.
    + apply Nat.leb_le. lia.
    + replace (length pre + length ext - length ext)%nat
        with (length pre) by lia.
      by rewrite drop_app_length.
Qed.

Lemma existsb_endsWith (exts : list jsstring) (s : jsstring) :
  existsb (λ ext, endsWith ext s) exts = true
  ↔ ∃ ext, ext ∈ exts ∧ ext `suffix_of` s.
Proof.
  rewrite existsb_exists. split.
  - intros (ext & Hin & Hends). exists ext.
    split; [by apply list_elem_of_In | by apply endsWith_suffix].
  - intros (ext & Hin & Hends). exists ext.
    split; [by apply list_elem_of_In | by apply endsWith_suffix].
Qed.

(** The arguments [executeAfplay] lets through. *)
Definition playable (audioPath : jsvalue) : Prop :=
  ∃ s, audioPath = JString s
       ∧ ¬ blank s
       ∧ ∃ ext, ext ∈ allowedExtensions ∧ ext `suffix_of` toLowerCase s.

(** X24. [executeAfplay] starts a program exactly for a string that is not
    blank and whose lower-cased form ends in one of the five extensions: it
    then runs /usr/bin/afplay once, with the path as it was given as the
    only argument, and resolves or rejects as that program does.  For any
    other argument it rejects with one of its two messages before anything
    is run. *)
Theorem executeAfplay_validates (audioPath : jsvalue) (past : list hevent) :
  (playable audioPath →
   ∃ s, audioPath = JString s
        ∧ executeAfplay h toLowerCase audioPath past
          = execFileAsync h (js "/usr/bin/afplay") [s] past)
  ∧ (¬ playable audioPath →
     executeAfplay h toLowerCase audioPath past
     = (Throws (js "Invalid audio path provided"), [])
     ∨ executeAfplay h toLowerCase audioPath past
       = (Throws (js "Invalid audio file type"), [])).
Proof.
  unfold playable. split.
  - intros (s & -> & Hblank & Hext). exists s. split; [done|].
    unfold executeAfplay.
    apply existsb_endsWith in Hext. cbv zeta. rewrite Hext.
    destruct (truthy (trim s)) eqn:Htrim; [done|].
    by apply truthy_trim in Htrim.
  - intros Hnot. destruct audioPath as [s| | | |]; try by left.
    unfold executeAfplay. destruct (truthy (trim s)) eqn:Htrim; [|by left].
    cbv zeta.
    destruct (existsb _ allowedExtensions) eqn:Hext; [|by right].
    destruct Hnot. exists s. split; [done|]. split.
    + intros Hblank%truthy_trim. congruence.
    + by apply existsb_endsWith.
Qed.

Lemma executeOsascript_run (s : jsstring) (past : list hevent) :
  ¬ blank s →
  executeOsascript h (JString s) past
  = execFileAsync h (js "/usr/bin/osascript") [js "-e"; s] past.
Proof.
  intros Hblank. unfold executeOsascript.
  destruct (truthy (trim s)) eqn:Htrim; [done|].
  by apply truthy_trim in Htrim.
Qed.

Lemma not_blank (c : N) (s : jsstring) :
  c ∈ s → isWhiteSpace c = false → ¬ blank s.
Proof.
  intros Hin Hc Hblank. unfold blank in Hblank.
  rewrite Forall_forall in Hblank. specialize (Hblank c Hin). congruence.
Qed.

End Validation.

(** ** hooks/notification-hook.js: delivery *)

Section Delivery.

Import HookEffects ErrorHandler ShellCommands ShellExecutor.
Import AdaptiveNotifier NotificationDelivery.

Variable h : host.
Variable toLowerCase : jsstring → jsstring.
Variable n : notifier.

Lemma debugLog_keepsLogs (message : jsstring) :
  keepsLogs (debugLog h message) tt.
Proof.
  intros past. unfold debugLog. destruct (isDebugMode h); cbn [negb].
  - apply runs_bind. unfold runs at 1, toISOString. cbn [fst snd]. cbv zeta.
    eapply runs_weaken; [apply append_keepsLogs|].
    intros o l [-> Hl]. cbn beta. split; [done | exact Hl].
  - apply runs_ret. split; [done | constructor].
Qed.

Lemma debugLog_off (message : jsstring) (past : list hevent) :
  isDebugMode h = false → debugLog h message past = (Returns tt, []).
Proof. intros Hoff. unfold debugLog. by rewrite Hoff. Qed.

Lemma runs_handleError_print
  (error : errorObject) (context text : jsstring) (log notify : bool)
  (past : list hevent) (Q : outcome handling → list hevent → Prop) :
  (∀ l1 l2, silent l1 → silent l2 →
     Q (Returns (answerTo error)) (l1 ++ [ConsoleLog text] ++ l2)) →
  runs (handleError h error
          {| operation := context;
             fallbackAction := Some (λ _, consoleLog text);
             shouldLog := log;
             shouldNotifyUser := notify |}) past Q.
Proof. intros HQ. by apply (runs_handleError h error context (Some text)). Qed.

Lemma runs_handleError_plain
  (error : errorObject) (context : jsstring) (log notify : bool)
  (past : list hevent) (Q : outcome handling → list hevent → Prop) :
  (∀ l, silent l → Q (Returns (answerTo error)) l) →
  runs (handleError h error
          {| operation := context;
             fallbackAction := None;
             shouldLog := log;
             shouldNotifyUser := notify |}) past Q.
Proof.
  intros HQ. apply (runs_handleError h error context None).
  intros l1 l2 H1 H2. apply HQ. by apply silent_app.
Qed.

Lemma runs_executeAfplay (s : jsstring) (past : list hevent)
  (Q : outcome jsstring → list hevent → Prop) :
  (∀ msg, Q (Throws msg) []) →
  (∀ o, Q o [ExecFile (js "/usr/bin/afplay") [s]]) →
  runs (executeAfplay h toLowerCase (JString s)) past Q.
Proof.
  intros Hreject Hrun. unfold runs, executeAfplay.
  destruct (truthy (trim s)); [|apply Hreject]. cbv zeta.
  destruct (existsb _ allowedExtensions); [|apply Hreject].
  unfold execFileAsync. cbn [fst snd]. apply Hrun.
Qed.

Lemma runs_executeOsascript (s : jsstring) (past : list hevent)
  (Q : outcome jsstring → list hevent → Prop) :
  ¬ blank s →
  (∀ o, Q o [ExecFile (js "/usr/bin/osascript") [js "-e"; s]]) →
  runs (executeOsascript h (JString s)) past Q.
Proof.
  intros Hblank Hrun. unfold runs. rewrite executeOsascript_run by done.
  unfold execFileAsync. cbn [fst snd]. apply Hrun.
Qed.

(** Whether the dispatcher reported a success. *)
Definition delivered (send : io sendResult) : bool :=
  match result send with
  | Returns r => success r
  | Throws _ => false
  end.

Definition raised {A} (m : io A) : Prop := ∃ e, result m = Throws e.

End Delivery.

Ltac hstep h :=
  cbn beta iota;
  lazymatch goal with
  | |- runs (_ ≫= _) _ _ => apply runs_bind
  | |- runs (HookEffects.htry _ _) _ _ => apply runs_try
  | |- runs (mret _) _ _ => apply runs_ret
  | |- runs (HookEffects.hthrow _) _ _ => apply runs_throw
  | |- runs (HookEffects.lift _) _ _ => apply runs_lift
  | |- runs (HookEffects.consoleLog _) _ _ => apply runs_consoleLog
  | |- runs (HookEffects.existsSync _ _) _ _ => apply runs_existsSync
  | |- runs (ErrorHandler.handleError _ _
               {| ErrorHandler.fallbackAction := None |}) _ _ =>
      apply runs_handleError_plain; intros ? ?
  | |- runs (ErrorHandler.handleError _ _
               {| ErrorHandler.fallbackAction := Some _ |}) _ _ =>
      apply runs_handleError_print; intros ? ? ? ?
  | |- runs (ShellCommands.executeAfplay _ _ _) _ _ =>
      apply runs_executeAfplay; [intros ? | intros [?|?]]
  end.

Ltac view :=
  rewrite ?ioEvents_app, ?printed_app, ?programs_app,
    ?ioEvents_lift, ?printed_lift, ?programs_lift;
  repeat match goal with
         | H : silent ?l |- _ =>
             rewrite ?(silent_ioEvents l H), ?(silent_printed l H),
               ?(silent_programs l H);
             clear H
         end;
  cbn [ioEvents printed programs omap List.app];
  rewrite ?app_nil_r.

Section DeliveryRuns.

Import HookEffects ErrorHandler ShellCommands ShellExecutor.
Import AdaptiveNotifier NotificationDelivery.

Variable h : host.
Variable toLowerCase : jsstring → jsstring.
Variable n : notifier.

Ltac step :=
  first
    [ hstep h
    | lazymatch goal with
      | |- runs (debugLog _ _) _ _ =>
          apply (runs_keepsLogs _ tt);
          [apply debugLog_keepsLogs | intros ? ?]
      end ].

Lemma sendEnhancedNotification_run
  (title message sound : jsstring) (past : list hevent) :
  let safeTitle := sanitizeNotificationContent (JString title) in
  let safeMessage := sanitizeNotificationContent (JString message) in
  let send := sendNotification n safeTitle safeMessage in
  let run := sendEnhancedNotification h toLowerCase n title message sound
               past in
  run.1 = Returns tt
  ∧ if negb (truthy safeTitle) && negb (truthy safeMessage)
    then ioEvents run.2 = [] ∧ printed run.2 = [] ∧ programs run.2 = []
    else ioEvents run.2 = trace send
         ∧ printed run.2
           = (if delivered send then []
              else [js "[Notification] " ++ safeTitle ++ js ": "
                    ++ safeMessage])
         ∧ (programs run.2 = []
            ∨ raised send
              ∧ programs run.2
                = [(js "/usr/bin/afplay", [customSoundPath h])]).
Proof.
  intros safeTitle safeMessage send run. subst run.
  change (runs (sendEnhancedNotification h toLowerCase n title message sound)
            past
            (λ o l,
               o = Returns tt
               ∧ if negb (truthy safeTitle) && negb (truthy safeMessage)
                 then ioEvents l = [] ∧ printed l = [] ∧ programs l = []
                 else ioEvents l = trace send
                      ∧ printed l
                        = (if delivered send then []
                           else [js "[Notification] " ++ safeTitle
                                 ++ js ": " ++ safeMessage])
                      ∧ (programs l = []
                         ∨ raised send
                           ∧ programs l
                             = [(js "/usr/bin/afplay",
                                 [customSoundPath h])]))).
  unfold sendEnhancedNotification. cbv zeta.
  fold safeTitle safeMessage. fold send.
  destruct (negb (truthy safeTitle) && negb (truthy safeMessage)).
  { step. step. split; [done|]. by view. }
  unfold delivered, raised.
  step. step. step. step. step. step. step.
  destruct (result send) as [r|e].
  - step. destruct (success r).
    + step. step. destruct (truthyOpt (warning r)).
      * step. step. step. split; [done|]. view. split_and!; auto.
      * step. step. step. split; [done|]. view. split_and!; auto.
    + step. step. step. step. step. split; [done|]. view.
      split_and!; auto.
  - step. step. step. step. step.
    (* the sound, after the dispatcher raised *)
    step. step. step. step.
    destruct (pathExists h _ (customSoundPath h)).
    + step. step.
      * (* afplay refused the path *)
        step. step. step. step. split; [done|]. view. split_and!; auto.
      * (* afplay ran and resolved *)
        step. step. split; [done|]. view. split_and!; eauto.
      * (* afplay ran and rejected *)
        step. step. step. step. split; [done|]. view. split_and!; eauto.
    + step. step. step. step. split; [done|]. view. split_and!; auto.
Qed.

(** X25. [sendEnhancedNotification] never rejects.  When the sanitised title
    and message are both empty it calls nothing.  Otherwise it calls the
    dispatcher once, with the sanitised title and message; the line
    "[Notification] title: message" is printed, once, exactly when the
    dispatcher did not report a success (its result said so, or it
    raised); the "[Fallback]" line is never printed; and afplay is run, at
    most once, only after the dispatcher raised. *)
Theorem sendEnhancedNotification_delivers
  (title message sound : jsstring) (past : list hevent) :
  let safeTitle := sanitizeNotificationContent (JString title) in
  let safeMessage := sanitizeNotificationContent (JString message) in
  let send := sendNotification n safeTitle safeMessage in
  let run := sendEnhancedNotification h toLowerCase n title message sound
               past in
  run.1 = Returns tt
  ∧ if negb (truthy safeTitle) && negb (truthy safeMessage)
    then ioEvents run.2 = [] ∧ printed run.2 = [] ∧ programs run.2 = []
    else ioEvents run.2 = trace send
         ∧ printed run.2
           = (if delivered send then []
              else [js "[Notification] " ++ safeTitle ++ js ": "
                    ++ safeMessage])
         ∧ (programs run.2 = []
            ∨ raised send
              ∧ programs run.2
                = [(js "/usr/bin/afplay", [customSoundPath h])]).
Proof. apply sendEnhancedNotification_run. Qed.

End DeliveryRuns.

(** ** lib/notification-sender.js *)

Section Scripts.

Import HookEffects ShellCommands NotificationSender.

Variable h : host.

Definition osascriptCall (s : jsstring) : jsstring * list jsstring :=
  (js "/usr/bin/osascript", [js "-e"; s]).

(** Every program started in [l], run after [past], failed. *)
Fixpoint allRejected (past l : list hevent) : Prop :=
  match l with
  | [] => True
  | e :: l' =>
      match e with
      | ExecFile f a => ∃ msg, execFileResult h past f a = ExecError msg
      | _ => True
      end
      ∧ allRejected (past ++ [e]) l'
  end.

Definition sentLine (m : scriptMethod) : jsstring :=
  checkMark ++ js " Notification sent successfully using " ++ methodName m
  ++ js " method".

Definition allFailedLine : jsstring :=
  crossMark ++ js " All notification methods failed".

(** One turn of the loop. *)
Lemma tryMethods_turn (m : scriptMethod) (rest : list scriptMethod)
  (past : list hevent) :
  ¬ blank (script m) →
  tryMethods h (m :: rest) past
  = match execFileResult h past (js "/usr/bin/osascript")
            [js "-e"; script m] with
    | ExecOk _ =>
        (Returns true,
         [ExecFile (js "/usr/bin/osascript") [js "-e"; script m];
          ConsoleLog (sentLine m)])
    | ExecError msg =>
        let failed :=
          [ExecFile (js "/usr/bin/osascript") [js "-e"; script m];
           ConsoleLog (crossMark ++ js " " ++ methodName m
                       ++ js " method failed: " ++ msg)] in
        ((tryMethods h rest (past ++ failed)).1,
         failed ++ (tryMethods h rest (past ++ failed)).2)
    end.
Proof.
  intros Hblank. cbn [tryMethods].
  unfold mbind at 1, hio_bind at 1, htry.
  unfold mbind at 1, hio_bind at 1. rewrite executeOsascript_run by done.
  unfold execFileAsync.
  destruct (execFileResult h past _ _) as [out|msg]; reflexivity.
Qed.

Lemma tryMethods_run (ms : list scriptMethod) :
  Forall (λ m, ¬ blank (script m)) ms →
  ∀ past,
    ∃ k failed,
      allRejected past failed
      ∧ programs failed = map (λ m, osascriptCall (script m)) (take k ms)
      ∧ ((∃ m out,
            ms !! k = Some m
            ∧ execFileResult h (past ++ failed) (js "/usr/bin/osascript")
                [js "-e"; script m] = ExecOk out
            ∧ tryMethods h ms past
              = (Returns true,
                 failed
                 ++ [ExecFile (js "/usr/bin/osascript") [js "-e"; script m];
                     ConsoleLog (sentLine m)]))
         ∨ (k = length ms
            ∧ tryMethods h ms past
              = (Returns false, failed ++ [ConsoleLog allFailedLine]))).
Proof.
  induction 1 as [|m ms Hm _ IH]; intros past.
  - exists 0%nat, []. split; [done|]. split; [done|]. right. by split.
  - rewrite tryMethods_turn by done.
    destruct (execFileResult h past _ _) as [out|msg] eqn:Hcall.
    + exists 0%nat, []. split; [done|]. split; [done|]. left.
      exists m, out. rewrite app_nil_r. by split_and!.
    + cbv zeta.
      set (failed := [ExecFile _ _; ConsoleLog _]).
      destruct (IH (past ++ failed)) as (k & later & Hrej & Hprog & Hend).
      exists (S k), (failed ++ later). split.
      { subst failed. cbn [List.app allRejected]. split; [by exists msg|].
        split; [done|]. by rewrite <- app_assoc. }
      split.
      { rewrite programs_app, Hprog. reflexivity. }
      destruct Hend as [(m' & out & Hk & Hok & ->)|[-> ->]].
      * left. exists m', out. split; [done|].
        rewrite <- !app_assoc in *. by split.
      * right. split; [done|]. by rewrite <- !app_assoc.
Qed.

Lemma display_not_blank (title message : jsstring) :
  ¬ blank (display title message).
Proof.
  apply (not_blank 0x64); [|reflexivity]. unfold display.
  change (js "display notification ")
    with (0x64 :: js "isplay notification ").
  by left.
Qed.

Lemma tell_not_blank (rest : jsstring) :
  ¬ blank (lf ++ js "tell application " ++ rest).
Proof.
  apply (not_blank 0x74); [|reflexivity].
  change (js "tell application ") with (0x74 :: js "ell application ").
  apply elem_of_app. right. by left.
Qed.

Lemma methods_not_blank (title message subtitle : jsstring) :
  Forall (λ m, ¬ blank (script m)) (methods title message subtitle).
Proof.
  unfold methods. repeat constructor; cbn [script].
  - apply tell_not_blank.
  - apply tell_not_blank.
  - apply tell_not_blank.
  - apply tell_not_blank.
  - apply tell_not_blank.
  - apply (not_blank 0x64); [|reflexivity]. apply elem_of_app. left.
    unfold display.
    change (js "display notification ")
      with (0x64 :: js "isplay notification ").
    by left.
  - apply display_not_blank.
Qed.

(** X26. [sendNotificationSafely] never rejects.  It runs the scripts of its
    seven methods through osascript in the order of the list, each at most
    once, and stops at the first one that osascript accepts: it answers
    true exactly then, after printing the line that names that method, and
    answers false after all seven failed. *)
Theorem sendNotificationSafely_first_success
  (title message subtitle : jsstring) (past : list hevent) :
  let ms := methods title message subtitle in
  let run := sendNotificationSafely h title message subtitle past in
  ∃ k failed,
    allRejected past failed
    ∧ programs failed = map (λ m, osascriptCall (script m)) (take k ms)
    ∧ ((∃ m out,
          ms !! k = Some m
          ∧ execFileResult h (past ++ failed) (js "/usr/bin/osascript")
              [js "-e"; script m] = ExecOk out
          ∧ run
            = (Returns true,
               failed
               ++ [ExecFile (js "/usr/bin/osascript") [js "-e"; script m];
                   ConsoleLog (sentLine m)]))
       ∨ (k = 7%nat
          ∧ run = (Returns false, failed ++ [ConsoleLog allFailedLine]))).
Proof.
  cbv zeta. unfold sendNotificationSafely.
  apply (tryMethods_run _ (methods_not_blank title message subtitle)).
Qed.

End Scripts.

(** ** What the user is told on the standard error *)

Section Notices.

Import HookEffects ErrorHandler.

(** How the lines the handler prints for the user start. *)
Definition noticePrefix : jsstring := js "[cat-ccnotify] ".

(** The lines a logger prints on the standard error when it could not
    write its file: the one of the stop hook's [debugLog] and the one of
    [logError]. *)
Definition logFailure (text : jsstring) : bool :=
  startsWith (js "Stop hook logging failed: ") text
  || startsWith (js "Failed to write to error log: ") text.

(** Every other line of the standard error, in order. *)
Definition notices (l : list hevent) : list jsstring :=
  omap (λ e, match e with
             | ConsoleError text =>
                 if logFailure text then None else Some text
             | _ => None
             end) l.

(** Log keeping that tells the user nothing. *)
Definition logKeeping (e : hevent) : bool :=
  match e with
  | FsExistsSync _ | FsMkdirSync _ | FsAppendFileSync _ _ => true
  | ConsoleError text => logFailure text
  | _ => false
  end.

Definition unnoticed (l : list hevent) : Prop :=
  Forall (λ e, logKeeping e = true) l.

Lemma unnoticed_silent (l : list hevent) : unnoticed l → silent l.
Proof.
  induction 1 as [|e l He _ IH]; [constructor|].
  constructor; [|exact IH]. by destruct e.
Qed.

Lemma notices_cons_error (text : jsstring) (l : list hevent) :
  notices (ConsoleError text :: l)
  = if logFailure text then notices l else text :: notices l.
Proof.
  unfold notices. cbn [omap list_omap].
  by destruct (logFailure text).
Qed.

Lemma unnoticed_notices (l : list hevent) : unnoticed l → notices l = [].
Proof.
  induction 1 as [|e l He _ IH]; [done|].
  destruct e; try done. cbn [logKeeping] in He.
  by rewrite notices_cons_error, He.
Qed.

Lemma unnoticed_app (l1 l2 : list hevent) :
  unnoticed l1 → unnoticed l2 → unnoticed (l1 ++ l2).
Proof. intros. by apply Forall_app. Qed.

Lemma notices_app (l1 l2 : list hevent) :
  notices (l1 ++ l2) = notices l1 ++ notices l2.
Proof. apply omap_app. Qed.

Lemma notices_lift (l : list event) : notices (map Io l) = [].
Proof. by induction l. Qed.

Lemma logFailure_notice (text : jsstring) :
  logFailure (noticePrefix ++ text) = false.
Proof. reflexivity. Qed.

Lemma notices_notice (text : jsstring) :
  notices [ConsoleError (noticePrefix ++ text)] = [noticePrefix ++ text].
Proof. by rewrite notices_cons_error, logFailure_notice. Qed.

(** A computation that only keeps logs and tells the user nothing. *)
Definition logsOnly {A} (m : hio A) (a : A) : Prop :=
  ∀ past, runs m past (λ o l, o = Returns a ∧ unnoticed l).

Lemma runs_logsOnly {A} (m : hio A) (a : A) (past : list hevent) Q :
  logsOnly m a → (∀ l, unnoticed l → Q (Returns a) l) → runs m past Q.
Proof.
  intros Hm HQ. specialize (Hm past). unfold runs in *.
  destruct Hm as [-> Hl]. by apply HQ.
Qed.

Variable h : host.

Lemma append_logsOnly (dir file text failure : jsstring) :
  (∀ msg, logFailure (failure ++ msg) = true) →
  logsOnly
    (htry
       (found ← existsSync h dir;
        _ ← (if found : bool then mret tt else mkdirSync h dir);
        appendFileSync h file text)
       (λ msg, consoleError (failure ++ msg)))
    tt.
Proof.
  intros Hfailure past.
  assert (Hline : ∀ msg, unnoticed [ConsoleError (failure ++ msg)]).
  { intros msg. constructor; [|constructor]. cbn [logKeeping].
    by rewrite Hfailure. }
  apply runs_try, runs_bind, runs_existsSync.
  destruct (pathExists h past dir).
  - apply runs_bind, runs_ret. unfold runs, appendFileSync.
    destruct (appendFails h _ file text); cbn [fst snd List.app].
    + apply runs_consoleError. split; [done|].
      apply (unnoticed_app [_; _]); [by repeat constructor | apply Hline].
    + by repeat constructor.
  - apply runs_bind. unfold runs at 1. unfold mkdirSync.
    destruct (mkdirFails h _ dir); cbn [fst snd List.app].
    + apply runs_consoleError. split; [done|].
      apply (unnoticed_app [_; _]); [by repeat constructor | apply Hline].
    + unfold runs, appendFileSync.
      destruct (appendFails h _ file text); cbn [fst snd List.app].
      * apply runs_consoleError. split; [done|].
        apply (unnoticed_app [_; _; _]);
          [by repeat constructor | apply Hline].
      * by repeat constructor.
Qed.

Lemma logError_logsOnly (error : errorObject) (context : jsstring) :
  logsOnly (logError h error context) tt.
Proof.
  intros past. unfold logError.
  assert (Hline : ∀ msg, unnoticed
            [ConsoleError (js "Failed to write to error log: " ++ msg)]).
  { intros msg. constructor; [|constructor]. reflexivity. }
  apply runs_try, runs_bind, runs_existsSync.
  destruct (pathExists h past (errorLogDir h)).
  - apply runs_bind, runs_ret, runs_bind. unfold runs at 1, toISOString.
    cbn [fst snd]. cbv zeta. unfold runs, appendFileSync.
    destruct (appendFails h _ _ _); cbn [fst snd List.app].
    + apply runs_consoleError. split; [done|].
      apply (unnoticed_app [_; _]); [by repeat constructor | apply Hline].
    + by repeat constructor.
  - apply runs_bind. unfold runs at 1. unfold mkdirSync.
    destruct (mkdirFails h _ _); cbn [fst snd List.app].
    + apply runs_consoleError. split; [done|].
      apply (unnoticed_app [_; _]); [by repeat constructor | apply Hline].
    + apply runs_bind. unfold runs at 1, toISOString.
      cbn [fst snd]. cbv zeta. unfold runs, appendFileSync.
      destruct (appendFails h _ _ _); cbn [fst snd List.app].
      * apply runs_consoleError. split; [done|].
        apply (unnoticed_app [_; _; _]);
          [by repeat constructor | apply Hline].
      * by repeat constructor.
Qed.

(** The line the handler prints for the user about an error. *)
Definition noticeFor (error : errorObject) : jsstring :=
  noticePrefix ++ (respond (errCode error)).1.

(** The handler as the hooks call it, with what it tells the user: after
    the log keeping comes the line of the fallback action, if there is one,
    then the notice, if it is asked for. *)
Lemma runs_handleError_notice
  (error : errorObject) (context : jsstring) (line : option jsstring)
  (notify : bool) (past : list hevent)
  (Q : outcome handling → list hevent → Prop) :
  (∀ l, unnoticed l →
     Q (Returns (answerTo error))
       (l ++ match line with Some text => [ConsoleLog text] | None => [] end
        ++ (if notify then [ConsoleError (noticeFor error)] else []))) →
  runs (handleError h error
          {| operation := context;
             fallbackAction :=
               match line with
               | Some text => Some (λ _, consoleLog text)
               | None => None
               end;
             shouldLog := true;
             shouldNotifyUser := notify |}) past Q.
Proof.
  intros HQ. unfold handleError. cbn [shouldLog operation].
  apply runs_bind, (runs_logsOnly _ tt); [apply logError_logsOnly|].
  intros l Hl. cbn beta iota. cbv zeta.
  cbn [fallbackAction shouldNotifyUser].
  apply runs_bind.
  assert (Hrest : ∀ past' (l' : list hevent),
    l' = match line with Some text => [ConsoleLog text] | None => [] end →
    runs (_ ← (if notify
               then consoleError (js "[cat-ccnotify] "
                                  ++ (respond (errCode error)).1)
               else mret tt);
          mret {| handled := true;
                  userMessage := (respond (errCode error)).1;
                  recovery := (respond (errCode error)).2;
                  originalError := error |}) past'
      (λ o' l'', Q o' (l ++ l' ++ l''))).
  { intros past' l' ->. apply runs_bind. destruct notify.
    - apply runs_consoleError, runs_ret. rewrite app_nil_r. by apply HQ.
    - apply runs_ret, runs_ret. by apply HQ. }
  destruct line as [text|].
  - apply runs_try, runs_consoleLog. by apply Hrest.
  - apply runs_ret. by apply Hrest.
Qed.

End Notices.

(** ** hooks/stop-hook.cjs: delivery *)

Section StopDelivery.

Import HookEffects ErrorHandler ShellCommands ShellExecutor.
Import AppleScriptEscape.
Import EnvironmentDetector (process).
Import AdaptiveNotifier StopHookDetector StopHook.

Variable h : host.
Variable o : os.
Variable p : process.
Variable toLowerCase : jsstring → jsstring.
Variable imported : notifier + jsstring.

Lemma stop_debugLog_logsOnly (message : jsstring) :
  logsOnly (debugLog h message) tt.
Proof.
  intros past. unfold debugLog. destruct (isDebugMode h); cbn [negb].
  - apply runs_bind. unfold runs at 1, toISOString. cbn [fst snd]. cbv zeta.
    eapply runs_weaken;
      [apply (append_logsOnly h _ _ _ (js "Stop hook logging failed: "));
       by intros msg|].
    intros o' l [-> Hl]. cbn beta. split; [done | exact Hl].
  - apply runs_ret. split; [done | constructor].
Qed.

Lemma stop_detectParentApp_returns :
  ∃ found, result (detectParentApp o p) = Returns found.
Proof.
  unfold detectParentApp. rewrite result_tryCatch.
  destruct (result (walk o maxLevels _)) as [found|e]; by eexists.
Qed.

(** The script the legacy path sends. *)
Definition stopScript (found : option stopApp)
  (escapedTitle escapedMessage : jsstring) : jsstring :=
  match found with
  | Some app =>
      if truthy (bundleId app)
      then parentScript (bundleId app) escapedTitle escapedMessage
      else plainScript escapedTitle escapedMessage
  | None => plainScript escapedTitle escapedMessage
  end.

Lemma stopScript_not_blank (found : option stopApp) (t m : jsstring) :
  ¬ blank (stopScript found t m).
Proof.
  assert (Hplain : ¬ blank (plainScript t m)).
  { apply (not_blank 0x64); [|reflexivity]. unfold plainScript.
    change (js "display notification ")
      with (0x64 :: js "isplay notification ").
    by left. }
  unfold stopScript. destruct found as [app|]; [|done].
  destruct (truthy (bundleId app)); [|done].
  apply (not_blank 0x74); [|reflexivity]. unfold parentScript.
  change (js "tell application id ") with (0x74 :: js "ell application id ").
  by left.
Qed.

(** The line the handler prints for the user when the notification could
    not be displayed. *)
Definition displayNotice : jsstring :=
  js "[cat-ccnotify] Failed to display notification. Check console for details.".

Ltac step :=
  cbn beta iota;
  first
    [ lazymatch goal with
      | |- runs (debugLog _ _) _ _ =>
          apply (runs_logsOnly _ tt);
          [apply stop_debugLog_logsOnly | intros ? ?]
      | |- runs (executeOsascript _ (JString (stopScript _ _ _))) _ _ =>
          apply runs_executeOsascript;
          [apply stopScript_not_blank | intros [?|?]]
      | |- runs (handleError _ ?e
                   {| operation := ?c;
                      fallbackAction := Some (λ _, consoleLog ?t);
                      shouldLog := true;
                      shouldNotifyUser := ?b |}) _ _ =>
          apply (runs_handleError_notice h e c (Some t) b); intros ? ?
      | |- runs (handleError _ ?e
                   {| operation := ?c;
                      fallbackAction := None;
                      shouldLog := true;
                      shouldNotifyUser := ?b |}) _ _ =>
          apply (runs_handleError_notice h e c None b); intros ? ?
      end
    | hstep h ].

Ltac told :=
  rewrite ?ioEvents_app, ?printed_app, ?programs_app, ?notices_app,
    ?ioEvents_lift, ?printed_lift, ?programs_lift, ?notices_lift;
  repeat match goal with
         | H : unnoticed ?l |- _ =>
             rewrite ?(silent_ioEvents l (unnoticed_silent l H)),
               ?(silent_printed l (unnoticed_silent l H)),
               ?(silent_programs l (unnoticed_silent l H)),
               ?(unnoticed_notices l H);
             clear H
         end;
  change (ConsoleError (noticeFor ?e))
    with (ConsoleError (noticePrefix ++ (respond (errCode e)).1));
  rewrite ?notices_notice;
  cbn [ioEvents printed programs notices omap list_omap List.app];
  rewrite ?app_nil_r.

(** The legacy path up to the notification, once the script is known. *)
Lemma runs_script
  (found : option stopApp) (t m : jsstring) (past : list hevent)
  (Q : outcome jsstring → list hevent → Prop) :
  (∀ l, unnoticed l → Q (Returns (stopScript found t m)) l) →
  runs match found with
       | Some app =>
           if truthy (bundleId app) then
             _ ← debugLog h (js "Using parent app: " ++ name app
                             ++ js " (" ++ bundleId app ++ js ")");
             mret (parentScript (bundleId app) t m)
           else
             _ ← debugLog h
                   (js "Using fallback notification (no parent app detected)");
             mret (plainScript t m)
       | None =>
           _ ← debugLog h
                 (js "Using fallback notification (no parent app detected)");
           mret (plainScript t m)
       end past Q.
Proof.
  intros HQ. unfold stopScript in HQ. destruct found as [app|].
  - destruct (truthy (bundleId app)); step; step; step;
      rewrite app_nil_r; by apply HQ.
  - step. step. step. rewrite app_nil_r. by apply HQ.
Qed.

(** X27. [sendStopNotification] never rejects, and calls nothing when the
    sanitised title and message are both empty.  When the dispatcher was
    imported and reports a success, the hook runs no program, prints
    nothing and tells the user nothing.  When the dispatcher reports a
    failure, raises or could not be imported, osascript is run exactly
    once, with a script that carries the escaped title and message and
    goes through the parent application when one was identified; afplay
    follows, at most once, only when the dispatcher could not be
    imported.  On the standard output the hook then prints nothing, or the
    one line "[Stop Notification] title: message"; that line comes
    together with the handler's notice on the standard error, "[cat-ccnotify]
    Failed to display notification. Check console for details.".  Apart
    from that notice the standard error holds only the lines of a logger
    that could not write its file ([logFailure]).  What the dispatcher
    itself prints is not part of the run. *)
Theorem sendStopNotification_delivers
  (title message : jsstring) (past : list hevent) :
  let safeTitle := sanitizeNotificationContent (JString title) in
  let safeMessage := sanitizeNotificationContent (JString message) in
  let finalTitle := catFace ++ js " " ++ safeTitle in
  let finalMessage := sessionEnded ++ safeMessage in
  let detect := detectParentApp o p in
  let line :=
    js "[Stop Notification] " ++ safeTitle ++ js ": " ++ safeMessage in
  let run := sendStopNotification h o p toLowerCase imported title message
               past in
  let told :=
    printed run.2 = [] ∧ notices run.2 = []
    ∨ printed run.2 = [line] ∧ notices run.2 = [displayNotice] in
  run.1 = Returns tt
  ∧ if negb (truthy safeTitle) && negb (truthy safeMessage)
    then ioEvents run.2 = [] ∧ printed run.2 = [] ∧ notices run.2 = []
         ∧ programs run.2 = []
    else
      ∃ found,
        result detect = Returns found
        ∧ let call :=
            osascriptCall
              (stopScript found (escapeAppleScript (JString finalTitle))
                 (escapeAppleScript (JString finalMessage))) in
          match imported with
          | inl notifier =>
              let send := sendNotification notifier finalTitle finalMessage in
              if delivered send
              then ioEvents run.2 = trace send
                   ∧ printed run.2 = [] ∧ notices run.2 = []
                   ∧ programs run.2 = []
              else ioEvents run.2 = trace send ++ trace detect
                   ∧ told
                   ∧ programs run.2 = [call]
          | inr _ =>
              ioEvents run.2 = trace detect
              ∧ told
              ∧ (programs run.2 = [call]
                 ∨ programs run.2
                   = [call; (js "/usr/bin/afplay", [audioFile h])])
          end.
Proof.
  intros safeTitle safeMessage finalTitle finalMessage detect line run told.
  subst run told.
  destruct stop_detectParentApp_returns as [found Hfound].
  fold detect in Hfound.
  change (runs (sendStopNotification h o p toLowerCase imported title message)
            past
            (λ out l,
               out = Returns tt
               ∧ if negb (truthy safeTitle) && negb (truthy safeMessage)
                 then ioEvents l = [] ∧ printed l = [] ∧ notices l = []
                      ∧ programs l = []
                 else
                   ∃ found',
                     result detect = Returns found'
                     ∧ let call' :=
                         osascriptCall
                           (stopScript found'
                              (escapeAppleScript (JString finalTitle))
                              (escapeAppleScript (JString finalMessage))) in
                       match imported with
                       | inl notifier =>
                           let send :=
                             sendNotification notifier finalTitle
                               finalMessage in
                           if delivered send
                           then ioEvents l = trace send
                                ∧ printed l = [] ∧ notices l = []
                                ∧ programs l = []
                           else ioEvents l = trace send ++ trace detect
                                ∧ (printed l = [] ∧ notices l = []
                                   ∨ printed l = [line]
                                     ∧ notices l = [displayNotice])
                                ∧ programs l = [call']
                       | inr _ =>
                           ioEvents l = trace detect
                           ∧ (printed l = [] ∧ notices l = []
                              ∨ printed l = [line]
                                ∧ notices l = [displayNotice])
                           ∧ (programs l = [call']
                              ∨ programs l
                                = [call';
                                   (js "/usr/bin/afplay", [audioFile h])])
                       end)).
  unfold sendStopNotification. cbv zeta.
  fold safeTitle safeMessage. fold finalTitle finalMessage. fold detect.
  destruct (negb (truthy safeTitle) && negb (truthy safeMessage)).
  { step. step. split; [done|]. by told. }
  unfold initializeAdaptiveNotifier, delivered.
  destruct imported as [notifier|failure].
  - repeat step.
    destruct (result (sendNotification notifier finalTitle finalMessage))
      as [r|e].
    + repeat step. destruct (success r).
      * repeat step. destruct (truthyOpt (warning r)); repeat step;
          (split; [done|]); exists found; (split; [done|]); cbv zeta;
          told; by split_and!.
      * (* the dispatcher reported a failure *)
        repeat step. rewrite Hfound. repeat step.
        apply runs_script. intros ? ?. repeat step;
          (split; [done|]); exists found; (split; [done|]); cbv zeta;
          told; split_and!; auto.
    + (* the dispatcher raised *)
      repeat step. rewrite Hfound. repeat step.
      apply runs_script. intros ? ?. repeat step;
        (split; [done|]); exists found; (split; [done|]); cbv zeta;
        told; split_and!; auto.
  - (* the dispatcher could not be imported *)
    repeat step. rewrite Hfound. repeat step.
    apply runs_script. intros ? ?. repeat step.
    + (* osascript resolved *)
      destruct (pathExists h _ (audioFile h)); repeat step;
        (split; [done|]); exists found; (split; [done|]); cbv zeta;
        told; split_and!; auto.
    + (* osascript rejected *)
      destruct (pathExists h _ (audioFile h)); repeat step;
        (split; [done|]); exists found; (split; [done|]); cbv zeta;
        told; split_and!; auto.
Qed.

End StopDelivery.

(** ** The notification hook in normal use *)

Section NormalUse.

Import HookEffects ErrorHandler ShellCommands ShellExecutor.
Import EnvironmentDetector AdaptiveNotifier NotificationDelivery.

(** What is known of the runtime's [toLowerCase] on a text that ends in
    ASCII characters: the end is lower-cased letter by letter, whatever
    comes before it. *)
Definition keepsAsciiTail (toLowerCase : jsstring → jsstring) : Prop :=
  ∀ a b, Forall (λ c, c < 0x80) b →
         ∃ a', toLowerCase (a ++ b) = a' ++ asciiToLowerCase b.

Lemma asciiToLowerCase_keepsAsciiTail : keepsAsciiTail asciiToLowerCase.
Proof.
  intros a b _. exists (asciiToLowerCase a). unfold asciiToLowerCase.
  apply map_app.
Qed.

(** X28. The validation of [executeAfplay] never refuses the sound file of
    the hook: wherever the hook is installed, the call made for it runs
    /usr/bin/afplay on the path. *)
Theorem own_sound_is_played
  (h : host) (toLowerCase : jsstring → jsstring) (past : list hevent) :
  keepsAsciiTail toLowerCase →
  executeAfplay h toLowerCase (JString (customSoundPath h)) past
  = execFileAsync h (js "/usr/bin/afplay") [customSoundPath h] past.
Proof.
  intros Htail. unfold executeAfplay, customSoundPath.
  assert (Hblank : ¬ blank (soundsDir h ++ js "cat-meow-1-fx-323465.mp3")).
  { apply (not_blank 0x63); [|reflexivity]. apply elem_of_app. right.
    change (js "cat-meow-1-fx-323465.mp3")
      with (0x63 :: js "at-meow-1-fx-323465.mp3").
    by left. }
  destruct (truthy (trim _)) eqn:Htrim;
    [|by apply truthy_trim in Htrim].
  cbv zeta.
  destruct (Htail (soundsDir h) (js "cat-meow-1-fx-323465.mp3"))
    as [dir Hlower]; [by repeat constructor|].
  assert (Hext : existsb
                   (λ ext, endsWith ext
                             (toLowerCase
                                (soundsDir h
                                 ++ js "cat-meow-1-fx-323465.mp3")))
                   allowedExtensions = true).
  { apply existsb_endsWith. exists (js ".mp3"). split; [by left|].
    rewrite Hlower. exists (dir ++ js "cat-meow-1-fx-323465").
    by rewrite <- app_assoc. }
  by rewrite Hext.
Qed.

Definition plainHost : host :=
  {| isDebugMode := false;
     clock := λ _, js "2025-01-01T00:00:00.000Z";
     pathExists := λ _ _, true;
     mkdirFails := λ _ _, None;
     appendFails := λ _ _ _, None;
     execFileResult := λ _ _ _, ExecOk [];
     jsonStringify := λ _, js "{}";
     catNotifyDir := js "/home/cat/.claude/cat-ccnotify";
     logFile := js "/home/cat/.claude/cat-ccnotify/notification-hook.log";
     errorLogDir := js "/home/cat/.claude/cat-ccnotify/errors";
     errorLogFile := js "/home/cat/.claude/cat-ccnotify/errors/error.log";
     soundsDir := js "/opt/cat-ccnotify/sounds/" |}.

Lemma own_sound_is_played_witness :
  keepsAsciiTail asciiToLowerCase
  ∧ executeAfplay plainHost asciiToLowerCase
      (JString (customSoundPath plainHost)) []
    = execFileAsync plainHost (js "/usr/bin/afplay")
        [customSoundPath plainHost] [].
Proof.
  split; [exact asciiToLowerCase_keepsAsciiTail|].
  exact (own_sound_is_played plainHost asciiToLowerCase []
           asciiToLowerCase_keepsAsciiTail).
Defined.

Lemma executeAfplay_validates_witness :
  playable asciiToLowerCase (JString (js "/tmp/Meow.MP3"))
  ∧ ∃ s, JString (js "/tmp/Meow.MP3") = JString s
         ∧ executeAfplay plainHost asciiToLowerCase
             (JString (js "/tmp/Meow.MP3")) []
           = execFileAsync plainHost (js "/usr/bin/afplay") [s] [].
Proof.
  assert (H : playable asciiToLowerCase (JString (js "/tmp/Meow.MP3"))).
  { exists (js "/tmp/Meow.MP3"). split; [done|]. split.
    - apply (not_blank 0x2F); [|reflexivity].
      change (js "/tmp/Meow.MP3") with (0x2F :: js "tmp/Meow.MP3").
      by left.
    - exists (js ".mp3"). split; [by left|]. by exists (js "/tmp/meow"). }
  split; [exact H|].
  exact (proj1 (executeAfplay_validates plainHost asciiToLowerCase
                  (JString (js "/tmp/Meow.MP3")) []) H).
Defined.

Section Host.

Variable h : host.
Variable toLowerCase : jsstring → jsstring.
Variable n : notifier.

Lemma runs_debugLog_off (message : jsstring) (past : list hevent)
  (Q : outcome unit → list hevent → Prop) :
  isDebugMode h = false → Q (Returns tt) [] →
  runs (debugLog h message) past Q.
Proof. intros Hoff HQ. unfold runs. by rewrite debugLog_off. Qed.

(** X29. With the debug mode off, a notification that the dispatcher
    delivers leaves nothing behind but what the dispatcher did: the hook
    touches no file, prints nothing and runs no program of its own. *)
Theorem delivered_notification_is_silent
  (title message sound : jsstring) (past : list hevent) :
  let safeTitle := sanitizeNotificationContent (JString title) in
  let safeMessage := sanitizeNotificationContent (JString message) in
  let send := sendNotification n safeTitle safeMessage in
  isDebugMode h = false →
  truthy safeTitle || truthy safeMessage = true →
  delivered send = true →
  sendEnhancedNotification h toLowerCase n title message sound past
  = (Returns tt, map Io (trace send)).
Proof.
  intros safeTitle safeMessage send Hoff Hcontent Hsent.
  enough (runs (sendEnhancedNotification h toLowerCase n title message sound)
            past (λ o l, o = Returns tt ∧ l = map Io (trace send))) as Hrun.
  { unfold runs in Hrun. destruct Hrun as [Ho Hl].
    destruct (sendEnhancedNotification _ _ _ _ _ _ _) as [o l].
    cbn [fst snd] in *. by subst. }
  unfold sendEnhancedNotification. cbv zeta.
  fold safeTitle safeMessage. fold send.
  assert (Hfull : negb (truthy safeTitle) && negb (truthy safeMessage)
                  = false).
  { destruct (truthy safeTitle), (truthy safeMessage); done. }
  rewrite Hfull. unfold delivered in Hsent.
  apply runs_try, runs_bind, runs_try, runs_bind.
  apply runs_debugLog_off; [done|]. cbn beta iota.
  apply runs_bind, runs_lift.
  destruct (result send) as [r|e]; [|done]. rewrite Hsent.
  apply runs_bind, runs_bind, runs_debugLog_off; [done|]. cbn beta iota.
  destruct (truthyOpt (warning r)).
  - apply runs_debugLog_off; [done|]. cbn beta iota.
    apply runs_ret. cbn beta iota. apply runs_ret.
    split; [done|]. by rewrite !app_nil_r.
  - apply runs_ret. cbn beta iota.
    apply runs_ret. cbn beta iota. apply runs_ret.
    split; [done|]. by rewrite !app_nil_r.
Qed.

(** X30. The hook runs a program of its own only behind the shortcut the
    dispatcher takes for iTerm2: if anything is run with [execFile], the
    terminal is iTerm2, the selected method is osascript, and what is run
    is afplay on the sound file of the hook, once. *)
Theorem own_sound_needs_iterm2
  (title message sound : jsstring) (past : list hevent) :
  let run := sendEnhancedNotification h toLowerCase n title message sound
               past in
  programs run.2 ≠ [] →
  isITerm2 (dTerminalInfo (nEnv n)) = true
  ∧ bestNotificationMethod (dCapabilities (nEnv n)) = MOsascript
  ∧ programs run.2 = [(js "/usr/bin/afplay", [customSoundPath h])].
Proof.
  intros run Hrun. subst run.
  destruct (sendEnhancedNotification_run h toLowerCase n title message sound
              past) as [_ Hcases].
  cbv zeta in Hcases.
  destruct (negb _ && negb _); [by destruct Hcases as (_ & _ & ?)|].
  destruct Hcases as (_ & _ & [?|[[e Hraised] Hprograms]]); [done|].
  pose proof (sendNotification_run n
                (sanitizeNotificationContent (JString title))
                (sanitizeNotificationContent (JString message))) as Hsend.
  cbv zeta in Hsend.
  destruct Hsend as (lookups & rest & _ & _ & _ & _ & _ & Hsend).
  rewrite Hraised in Hsend.
  destruct Hsend as (Hiterm & Hbest & _). by split_and!.
Qed.

End Host.

(** An iTerm2 session on a Mac where only osascript was found, and where
    every command fails. *)
Definition itermSession : process :=
  {| env := {[ "TERM_PROGRAM"%string := js "iTerm.app" ]};
     stdoutIsTTY := Some true;
     stdinIsTTY := Some true;
     osPlatform := Darwin;
     ppid := 4242 |}.

Definition itermNotifier : notifier :=
  {| nOs := itermOs;
     nProcess := itermSession;
     nEnv :=
       {| dPlatform := Darwin;
          dTerminalInfo := detectTerminalEnvironment itermSession;
          dCapabilities :=
            {| tools :=
                 {| hasOsascript := true; hasTerminalNotifier := false;
                    hasAlerter := false; hasNotifySend := false;
                    hasAfplay := false; hasSay := false;
                    hasEspeak := false |};
               bestNotificationMethod := MOsascript;
               bestSoundMethod := SNone |} |};
     soundPath := soundFile |}.

Lemma own_sound_needs_iterm2_witness :
  programs (sendEnhancedNotification plainHost asciiToLowerCase
              itermNotifier (js "Build") (js "done") (js "info") []).2 ≠ []
  ∧ isITerm2 (dTerminalInfo (nEnv itermNotifier)) = true
  ∧ bestNotificationMethod (dCapabilities (nEnv itermNotifier)) = MOsascript
  ∧ programs (sendEnhancedNotification plainHost asciiToLowerCase
                itermNotifier (js "Build") (js "done") (js "info") []).2
    = [(js "/usr/bin/afplay", [customSoundPath plainHost])].
Proof.
  assert (H : programs (sendEnhancedNotification plainHost asciiToLowerCase
                          itermNotifier (js "Build") (js "done") (js "info")
                          []).2 ≠ []).
  { intros Hnil. vm_compute in Hnil. discriminate Hnil. }
  split; [exact H|].
  exact (own_sound_needs_iterm2 plainHost asciiToLowerCase itermNotifier
           (js "Build") (js "done") (js "info") [] H).
Defined.

(** A notifier that prints on the terminal. *)
Definition consoleNotifier : notifier :=
  {| nOs := itermOs;
     nProcess := plainProcess;
     nEnv :=
       {| dPlatform := Linux;
          dTerminalInfo := detectTerminalEnvironment plainProcess;
          dCapabilities :=
            {| tools :=
                 {| hasOsascript := false; hasTerminalNotifier := false;
                    hasAlerter := false; hasNotifySend := false;
                    hasAfplay := false; hasSay := false;
                    hasEspeak := false |};
               bestNotificationMethod := MConsole;
               bestSoundMethod := SNone |} |};
     soundPath := soundFile |}.

Lemma delivered_notification_is_silent_witness :
  isDebugMode plainHost = false
  ∧ truthy (sanitizeNotificationContent (JString (js "Build")))
    || truthy (sanitizeNotificationContent (JString (js "done"))) = true
  ∧ delivered (sendNotification consoleNotifier
                 (sanitizeNotificationContent (JString (js "Build")))
                 (sanitizeNotificationContent (JString (js "done")))) = true
  ∧ sendEnhancedNotification plainHost asciiToLowerCase consoleNotifier
      (js "Build") (js "done") (js "info") []
    = (Returns tt,
       map Io (trace (sendNotification consoleNotifier
                        (sanitizeNotificationContent (JString (js "Build")))
                        (sanitizeNotificationContent
                           (JString (js "done")))))).
Proof.
  assert (H1 : isDebugMode plainHost = false) by reflexivity.
  assert (H2 : truthy (sanitizeNotificationContent (JString (js "Build")))
               || truthy (sanitizeNotificationContent (JString (js "done")))
               = true) by (vm_compute; reflexivity).
  assert (H3 : delivered
                 (sendNotification consoleNotifier
                    (sanitizeNotificationContent (JString (js "Build")))
                    (sanitizeNotificationContent (JString (js "done"))))
               = true) by (vm_compute; reflexivity).
  split; [exact H1|]. split; [exact H2|]. split; [exact H3|].
  exact (delivered_notification_is_silent plainHost asciiToLowerCase
           consoleNotifier (js "Build") (js "done") (js "info") []
           H1 H2 H3).
Defined.

End NormalUse.
